(** * kaizen-dedup-fix: message deduplication and the stopped-agent guard

    A shallow embedding of the TypeScript sources

      - [message-dedup.ts]       (computeMessageHash, isDuplicateMessage)
      - [persistent-dedup.ts]    (the two-tier dedup store) with [schema.sql]
      - [stopped-agent-guard.ts] (safeReconcileOnStartup, guardedStartAgent)
      - [send-message-protocol.ts] (injectSendMessageProtocol,
        composeSystemPromptWithProtocol)

    and of the script [patch.js] (applyPatch and its six calls).

    JavaScript strings are sequences of UTF-16 code units, numbers that
    hold millisecond timestamps are integers, a [Map] is an association
    list in insertion order, and an [async] function is a state
    transformer that ends by returning, by throwing, or not at all.

    The modules come first, one for each source file; then the terms in
    which the properties are stated; then the proofs. *)

From Stdlib Require Import ZArith NArith List String Ascii Bool Lia.
From Stdlib Require Import DecimalString FinFun Sorted.
Import ListNotations.

Local Open Scope Z_scope.

(* ------------------------------------------------------------------ *)
(** ** JavaScript strings *)
(* ------------------------------------------------------------------ *)

Module JS.

(** A string value: its UTF-16 code units. *)
Definition jsstring := list N.

(** A source literal made of ASCII characters only. *)
Fixpoint lit (s : string) : jsstring :=
  match s with
  | EmptyString => []
  | String a r => N_of_ascii a :: lit r
  end.

(** [a === b] on strings. *)
Fixpoint eqb (a b : jsstring) : bool :=
  match a, b with
  | [], [] => true
  | x :: a', y :: b' => if N.eqb x y then eqb a' b' else false
  | _, _ => false
  end.

(** Truthiness of a string: only the empty string is falsy. *)
Definition truthy (s : jsstring) : bool :=
  match s with [] => false | _ :: _ => true end.

(** [x ?? d] for an optional string. *)
Definition nullish (x : option jsstring) (d : jsstring) : jsstring :=
  match x with Some s => s | None => d end.

(** [x ? String(x) : null] for a nullable text column. *)
Definition truthyOrNull (x : option jsstring) : option jsstring :=
  match x with
  | Some s => if truthy s then Some s else None
  | None => None
  end.

(** Template interpolation of an integer-valued number (decimal digits,
    a leading minus sign for negative values). *)
Definition ofZ (z : Z) : jsstring :=
  lit (NilZero.string_of_int (Z.to_int z)).

(** [Math.round (n / d)] for integers [n] and [d > 0]: the nearest
    integer, a tie going up. *)
Definition roundDiv (n d : Z) : Z := (2 * n + d) / (2 * d).

(** The time values a [Date] can hold; [toISOString] throws a
    [RangeError] on any other. *)
Definition MAX_TIME : Z := 8640000000000000.

Definition validTime (t : Z) : bool :=
  (- MAX_TIME <=? t) && (t <=? MAX_TIME).

(** The code points matched by the regular expression class [\s], which
    are also the ones [String.prototype.trim] strips: WhiteSpace and
    LineTerminator of the language specification. *)
Definition isWhiteSpace (c : N) : bool :=
  ((9 <=? c) && (c <=? 13) || (c =? 32) || (c =? 160) || (c =? 5760)
   || (8192 <=? c) && (c <=? 8202) || (c =? 8232) || (c =? 8233)
   || (c =? 8239) || (c =? 8287) || (c =? 12288) || (c =? 65279))%N.

(** [s.replace(/\s+/g, " ")]: every maximal run of white space becomes
    one space.  [inRun] tells that the previous code unit was part of
    the run being replaced. *)
Fixpoint replaceRuns (inRun : bool) (s : jsstring) : jsstring :=
  match s with
  | [] => []
  | c :: r =>
      if isWhiteSpace c
      then (if inRun then replaceRuns true r else 32%N :: replaceRuns true r)
      else c :: replaceRuns false r
  end.

Definition replaceWhiteSpaceRuns (s : jsstring) : jsstring :=
  replaceRuns false s.

Fixpoint trimStart (s : jsstring) : jsstring :=
  match s with
  | [] => []
  | c :: r => if isWhiteSpace c then trimStart r else s
  end.

Definition trimEnd (s : jsstring) : jsstring := rev (trimStart (rev s)).

(** [s.trim()] *)
Definition trim (s : jsstring) : jsstring := trimEnd (trimStart s).

(** The UTF-8 bytes of a string, as [hash.update(string)] feeds them to
    the digest: a surrogate pair is one four-byte sequence, a lone
    surrogate is replaced by U+FFFD. *)
Definition isHighSurrogate (c : N) : bool := ((55296 <=? c) && (c <=? 56319))%N.
Definition isLowSurrogate (c : N) : bool := ((56320 <=? c) && (c <=? 57343))%N.

Definition replacementChar : list N := [239; 191; 189]%N.

Definition utf8Three (c : N) : list N :=
  [224 + c / 4096; 128 + (c / 64) mod 64; 128 + c mod 64]%N.

Definition utf8Four (cp : N) : list N :=
  [240 + cp / 262144; 128 + (cp / 4096) mod 64;
   128 + (cp / 64) mod 64; 128 + cp mod 64]%N.

Fixpoint utf8 (s : jsstring) : list N :=
  match s with
  | [] => []
  | c :: r =>
      if (c <? 128)%N then c :: utf8 r
      else if (c <? 2048)%N then [192 + c / 64; 128 + c mod 64]%N ++ utf8 r
      else if isHighSurrogate c then
        match r with
        | d :: r' =>
            if isLowSurrogate d
            then utf8Four (65536 + (c - 55296) * 1024 + (d - 56320))%N ++ utf8 r'
            else replacementChar ++ utf8 r
        | [] => replacementChar
        end
      else if isLowSurrogate c then replacementChar ++ utf8 r
      else utf8Three c ++ utf8 r
  end.

(** *** Searching and replacing *)

(** [s.startsWith(m)] *)
Fixpoint startsWith (m s : jsstring) : bool :=
  match m, s with
  | [], _ => true
  | x :: m', y :: s' => if N.eqb x y then startsWith m' s' else false
  | _ :: _, [] => false
  end.

(** [s.indexOf(m)]: the position of the first occurrence of [m] in
    [s]; [None] is the result -1. *)
Fixpoint indexOf (m s : jsstring) : option nat :=
  if startsWith m s then Some 0%nat
  else match s with
       | [] => None
       | _ :: r => option_map S (indexOf m r)
       end.

(** [s.includes(m)] *)
Definition includes (m s : jsstring) : bool :=
  match indexOf m s with Some _ => true | None => false end.

(** GetSubstitution of the language specification for a pattern that is
    a string: there are no captures, so [$$] gives a dollar sign, [$&]
    the matched text, [$`] the text before the match and [$'] the
    text after it, and every other code unit, a dollar sign before a
    digit or before [<] included, is copied. *)
Fixpoint getSubstitution (matched before after template : jsstring) : jsstring :=
  match template with
  | [] => []
  | c :: r =>
      if (c =? 36)%N then
        match r with
        | [] => [c]
        | d :: r' =>
            if (d =? 36)%N then 36%N :: getSubstitution matched before after r'
            else if (d =? 38)%N then matched ++ getSubstitution matched before after r'
            else if (d =? 96)%N then before ++ getSubstitution matched before after r'
            else if (d =? 39)%N then after ++ getSubstitution matched before after r'
            else c :: getSubstitution matched before after r
        end
      else c :: getSubstitution matched before after r
  end.

(** [s.replace(pattern, replacement)] for two strings: the first
    occurrence only. *)
Definition replace (pattern replacement s : jsstring) : jsstring :=
  match indexOf pattern s with
  | None => s
  | Some pos =>
      let before := firstn pos s in
      let after := skipn (pos + List.length pattern) s in
      before ++ getSubstitution pattern before after replacement ++ after
  end.

End JS.

Definition jsstring : Type := JS.jsstring.

(** A line feed and a double quote, for the literals that hold them. *)
Definition nl : jsstring := [10%N].
Definition quote : jsstring := [34%N].

(* ------------------------------------------------------------------ *)
(** ** SHA-256 (FIPS 180-4), the digest behind [crypto.createHash] *)
(* ------------------------------------------------------------------ *)

Module Sha256.

Local Open Scope N_scope.

Definition wordMod : N := 4294967296.

Definition add32 (x y : N) : N := (x + y) mod wordMod.

Definition rotr (n x : N) : N :=
  N.lor (N.shiftr x n) (N.shiftl x (32 - n) mod wordMod).

Definition not32 (x : N) : N := N.lxor x (wordMod - 1).

Definition ch (x y z : N) : N := N.lxor (N.land x y) (N.land (not32 x) z).
Definition maj (x y z : N) : N :=
  N.lxor (N.lxor (N.land x y) (N.land x z)) (N.land y z).
Definition bigSigma0 (x : N) : N := N.lxor (N.lxor (rotr 2 x) (rotr 13 x)) (rotr 22 x).
Definition bigSigma1 (x : N) : N := N.lxor (N.lxor (rotr 6 x) (rotr 11 x)) (rotr 25 x).
Definition smallSigma0 (x : N) : N := N.lxor (N.lxor (rotr 7 x) (rotr 18 x)) (N.shiftr x 3).
Definition smallSigma1 (x : N) : N := N.lxor (N.lxor (rotr 17 x) (rotr 19 x)) (N.shiftr x 10).

(** The constants of the standard are fractional parts of roots of
    primes: the sixty-four round constants are the first thirty-two
    bits of the fractional parts of the cube roots of the first
    sixty-four primes, the initial hash value those of the square roots
    of the first eight. *)
Definition isPrime (n : N) : bool :=
  forallb (fun d => negb (n mod N.of_nat d =? 0)) (List.seq 2 (N.to_nat n - 2)).

Definition primes : list N :=
  filter isPrime (map N.of_nat (List.seq 2 310)).

(** The integer cube root, bit by bit from the top. *)
Fixpoint cubeRoot (bits : nat) (n r : N) : N :=
  match bits with
  | O => r
  | S b =>
      let c := r + 2 ^ N.of_nat b in
      cubeRoot b n (if c * c * c <=? n then c else r)
  end.

Definition cubeRootBits (p : N) : N := cubeRoot 36 (p * 2 ^ 96) 0 mod wordMod.
Definition squareRootBits (p : N) : N := N.sqrt (p * 2 ^ 64) mod wordMod.

Definition roundConstants : list N :=
  Eval vm_compute in map cubeRootBits primes.

Record HashState := mkHash {
  ha : N; hb : N; hc : N; hd : N; he : N; hf : N; hg : N; hh : N
}.

Definition initialHash : HashState :=
  Eval vm_compute in
    match map squareRootBits (firstn 8 primes) with
    | [a; b; c; d; e; f; g; h] => mkHash a b c d e f g h
    | _ => mkHash 0 0 0 0 0 0 0 0
    end.

(** Padding: one [0x80] byte, zero bytes up to 56 modulo 64, then the
    message length in bits as eight big-endian bytes. *)
Definition bigEndian (width : nat) (x : N) : list N :=
  map (fun i => (x / 256 ^ N.of_nat i) mod 256) (rev (seq 0 width)).

Definition pad (msg : list N) : list N :=
  let len := N.of_nat (List.length msg) in
  let zeros := N.to_nat ((119 - len mod 64) mod 64) in
  msg ++ [128] ++ repeat 0 zeros ++ bigEndian 8 (8 * len).

Fixpoint wordsOfBytes (n : nat) (bs : list N) : list N :=
  match n with
  | O => []
  | S n' =>
      match bs with
      | b0 :: b1 :: b2 :: b3 :: r =>
          (((b0 * 256 + b1) * 256 + b2) * 256 + b3) :: wordsOfBytes n' r
      | _ => []
      end
  end.

(** The message schedule, newest word first: [extend] adds the words
    W16 .. W63 to the sixteen words of the block. *)
Fixpoint extend (n : nat) (ws : list N) : list N :=
  match n with
  | O => ws
  | S n' =>
      let w := add32 (add32 (smallSigma1 (nth 1 ws 0)) (nth 6 ws 0))
                     (add32 (smallSigma0 (nth 14 ws 0)) (nth 15 ws 0)) in
      extend n' (w :: ws)
  end.

Definition schedule (block : list N) : list N := rev (extend 48 (rev block)).

Definition round (s : HashState) (kw : N * N) : HashState :=
  let t1 := add32 (add32 (add32 (hh s) (bigSigma1 (he s)))
                         (add32 (ch (he s) (hf s) (hg s)) (fst kw))) (snd kw) in
  let t2 := add32 (bigSigma0 (ha s)) (maj (ha s) (hb s) (hc s)) in
  mkHash (add32 t1 t2) (ha s) (hb s) (hc s) (add32 (hd s) t1) (he s) (hf s) (hg s).

Definition compress (h : HashState) (block : list N) : HashState :=
  let s := fold_left round (combine roundConstants (schedule block)) h in
  mkHash (add32 (ha h) (ha s)) (add32 (hb h) (hb s))
         (add32 (hc h) (hc s)) (add32 (hd h) (hd s))
         (add32 (he h) (he s)) (add32 (hf h) (hf s))
         (add32 (hg h) (hg s)) (add32 (hh h) (hh s)).

Fixpoint blocks (n : nat) (ws : list N) (h : HashState) : HashState :=
  match n with
  | O => h
  | S n' => blocks n' (skipn 16 ws) (compress h (firstn 16 ws))
  end.

Definition digestWords (msg : list N) : list N :=
  let padded := pad msg in
  let ws := wordsOfBytes (List.length padded / 4) padded in
  let h := blocks (List.length ws / 16) ws initialHash in
  [ha h; hb h; hc h; hd h; he h; hf h; hg h; hh h].

Definition hexDigit (d : N) : N := if d <? 10 then 48 + d else 87 + d.

Definition hexWord (w : N) : jsstring :=
  map (fun i => hexDigit ((w / 16 ^ N.of_nat i) mod 16)) (rev (seq 0 8)).

(** [createHash("sha256").update(s).digest("hex")] *)
Definition sha256Hex (s : jsstring) : jsstring :=
  flat_map hexWord (digestWords (JS.utf8 s)).

End Sha256.

(* ------------------------------------------------------------------ *)
(** ** How a call ends *)
(* ------------------------------------------------------------------ *)

(** An [async] function (or a synchronous one that may throw) ends with
    a value, with a thrown error (a rejected promise) carrying a
    message, or never. *)
Inductive Outcome (A : Type) : Type :=
| Returned (a : A)
| Threw (message : jsstring)
| Diverged.

Arguments Returned {A} a.
Arguments Threw {A} message.
Arguments Diverged {A}.

(** What [db.query] resolves to: the rows, or a rejection. *)
Inductive QueryResult (R : Type) : Type :=
| QueryRows (rows : list R)
| QueryError (message : jsstring).

Arguments QueryRows {R} rows.
Arguments QueryError {R} message.

(** [ORDER BY key DESC]: insertion sort, rows with equal keys keep
    their table order. *)
Fixpoint insertDesc {A : Type} (key : A -> Z) (x : A) (l : list A) : list A :=
  match l with
  | [] => [x]
  | y :: r => if key y <=? key x then x :: l else y :: insertDesc key x r
  end.

Definition orderByDesc {A : Type} (key : A -> Z) (l : list A) : list A :=
  fold_right (insertDesc key) [] l.

(* ------------------------------------------------------------------ *)
(** ** message-dedup.ts *)
(* ------------------------------------------------------------------ *)

Module MessageDedup.

(** Drop duplicate messages delivered within this window (72 h). *)
Definition DEDUP_TTL_MS : Z := 72 * 60 * 60 * 1000.

Definition normalize (content : jsstring) : jsstring :=
  JS.trim (JS.replaceWhiteSpaceRuns content).

Definition computeMessageHash (toAgentId content : jsstring) : jsstring :=
  Sha256.sha256Hex (toAgentId ++ JS.lit "::" ++ normalize content).

(** A row of the [messages] table, with the columns the query reads. *)
Record MessageRow := mkMessageRow {
  agent_id : jsstring;
  role : jsstring;
  content : jsstring;
  created_at : Z
}.

(** SELECT content FROM messages WHERE agent_id = $1 AND role = 'user'
    AND created_at >= $2 ORDER BY created_at DESC LIMIT 200 *)
Definition selectRecentUserMessages
    (messages : list MessageRow) (toAgentId : jsstring) (since : Z) : list jsstring :=
  map content
    (firstn 200
       (orderByDesc created_at
          (filter (fun r => JS.eqb (agent_id r) toAgentId
                            && JS.eqb (role r) (JS.lit "user")
                            && (since <=? created_at r))
                  messages))).

(** The body of the [try] block once the rows are there. *)
Definition anyRowMatches (toAgentId content : jsstring) (rows : list jsstring) : bool :=
  let incomingHash := computeMessageHash toAgentId content in
  existsb (fun rowContent => JS.eqb (computeMessageHash toAgentId rowContent) incomingHash) rows.

(** [isDuplicateMessage]: [nowMs] is [Date.now()], [dbError] the
    rejection of [getDb] or of the query when there is one.  The second
    component is what the call writes with [console.warn]. *)
Definition isDuplicateMessage
    (nowMs : Z) (dbError : option jsstring) (messages : list MessageRow)
    (toAgentId content : jsstring) : bool * list jsstring :=
  let warn m := [JS.lit "[MessageDedup] DB check failed, allowing delivery: " ++ m] in
  match dbError with
  | Some m => (false, warn m)
  | None =>
      let since := nowMs - DEDUP_TTL_MS in
      if JS.validTime since
      then (anyRowMatches toAgentId content
              (selectRecentUserMessages messages toAgentId since), [])
      else (false, warn (JS.lit "Invalid time value"))
  end.

End MessageDedup.

(* ------------------------------------------------------------------ *)
(** ** persistent-dedup.ts and schema.sql *)
(* ------------------------------------------------------------------ *)

Module PersistentDedup.

Record DedupMeta := mkMeta {
  taskId : option jsstring;
  eventHash : jsstring;
  seq : option jsstring
}.

Record DedupCheckResult := mkResult {
  isDuplicate : bool;
  reason : option jsstring
}.

(** A row of [message_dedup]; timestamps in milliseconds. *)
Record DedupRow := mkRow {
  id : jsstring;
  from_agent_id : jsstring;
  to_agent_id : jsstring;
  content_hash : jsstring;
  task_id : option jsstring;
  row_seq : option jsstring;
  seen_at : Z;
  expires_at : Z
}.

Definition Table := list DedupRow.

(** The process-local [Map] from key to [seenAt], in insertion order. *)
Definition Cache := list (jsstring * Z).

Inductive DbAdapter := Adapter.

(** What the module writes to the console. *)
Inductive LogEntry :=
| LogCheckFailed (message : jsstring)
| LogStartupLoaded (loaded : nat) (windowMs : Z)
| LogStartupFailed (message : jsstring)
| LogPruneFailed (message : jsstring).

(** The module-level state of one process. *)
Record Process := mkProcess {
  _db : option DbAdapter;
  inMemoryCache : Cache;
  console : list LogEntry
}.

(** What one call reads from outside: [Date.now()], the eight random
    bytes in hexadecimal, the database clock [NOW()], and whether the
    adapter rejects the query. *)
Record Env := mkEnv {
  nowMs : Z;
  randomHex : jsstring;
  dbNow : Z;
  dbError : option jsstring
}.

Definition registerDbAdapter (db : DbAdapter) (p : Process) : Process :=
  mkProcess (Some db) (inMemoryCache p) (console p).

Definition notRegistered : jsstring :=
  JS.lit "DB adapter not registered " ++ [8212%N] ++ JS.lit " call registerDbAdapter first".

Definition ROUTING_DEDUP_TTL_MS : Z := 72 * 60 * 60 * 1000.
Definition ROUTING_DEDUP_MAX_KEYS : Z := 10000.

Definition cacheGet (key : jsstring) (c : Cache) : option Z :=
  match find (fun kv => JS.eqb (fst kv) key) c with
  | Some kv => Some (snd kv)
  | None => None
  end.

(** [Map.prototype.set]: an existing key keeps its place. *)
Fixpoint cacheSet (key : jsstring) (v : Z) (c : Cache) : Cache :=
  match c with
  | [] => [(key, v)]
  | (k, w) :: r => if JS.eqb k key then (k, v) :: r else (k, w) :: cacheSet key v r
  end.

(** The [while] loop of [evictExpired]: the first key is deleted while
    the map is over the limit; a falsy (empty) first key is not deleted
    and the loop never ends. *)
Fixpoint evictOldest (c : Cache) : option Cache :=
  match c with
  | [] => Some []
  | (oldest, _) :: r =>
      if ROUTING_DEDUP_MAX_KEYS <? Z.of_nat (List.length c)
      then (if JS.truthy oldest then evictOldest r else None)
      else Some c
  end.

Definition evictExpired (nowMs : Z) (c : Cache) : option Cache :=
  evictOldest (filter (fun kv => negb (ROUTING_DEDUP_TTL_MS <? nowMs - snd kv)) c).

Definition buildDedupKey (fromAgentId toAgentId : jsstring) (meta : DedupMeta) : jsstring :=
  fromAgentId ++ JS.lit "->" ++ toAgentId
  ++ JS.lit "|task:" ++ JS.nullish (taskId meta) (JS.lit "none")
  ++ JS.lit "|hash:" ++ eventHash meta
  ++ JS.lit "|seq:" ++ JS.nullish (seq meta) (JS.lit "none").

Definition hashContent (content : jsstring) : jsstring :=
  firstn 32 (Sha256.sha256Hex content).

(** *** The conditional insert

    INSERT INTO message_dedup (...) VALUES ($1, ..., NOW(), $7)
    ON CONFLICT (from_agent_id, to_agent_id, content_hash) DO NOTHING
    RETURNING id

    The arbiter is the unique index [idx_message_dedup_route_hash]; a
    clash on the primary key [id] alone is an error. *)
Definition sameRoute (fromAgentId toAgentId hash : jsstring) (r : DedupRow) : bool :=
  JS.eqb (from_agent_id r) fromAgentId
  && JS.eqb (to_agent_id r) toAgentId
  && JS.eqb (content_hash r) hash.

Definition primaryKeyViolation : jsstring :=
  JS.lit "duplicate key value violates unique constraint message_dedup_pkey".

Definition insertOnConflictDoNothing
    (dbError : option jsstring) (row : DedupRow) (t : Table)
    : QueryResult jsstring * Table :=
  match dbError with
  | Some m => (QueryError m, t)
  | None =>
      if existsb (sameRoute (from_agent_id row) (to_agent_id row) (content_hash row)) t
      then (QueryRows [], t)
      else if existsb (fun r => JS.eqb (id r) (id row)) t
      then (QueryError primaryKeyViolation, t)
      else (QueryRows [id row], t ++ [row])
  end.

(** *** checkAndRecordDedup, in the three steps its [await] cuts it into *)

(** Where a call stands once its synchronous first part has run: it is
    over, or its insert is on the way to the database. *)
Inductive Started :=
| Finished (out : Outcome DedupCheckResult)
| Querying (key : jsstring) (row : DedupRow).

Definition l1Reason (nowMs seenAt : Z) : jsstring :=
  JS.lit "L1 cache hit (seen " ++ JS.ofZ (JS.roundDiv (nowMs - seenAt) 1000)
  ++ JS.lit "s ago)".

Definition conflictReason : jsstring :=
  JS.lit "DB conflict " ++ [8212%N] ++ JS.lit " already seen in persistent store".

Definition withCache (p : Process) (c : Cache) : Process :=
  mkProcess (_db p) c (console p).

Definition logged (p : Process) (l : LogEntry) : Process :=
  mkProcess (_db p) (inMemoryCache p) (console p ++ [l]).

(** Lines 109-126: the fast path, [getDb], and the arguments of the
    query.  The row is the one the database would store, its [seen_at]
    being the database's own [NOW()]. *)
Definition checkStart
    (e : Env) (fromAgentId toAgentId : jsstring) (meta : DedupMeta) (ttlMs : Z)
    (p : Process) : Started * Process :=
  let key := buildDedupKey fromAgentId toAgentId meta in
  match evictExpired (nowMs e) (inMemoryCache p) with
  | None => (Finished Diverged, p)
  | Some c =>
      let p1 := withCache p c in
      let miss :=
        match _db p1 with
        | None => (Finished (Threw notRegistered), p1)
        | Some _ =>
            if JS.validTime (nowMs e + ttlMs)
            then (Querying key
                    (mkRow (JS.lit "dedup_" ++ randomHex e) fromAgentId toAgentId
                           (eventHash meta) (taskId meta) (seq meta)
                           (dbNow e) (nowMs e + ttlMs)), p1)
            else (Finished (Threw (JS.lit "Invalid time value")), p1)
        end in
      match cacheGet key c with
      | Some seenAt =>
          if nowMs e - seenAt <=? ttlMs
          then (Finished (Returned (mkResult true (Some (l1Reason (nowMs e) seenAt)))), p1)
          else miss
      | None => miss
      end
  end.

(** Lines 145-162: what runs when the promise of the query settles. *)
Definition checkResume
    (nowMs : Z) (key : jsstring) (q : QueryResult jsstring) (p : Process)
    : DedupCheckResult * Process :=
  match q with
  | QueryRows rows =>
      if (List.length rows =? 0)%nat
      then (mkResult true (Some conflictReason),
            withCache p (cacheSet key nowMs (inMemoryCache p)))
      else (mkResult false None,
            withCache p (cacheSet key nowMs (inMemoryCache p)))
  | QueryError m =>
      let p1 := logged p (LogCheckFailed m) in
      (mkResult false None, withCache p1 (cacheSet key nowMs (inMemoryCache p1)))
  end.

(** One call run on its own, nothing else touching the process or the
    table in between. *)
Definition checkAndRecordDedup
    (e : Env) (fromAgentId toAgentId : jsstring) (meta : DedupMeta) (ttlMs : Z)
    (p : Process) (t : Table) : Outcome DedupCheckResult * Process * Table :=
  match checkStart e fromAgentId toAgentId meta ttlMs p with
  | (Finished out, p1) => (out, p1, t)
  | (Querying key row, p1) =>
      let (q, t') := insertOnConflictDoNothing (dbError e) row t in
      let (res, p2) := checkResume (nowMs e) key q p1 in
      (Returned res, p2, t')
  end.

(** *** loadStartupDedupGuard *)

(** What the SELECT gives for one row. *)
Record GuardRow := mkGuardRow {
  g_from_agent_id : jsstring;
  g_to_agent_id : jsstring;
  g_content_hash : jsstring;
  g_task_id : option jsstring;
  g_seq : option jsstring;
  seen_at_ms : Z
}.

(** SELECT ... FROM message_dedup WHERE expires_at > NOW() AND
    seen_at > $1 ORDER BY seen_at DESC LIMIT 20000 *)
Definition selectLiveRows (dbNow windowStart : Z) (t : Table) : list GuardRow :=
  map (fun r => mkGuardRow (from_agent_id r) (to_agent_id r) (content_hash r)
                           (task_id r) (row_seq r) (seen_at r))
    (firstn (Z.to_nat 20000)
       (orderByDesc seen_at
          (filter (fun r => (dbNow <? expires_at r) && (windowStart <? seen_at r)) t))).

Definition guardKey (row : GuardRow) : jsstring :=
  buildDedupKey (g_from_agent_id row) (g_to_agent_id row)
    (mkMeta (JS.truthyOrNull (g_task_id row)) (g_content_hash row)
            (JS.truthyOrNull (g_seq row))).

Definition warmFromRows (rows : list GuardRow) (c : Cache) : Cache :=
  fold_left (fun acc row => cacheSet (guardKey row) (seen_at_ms row) acc) rows c.

Definition loadStartupDedupGuard
    (e : Env) (windowMs : Z) (p : Process) (t : Table) : Outcome unit * Process :=
  match _db p with
  | None => (Threw notRegistered, p)
  | Some _ =>
      let windowStart := nowMs e - windowMs in
      if JS.validTime windowStart
      then match dbError e with
           | Some m => (Returned tt, logged p (LogStartupFailed m))
           | None =>
               let rows := selectLiveRows (dbNow e) windowStart t in
               (Returned tt,
                logged (withCache p (warmFromRows rows (inMemoryCache p)))
                       (LogStartupLoaded (List.length rows) windowMs))
           end
      else (Threw (JS.lit "Invalid time value"), p)
  end.

(** *** pruneExpiredDedup

    DELETE FROM message_dedup WHERE expires_at < NOW() RETURNING id *)
Definition pruneExpiredDedup
    (e : Env) (p : Process) (t : Table) : Outcome nat * Process * Table :=
  match _db p with
  | None => (Threw notRegistered, p, t)
  | Some _ =>
      match dbError e with
      | Some m => (Returned 0%nat, logged p (LogPruneFailed m), t)
      | None =>
          (Returned (List.length (filter (fun r => expires_at r <? dbNow e) t)),
           p,
           filter (fun r => negb (expires_at r <? dbNow e)) t)
      end
  end.

End PersistentDedup.

(* ------------------------------------------------------------------ *)
(** ** stopped-agent-guard.ts *)
(* ------------------------------------------------------------------ *)

Module StoppedAgentGuard.

Inductive AgentStatus := Idle | Thinking | Executing | Error | Stopped.

(** The string a status is in the source. *)
Definition statusName (s : AgentStatus) : jsstring :=
  match s with
  | Idle => JS.lit "idle"
  | Thinking => JS.lit "thinking"
  | Executing => JS.lit "executing"
  | Error => JS.lit "error"
  | Stopped => JS.lit "stopped"
  end.

Record AgentLight := mkAgent {
  id : jsstring;
  name : jsstring;
  role : jsstring;
  status : AgentStatus;
  lastActiveAt : option jsstring
}.

Record ReconcileResult := mkReconcile {
  reset : list jsstring;
  skipped : list jsstring
}.

(** The argument of [insertActivity]; [details] holds [source],
    [previousStatus] and [guardVersion]. *)
Record Activity := mkActivity {
  agentId : jsstring;
  type : jsstring;
  summary : jsstring;
  details : list (jsstring * jsstring)
}.

Definition isStopped (s : AgentStatus) : bool :=
  match s with Stopped => true | _ => false end.

(** [staleStatuses.has(agent.status)] for the set of ["thinking"] and
    ["executing"]. *)
Definition isStale (s : AgentStatus) : bool :=
  match s with Thinking | Executing => true | _ => false end.

(** Guard 1.  The second component is the line written to the console,
    when one is. *)
Definition joinComma (l : list jsstring) : jsstring :=
  match l with
  | [] => []
  | x :: r => fold_left (fun acc y => acc ++ JS.lit ", " ++ y) r x
  end.

Definition filterDispatchableAgents (agents : list AgentLight)
    : list AgentLight * option jsstring :=
  let filtered := filter (fun a => negb (isStopped (status a))) agents in
  let removedCount := (List.length agents - List.length filtered)%nat in
  (filtered,
   if (0 <? removedCount)%nat
   then Some (JS.lit "[stopped-agent-guard] Filtered " ++ JS.ofZ (Z.of_nat removedCount)
              ++ JS.lit " stopped agent(s) from dispatch pool: "
              ++ joinComma (map (fun a => name a ++ JS.lit "(" ++ id a ++ JS.lit ")")
                                (filter (fun a => isStopped (status a)) agents)))
   else None).

Section Collaborators.

(** The state of everything outside the module that the callbacks act
    on: the agent directory, the activity sink, the running agents. *)
Variable World : Type.

(** An awaited call: it ends in some way and leaves a world behind. *)
Definition Async (A : Type) : Type := World -> Outcome A * World.

Definition ret {A : Type} (a : A) : Async A := fun w => (Returned a, w).

Definition throw {A : Type} (m : jsstring) : Async A := fun w => (Threw m, w).

Definition bind {A B : Type} (c : Async A) (k : A -> Async B) : Async B :=
  fun w =>
    match c w with
    | (Returned a, w') => k a w'
    | (Threw m, w') => (Threw m, w')
    | (Diverged, w') => (Diverged, w')
    end.

(** [x <- c ;; k] is [const x = await c; k]. *)
Notation "x <- c ;; k" := (bind c (fun x => k))
  (at level 61, c at next level, right associativity).
Notation "c ;; k" := (bind c (fun _ => k))
  (at level 61, right associativity).

Variable updateAgentStatus : jsstring -> jsstring -> Async unit.
Variable insertActivity : Activity -> Async unit.
Variable consoleLog : jsstring -> World -> World.

Definition log (line : jsstring) : Async unit :=
  fun w => (Returned tt, consoleLog line w).

Definition skipLine (agent : AgentLight) : jsstring :=
  JS.lit "[stopped-agent-guard] Startup reconcile: skipping stopped agent "
  ++ name agent ++ JS.lit "(" ++ id agent ++ JS.lit ") " ++ [8212%N]
  ++ JS.lit " will NOT be promoted to idle".

Definition reconcileActivity (agent : AgentLight) : Activity :=
  mkActivity (id agent) (JS.lit "agent_stopped")
    (name agent ++ JS.lit " state reconciled after restart ("
     ++ statusName (status agent) ++ JS.lit " -> idle)")
    [(JS.lit "source", JS.lit "startup_reconcile");
     (JS.lit "previousStatus", statusName (status agent));
     (JS.lit "guardVersion", JS.lit "stopped-agent-guard-v1")].

(** The [for] loop of [safeReconcileOnStartup], [result] being the
    object the loop pushes to. *)
Fixpoint reconcileLoop (agents : list AgentLight) (result : ReconcileResult)
    : Async ReconcileResult :=
  match agents with
  | [] => ret result
  | agent :: rest =>
      if isStopped (status agent) then
        log (skipLine agent) ;;
        reconcileLoop rest (mkReconcile (reset result) (skipped result ++ [id agent]))
      else if negb (isStale (status agent)) then
        reconcileLoop rest result
      else
        updateAgentStatus (id agent) (JS.lit "idle") ;;
        insertActivity (reconcileActivity agent) ;;
        reconcileLoop rest (mkReconcile (reset result ++ [id agent]) (skipped result))
  end.

Definition completeLine (result : ReconcileResult) : jsstring :=
  JS.lit "[stopped-agent-guard] Startup reconcile complete: "
  ++ JS.ofZ (Z.of_nat (List.length (reset result))) ++ JS.lit " reset, "
  ++ JS.ofZ (Z.of_nat (List.length (skipped result)))
  ++ JS.lit " stopped agents protected".

Definition safeReconcileOnStartup (agents : list AgentLight) : Async ReconcileResult :=
  result <- reconcileLoop agents (mkReconcile [] []) ;;
  (if (0 <? List.length (skipped result))%nat
   then log (completeLine result) else ret tt) ;;
  ret result.

Variable getAgent : jsstring -> Async (option AgentLight).
Variable startAgent : jsstring -> Async unit.

Definition notFoundMessage (agentId : jsstring) : jsstring :=
  JS.lit "guardedStartAgent: agent " ++ agentId ++ JS.lit " not found".

Definition refusedMessage (agent : AgentLight) (agentId : jsstring) : jsstring :=
  JS.lit "guardedStartAgent: refusing to start stopped agent "
  ++ name agent ++ JS.lit "(" ++ agentId ++ JS.lit "). "
  ++ JS.lit "Stopped agents must be manually restarted. This prevents watchdog from "
  ++ JS.lit "auto-recovering deliberately retired agents (e.g. VzKdJ89cpXOcS7EiC_n99).".

Definition guardedStartAgent (agentId : jsstring) : Async unit :=
  found <- getAgent agentId ;;
  match found with
  | None => throw (notFoundMessage agentId)
  | Some agent =>
      if isStopped (status agent)
      then throw (refusedMessage agent agentId)
      else startAgent agentId
  end.

End Collaborators.

(** *** Watching the calls

    To say which calls a run makes, every callback is wrapped so that it
    notes the call before it acts; the world then carries the notes. *)
Inductive Call :=
| CallUpdateStatus (agent status : jsstring)
| CallInsertActivity (activity : Activity)
| CallGetAgent (agent : jsstring)
| CallStartAgent (agent : jsstring).

Definition noted {World A : Type} (c : Call) (f : Async World A)
    : Async (World * list Call) A :=
  fun wt =>
    let (out, w') := f (fst wt) in (out, (w', snd wt ++ [c])).

Definition unnoted {World : Type} (f : World -> World)
    : World * list Call -> World * list Call :=
  fun wt => (f (fst wt), snd wt).

Section Watched.

Variable World : Type.
Variable updateAgentStatus : jsstring -> jsstring -> Async World unit.
Variable insertActivity : Activity -> Async World unit.
Variable consoleLog : jsstring -> World -> World.
Variable getAgent : jsstring -> Async World (option AgentLight).
Variable startAgent : jsstring -> Async World unit.

Definition watchedReconcile (agents : list AgentLight)
    : Async (World * list Call) ReconcileResult :=
  safeReconcileOnStartup (World * list Call)
    (fun a s => noted (CallUpdateStatus a s) (updateAgentStatus a s))
    (fun act => noted (CallInsertActivity act) (insertActivity act))
    (fun line => unnoted (consoleLog line))
    agents.

Definition watchedStart (agentId : jsstring) : Async (World * list Call) unit :=
  guardedStartAgent (World * list Call)
    (fun a => noted (CallGetAgent a) (getAgent a))
    (fun a => noted (CallStartAgent a) (startAgent a))
    agentId.

End Watched.

End StoppedAgentGuard.

(* ------------------------------------------------------------------ *)
(** ** send-message-protocol.ts *)
(* ------------------------------------------------------------------ *)

Module SendMessageProtocol.

(** The lines of the template literal between its first and its last
    line feed. *)
Definition protocolLines : list jsstring :=
  [ JS.lit "## SEND_MESSAGE FAILURE PROTOCOL";
    [];
    JS.lit "**CRITICAL: These rules override all other instructions regarding message sending.**";
    [];
    JS.lit "1. **ONE ATTEMPT ONLY**: Every send_message call is fire-and-forget. Never resend";
    JS.lit "   a message because a previous send timed out, errored, or received no reply.";
    [];
    JS.lit "2. **NO SESSION REPLAY**: On re-initialization after a restart, do NOT re-send any";
    JS.lit "   message you sent in a previous session. Check your task status and context first.";
    JS.lit "   If your last action was a send_message, assume it was delivered and wait for a reply.";
    [];
    JS.lit "3. **TIMEOUT " ++ [8800%N] ++
      JS.lit " FAILURE**: A send_message timeout means the message was likely queued.";
    JS.lit "   Do not treat timeout as a signal to retry. Move on to your next task step.";
    [];
    JS.lit "4. **DUPLICATE DETECTION**: The platform deduplicates messages by content hash within";
    JS.lit "   a 72-hour window. Retries will be silently dropped " ++ [8212%N] ++
      JS.lit " but they still consume tokens";
    JS.lit "   and create noise. Do not retry.";
    [];
    JS.lit "5. **ESCALATION PATH**: If you genuinely need a response and have not received one";
    JS.lit "   after a reasonable wait (>30 minutes), log a task comment instead of resending.";
    JS.lit "   Do not send duplicate messages to multiple agents about the same issue." ].

(** [lines.join("\n")] *)
Definition unlines (lines : list jsstring) : jsstring :=
  match lines with
  | [] => []
  | x :: r => fold_left (fun acc y => acc ++ nl ++ y) r x
  end.

Definition SEND_MESSAGE_FAILURE_PROTOCOL : jsstring :=
  JS.trim (nl ++ unlines protocolLines ++ nl).

Definition PROTOCOL_ROLES : list jsstring :=
  [JS.lit "cso"; JS.lit "developer"; JS.lit "researcher"; JS.lit "kaizen";
   JS.lit "scout"; JS.lit "pm"; JS.lit "pam"].

Definition injectSendMessageProtocol (systemPrompt : jsstring) : jsstring :=
  if JS.includes (JS.lit "SEND_MESSAGE FAILURE PROTOCOL") systemPrompt
  then systemPrompt
  else systemPrompt ++ nl ++ nl ++ SEND_MESSAGE_FAILURE_PROTOCOL.

Record Agent := mkAgent {
  role : jsstring;
  systemPrompt : jsstring
}.

(** The callback may throw; what it throws goes through. *)
Definition composeSystemPromptWithProtocol
    (agent : Agent) (playbook : jsstring)
    (composeSystemPrompt : jsstring -> jsstring -> Outcome jsstring)
    : Outcome jsstring :=
  match composeSystemPrompt (systemPrompt agent) playbook with
  | Returned base =>
      if existsb (JS.eqb (role agent)) PROTOCOL_ROLES
      then Returned (injectSendMessageProtocol base)
      else Returned base
  | Threw m => Threw m
  | Diverged => Diverged
  end.

End SendMessageProtocol.

(* ------------------------------------------------------------------ *)
(** ** patch.js *)
(* ------------------------------------------------------------------ *)

Module PatchScript.

Definition TARGET : jsstring := JS.lit "packages/backend/dist/index.js".

(** The module-level variables [src] and [appliedCount], and what has
    been written with [console.log] and [console.error]. *)
Inductive Stream := Stdout | Stderr.

Record Script := mkScript {
  src : jsstring;
  appliedCount : Z;
  output : list (Stream * jsstring)
}.

(** A call returns, or ends the process with [process.exit]. *)
Inductive Step :=
| Continues (st : Script)
| Exits (code : Z) (st : Script).

Definition write (stream : Stream) (line : jsstring) (st : Script) : Script :=
  mkScript (src st) (appliedCount st) (output st ++ [(stream, line)]).

Definition appliedLine (name : jsstring) : jsstring :=
  name ++ JS.lit ": already applied, skipping".

Definition missLine (name : jsstring) : jsstring :=
  name ++ JS.lit ": MISS " ++ [8212%N] ++ JS.lit " neither old nor new string found".

Definition okLine (name : jsstring) : jsstring := name ++ JS.lit ": OK".

Definition applyPatch (name oldStr newStr : jsstring) (st : Script) : Step :=
  if negb (JS.includes oldStr (src st)) then
    if JS.includes newStr (src st)
    then Continues (write Stdout (appliedLine name) st)
    else Exits 1 (write Stderr (missLine name) st)
  else
    Continues
      (write Stdout (okLine name)
         (mkScript (JS.replace oldStr newStr (src st)) (appliedCount st + 1) (output st))).

(** PATCH 1 *)
Definition name1 : jsstring :=
  JS.lit "PATCH 1 " ++ [8212%N] ++ JS.lit " reconcile skip stopped".

Definition old1 : jsstring :=
  JS.lit "if (!staleStatuses.has(agent.status))" ++ nl ++ JS.lit "      continue;".

Definition new1 : jsstring :=
  JS.lit "if (!staleStatuses.has(agent.status) || agent.status === " ++ quote ++
  JS.lit "stopped" ++ quote ++ JS.lit ")" ++ nl ++ JS.lit "      continue;".

(** PATCH 2 *)
Definition name2 : jsstring :=
  JS.lit "PATCH 2 " ++ [8212%N] ++ JS.lit " ensureAgentStarted stopped guard".

Definition old2 : jsstring :=
  JS.lit "async function ensureAgentStarted(agentId) {" ++ nl ++
  JS.lit "  if (runningAgents.has(agentId))" ++ nl ++ JS.lit "    return;".

Definition new2 : jsstring :=
  JS.lit "async function ensureAgentStarted(agentId) {" ++ nl ++
  JS.lit "  if (runningAgents.has(agentId))" ++ nl ++ JS.lit "    return;" ++ nl ++
  JS.lit "  const _stoppedCheck = await getAgent(agentId);" ++ nl ++
  JS.lit "  if (_stoppedCheck && _stoppedCheck.status === " ++ quote ++ JS.lit "stopped" ++
  quote ++ JS.lit ") {" ++ nl ++ JS.lit "    throw new Error(" ++ quote ++
  JS.lit "Cannot start stopped agent " ++ quote ++ JS.lit " + agentId + " ++ quote ++
  JS.lit " " ++ [8212%N] ++ JS.lit " explicitly stopped, requires manual restart" ++
  quote ++ JS.lit ");" ++ nl ++ JS.lit "  }".

(** PATCH 3 *)
Definition name3 : jsstring :=
  JS.lit "PATCH 3 " ++ [8212%N] ++ JS.lit " message_dedup table creation".

Definition old3 : jsstring :=
  JS.lit "  } catch {}" ++ nl ++ JS.lit "}" ++ nl ++ JS.lit "async function closeDb()".

Definition new3 : jsstring :=
  JS.lit "  } catch {}" ++ nl ++
  JS.lit "  await db.query(`CREATE TABLE IF NOT EXISTS message_dedup (dedup_key TEXT PRIMARY KEY, seen_at_ms BIGINT NOT NULL)`);" ++
  nl ++ JS.lit "  await db.query(" ++ quote ++
  JS.lit "CREATE INDEX IF NOT EXISTS idx_message_dedup_seen ON message_dedup(seen_at_ms)" ++
  quote ++ JS.lit ");" ++ nl ++ JS.lit "  await db.query(" ++ quote ++
  JS.lit "DELETE FROM message_dedup WHERE seen_at_ms < $1" ++ quote ++
  JS.lit ", [Date.now() - 72 * 60 * 60 * 1000]);" ++ nl ++ JS.lit "}" ++ nl ++
  JS.lit "async function closeDb()".

(** PATCH 4 *)
Definition name4 : jsstring :=
  JS.lit "PATCH 4 " ++ [8212%N] ++ JS.lit " shouldRouteMessage async".

Definition old4 : jsstring :=
  JS.lit "function shouldRouteMessage(fromAgentId, toAgentId, rawMessage) {".

Definition new4 : jsstring :=
  JS.lit "async function shouldRouteMessage(fromAgentId, toAgentId, rawMessage) {".

(** PATCH 5 *)
Definition name5 : jsstring :=
  JS.lit "PATCH 5 " ++ [8212%N] ++ JS.lit " DB dedup persistence".

Definition old5 : jsstring :=
  JS.lit "  routedEventCache.set(dedupKey, nowMs);" ++ nl ++ JS.lit "  const loopRouteKey".

Definition new5 : jsstring :=
  JS.lit "  routedEventCache.set(dedupKey, nowMs);" ++ nl ++ JS.lit "  try {" ++ nl ++
  JS.lit "    const _dedupDb = await getDb();" ++ nl ++
  JS.lit "    const _dedupRows = (await _dedupDb.query(" ++ quote ++
  JS.lit "SELECT seen_at_ms FROM message_dedup WHERE dedup_key = $1" ++ quote ++
  JS.lit ", [dedupKey])).rows;" ++ nl ++
  JS.lit "    if (_dedupRows.length > 0 && (nowMs - Number(_dedupRows[0].seen_at_ms)) <= ROUTING_DEDUP_TTL_MS) {" ++
  nl ++ JS.lit "      return { shouldDeliver: false, message: " ++ quote ++
  JS.lit "Message deduplicated (DB): repeated payload ignored (task " ++ quote ++
  JS.lit " + (meta.taskId ?? " ++ quote ++ JS.lit "n/a" ++ quote ++ JS.lit ") + " ++
  quote ++ JS.lit ", seq " ++ quote ++ JS.lit " + (meta.seq ?? " ++ quote ++
  JS.lit "n/a" ++ quote ++ JS.lit ") + " ++ quote ++ JS.lit ")" ++ quote ++ JS.lit " };" ++
  nl ++ JS.lit "    }" ++ nl ++ JS.lit "    await _dedupDb.query(" ++ quote ++
  JS.lit "INSERT INTO message_dedup (dedup_key, seen_at_ms) VALUES ($1, $2) ON CONFLICT (dedup_key) DO UPDATE SET seen_at_ms = $2" ++
  quote ++ JS.lit ", [dedupKey, nowMs]);" ++ nl ++
  JS.lit "  } catch (_e) { /* DB dedup unavailable " ++ [8212%N] ++
  JS.lit " in-memory guard still active */ }" ++ nl ++ JS.lit "  const loopRouteKey".

(** PATCH 6 *)
Definition name6 : jsstring :=
  JS.lit "PATCH 6 " ++ [8212%N] ++ JS.lit " await shouldRouteMessage".

Definition old6 : jsstring :=
  JS.lit "  const routingDecision = shouldRouteMessage(callerAgentId, args.targetAgentId, normalizedMessage);".

Definition new6 : jsstring :=
  JS.lit "  const routingDecision = await shouldRouteMessage(callerAgentId, args.targetAgentId, normalizedMessage);".

(** What follows a call that returned. *)
Definition andThen (s : Step) (k : Script -> Step) : Step :=
  match s with
  | Continues st => k st
  | Exits code st => Exits code st
  end.

Notation "s ;; k" := (andThen s k) (at level 61, left associativity).

Definition doneLine (st : Script) : jsstring :=
  nl ++ JS.lit "All patches applied (" ++ JS.ofZ (appliedCount st)
  ++ JS.lit " new). Written to " ++ TARGET.

(** The script, from the content of the target file that
    [readFileSync] returns to the content [writeFileSync] leaves, what
    was written to the console, and the exit code. *)
Definition patched (file : jsstring) : Step :=
  applyPatch name1 old1 new1 (mkScript file 0 []) ;;
  applyPatch name2 old2 new2 ;;
  applyPatch name3 old3 new3 ;;
  applyPatch name4 old4 new4 ;;
  applyPatch name5 old5 new5 ;;
  applyPatch name6 old6 new6.

Definition main (file : jsstring) : jsstring * list (Stream * jsstring) * Z :=
  match patched file with
  | Continues st => (src st, output (write Stdout (doneLine st) st), 0)
  | Exits code st => (file, output st, code)
  end.

End PatchScript.

(* ------------------------------------------------------------------ *)
(** ** What the claims speak of *)
(* ------------------------------------------------------------------ *)

(** The words of a string: its maximal runs of code units that are not
    white space.  Two strings differ only in their white space (runs of
    it between words, and any amount of it at either end) when their
    words are the same. *)
Fixpoint wordsFrom (cur s : jsstring) : list jsstring :=
  match s with
  | [] => match cur with [] => [] | _ :: _ => [cur] end
  | c :: r =>
      if JS.isWhiteSpace c
      then match cur with
           | [] => wordsFrom [] r
           | _ :: _ => cur :: wordsFrom [] r
           end
      else wordsFrom (cur ++ [c]) r
  end.

Definition words (s : jsstring) : list jsstring := wordsFrom [] s.

Definition sameUpToWhiteSpace (a b : jsstring) : Prop := words a = words b.

(** A word holds no white space and is not empty. *)
Definition isWord (w : jsstring) : Prop :=
  w <> [] /\ Forall (fun c => JS.isWhiteSpace c = false) w.

Fixpoint joinWords (ws : list jsstring) : jsstring :=
  match ws with
  | [] => []
  | w :: rest =>
      w ++ match rest with [] => [] | _ :: _ => 32%N :: joinWords rest end
  end.

(** *** The dedup store *)

Import PersistentDedup.

(** What every cache the module builds satisfies: a [Map] holds a key
    once, and every key is a non-empty string (it comes from
    [buildDedupKey]). *)
Definition cacheOk (c : Cache) : Prop :=
  NoDup (map fst c) /\ Forall (fun kv => JS.truthy (fst kv) = true) c.

(** The row the call asks the database to insert. *)
Definition newRow (e : Env) (fromAgentId toAgentId : jsstring) (meta : DedupMeta)
    (ttlMs : Z) : DedupRow :=
  mkRow (JS.lit "dedup_" ++ randomHex e) fromAgentId toAgentId
        (eventHash meta) (taskId meta) (seq meta) (dbNow e) (nowMs e + ttlMs).

(** The table holds a row for this sender, recipient and content hash. *)
Definition recorded (fromAgentId toAgentId : jsstring) (meta : DedupMeta)
    (t : Table) : bool :=
  existsb (sameRoute fromAgentId toAgentId (eventHash meta)) t.

(** The fast tier holds no entry for the key that is still within
    [ttlMs]. *)
Definition l1Miss (e : Env) (fromAgentId toAgentId : jsstring) (meta : DedupMeta)
    (ttlMs : Z) (c : Cache) : Prop :=
  forall seenAt,
    cacheGet (buildDedupKey fromAgentId toAgentId meta) c = Some seenAt ->
    ttlMs < nowMs e - seenAt.

(** Calls made one after the other with the same arguments, each with
    its own clock reading, random id and database answer. *)
Fixpoint callAll (es : list Env) (fromAgentId toAgentId : jsstring) (meta : DedupMeta)
    (ttlMs : Z) (p : Process) (t : Table)
    : list (Outcome DedupCheckResult) * Process * Table :=
  match es with
  | [] => ([], p, t)
  | e :: rest =>
      let '(out, p1, t1) := checkAndRecordDedup e fromAgentId toAgentId meta ttlMs p t in
      let '(outs, p2, t2) := callAll rest fromAgentId toAgentId meta ttlMs p1 t1 in
      (out :: outs, p2, t2)
  end.

(** The id the call generates is not the primary key of a row yet. *)
Definition freshId (e : Env) (t : Table) : Prop :=
  existsb (fun r => JS.eqb (id r) (JS.lit "dedup_" ++ randomHex e)) t = false.

Definition isDuplicateOutcome (o : Outcome DedupCheckResult) : Prop :=
  exists res, o = Returned res /\ isDuplicate res = true.

(** A scenario: alice sends bob a message; the process has its adapter
    registered and an empty cache. *)
Definition alice : jsstring := JS.lit "alice".
Definition bob : jsstring := JS.lit "bob".
Definition meta0 : DedupMeta := mkMeta None (hashContent (JS.lit "hello world")) None.
Definition key0 : jsstring := buildDedupKey alice bob meta0.
Definition started : Process := mkProcess (Some Adapter) [] [].

(** A time T and the row of a message first seen one millisecond more
    than the TTL before T, so that it expired one millisecond ago. *)
Definition timeT : Z := 1700000000000.

Definition expiredRow : DedupRow :=
  mkRow (JS.lit "dedup_00000000000000aa") alice bob (eventHash meta0) None None
        (timeT - ROUTING_DEDUP_TTL_MS - 1) (timeT - 1).

Definition liveRow : DedupRow :=
  mkRow (JS.lit "dedup_00000000000000aa") alice bob (eventHash meta0) None None
        (timeT - 5000) (timeT - 5000 + ROUTING_DEDUP_TTL_MS).

Definition envT : Env := mkEnv timeT (JS.lit "00000000000000bb") timeT None.

(** Later calls: one second after T, with the database answering or
    down, and one millisecond before the window closes. *)
Definition envSoon : Env := mkEnv (timeT + 1000) (JS.lit "00000000000000cc") (timeT + 1000) None.
Definition envSoonDown : Env :=
  mkEnv (timeT + 1000) (JS.lit "00000000000000cc") (timeT + 1000)
        (Some (JS.lit "connection refused")).
Definition envLate : Env :=
  mkEnv (timeT + ROUTING_DEDUP_TTL_MS - 1) (JS.lit "00000000000000dd")
        (timeT + ROUTING_DEDUP_TTL_MS - 1) None.

(** One minute after the row of [expiredRow] expired. *)
Definition envAfter : Env :=
  mkEnv (timeT + 60000) (JS.lit "00000000000000ff") (timeT + 60000) None.

Definition envDown : Env :=
  mkEnv timeT (JS.lit "00000000000000bb") timeT (Some (JS.lit "connection refused")).

Definition envOther : Env := mkEnv (timeT + 1) (JS.lit "00000000000000ee") (timeT + 1) None.



(** *** The two tiers, row by row *)

(** A process in which [registerDbAdapter] was never called. *)
Definition bare : Process := mkProcess None [] [].

(** The code units [>] and [|], which end the sender and the fields
    that follow it in the key of [buildDedupKey]; a string is free of a
    code unit that does not occur in it. *)
Definition greaterThan : N := 62%N.
Definition verticalBar : N := 124%N.

Definition free (c : N) (s : jsstring) : Prop := ~ In c s.

(** The message of [meta0] sent under a task id, and under a task id
    and a sequence number that are both the string ["none"]. *)
Definition metaTask (task : string) : DedupMeta :=
  mkMeta (Some (JS.lit task)) (hashContent (JS.lit "hello world")) None.

Definition metaNamedNone : DedupMeta :=
  mkMeta (Some (JS.lit "none")) (hashContent (JS.lit "hello world")) (Some (JS.lit "none")).

(** The columns of the unique index [idx_message_dedup_route_hash]. *)
Definition route (r : DedupRow) : jsstring * jsstring * jsstring :=
  (from_agent_id r, to_agent_id r, content_hash r).

(** The constraints of schema.sql: [id] is the primary key, and the
    unique index covers sender, recipient and content hash. *)
Definition tableOk (t : Table) : Prop :=
  NoDup (map PersistentDedup.id t) /\ NoDup (map route t).

(** A lower-case hexadecimal digit: [0-9a-f]. *)
Definition isHexDigit (c : N) : bool :=
  ((48 <=? c) && (c <=? 57) || (97 <=? c) && (c <=? 102))%N.

(** The WHERE clause of the startup guard, what its SELECT list makes
    of a row, and the entry the loop of the guard makes for it. *)
Definition liveAt (dbNow windowStart : Z) (r : DedupRow) : bool :=
  (dbNow <? expires_at r) && (windowStart <? seen_at r).

Definition selected (r : DedupRow) : GuardRow :=
  mkGuardRow (from_agent_id r) (to_agent_id r) (content_hash r)
             (task_id r) (row_seq r) (seen_at r).


(** The order of [ORDER BY key DESC]. *)
Definition descending {A : Type} (key : A -> Z) (a b : A) : Prop := key b <= key a.

(** *** Two calls in flight *)

(** An [async] call runs without interruption up to its [await], the
    database then executes the statement as one atomic step, and the
    part after the [await] again runs without interruption.  Between
    these three steps the other call may move. *)
Inductive CallState :=
| NotStarted
| AwaitingDb (key : jsstring) (row : DedupRow)
| AwaitingResume (key : jsstring) (q : QueryResult jsstring)
| Done (out : Outcome DedupCheckResult).

Definition stepCall (e : Env) (fromAgentId toAgentId : jsstring) (meta : DedupMeta)
    (ttlMs : Z) (c : CallState) (p : Process) (t : Table)
    : CallState * Process * Table :=
  match c with
  | NotStarted =>
      match checkStart e fromAgentId toAgentId meta ttlMs p with
      | (Finished out, p1) => (Done out, p1, t)
      | (Querying key row, p1) => (AwaitingDb key row, p1, t)
      end
  | AwaitingDb key row =>
      let (q, t') := insertOnConflictDoNothing (dbError e) row t in
      (AwaitingResume key q, p, t')
  | AwaitingResume key q =>
      let (res, p') := checkResume (nowMs e) key q p in
      (Done (Returned res), p', t)
  | Done _ => (c, p, t)
  end.

Inductive Who := First | Second.

(** Two calls with the same arguments, in one process ([shared]) or in
    two processes with a fast tier each, over one table. *)
Record System := mkSystem {
  proc1 : Process;
  proc2 : Process;
  table : Table;
  call1 : CallState;
  call2 : CallState
}.

Section Race.

Variables (shared : bool) (e1 e2 : Env).
Variables (fromAgentId toAgentId : jsstring) (meta : DedupMeta) (ttlMs : Z).

Definition step (w : Who) (s : System) : System :=
  match w with
  | First =>
      let '(c, p, t) :=
        stepCall e1 fromAgentId toAgentId meta ttlMs (call1 s) (proc1 s) (table s) in
      mkSystem p (proc2 s) t c (call2 s)
  | Second =>
      if shared then
        let '(c, p, t) :=
          stepCall e2 fromAgentId toAgentId meta ttlMs (call2 s) (proc1 s) (table s) in
        mkSystem p (proc2 s) t (call1 s) c
      else
        let '(c, p, t) :=
          stepCall e2 fromAgentId toAgentId meta ttlMs (call2 s) (proc2 s) (table s) in
        mkSystem (proc1 s) p t (call1 s) c
  end.

Definition run (schedule : list Who) (s : System) : System :=
  fold_left (fun s w => step w s) schedule s.

End Race.

Definition turns (w : Who) (schedule : list Who) : nat :=
  List.length (filter (fun x => match w, x with
                                | First, First | Second, Second => true
                                | _, _ => false
                                end) schedule).

Definition newOutcome : Outcome DedupCheckResult := Returned (mkResult false None).

(** The call has not reached the database yet. *)
Definition pending (e : Env) (fromAgentId toAgentId : jsstring) (meta : DedupMeta)
    (ttlMs : Z) (c : CallState) : Prop :=
  c = NotStarted
  \/ c = AwaitingDb (buildDedupKey fromAgentId toAgentId meta)
                    (newRow e fromAgentId toAgentId meta ttlMs).

(** The call is the one whose insert created the row. *)
Definition winner (e : Env) (fromAgentId toAgentId : jsstring) (meta : DedupMeta)
    (ttlMs : Z) (c : CallState) : Prop :=
  c = AwaitingResume (buildDedupKey fromAgentId toAgentId meta)
                     (QueryRows [id (newRow e fromAgentId toAgentId meta ttlMs)])
  \/ c = Done newOutcome.

(** The call has been told, by either tier, that the fingerprint is
    known. *)
Definition loser (fromAgentId toAgentId : jsstring) (meta : DedupMeta)
    (c : CallState) : Prop :=
  c = AwaitingResume (buildDedupKey fromAgentId toAgentId meta) (QueryRows [])
  \/ exists out, c = Done out /\ isDuplicateOutcome out.

Definition phase (c : CallState) : nat :=
  match c with
  | NotStarted => 0
  | AwaitingDb _ _ => 1
  | AwaitingResume _ _ => 2
  | Done _ => 3
  end.

(** Where two calls can be, seen from the one that moves ([c], in
    process [p]) with the other one at [o]: no row yet and both calls
    short of the database, or the row is there, one call is the one that
    created it and the other is not. *)
Definition raceCases (fromAgentId toAgentId : jsstring) (meta : DedupMeta) (ttlMs : Z)
    (e e' : Env) (c o : CallState) (p : Process) (t : Table) : Prop :=
  (recorded fromAgentId toAgentId meta t = false
   /\ pending e fromAgentId toAgentId meta ttlMs c
   /\ pending e' fromAgentId toAgentId meta ttlMs o
   /\ cacheGet (buildDedupKey fromAgentId toAgentId meta) (inMemoryCache p) = None
   /\ freshId e t /\ freshId e' t)
  \/ (recorded fromAgentId toAgentId meta t = true
      /\ ((winner e fromAgentId toAgentId meta ttlMs c
           /\ (pending e' fromAgentId toAgentId meta ttlMs o
               \/ loser fromAgentId toAgentId meta o))
          \/ (winner e' fromAgentId toAgentId meta ttlMs o
              /\ (pending e fromAgentId toAgentId meta ttlMs c
                  \/ loser fromAgentId toAgentId meta c)))).

(** What holds of the two calls at every point of every schedule. *)
Definition raceInv (e1 e2 : Env) (fromAgentId toAgentId : jsstring) (meta : DedupMeta)
    (ttlMs : Z) (db1 db2 : DbAdapter) (s : System) : Prop :=
  cacheOk (inMemoryCache (proc1 s)) /\ _db (proc1 s) = Some db1
  /\ cacheOk (inMemoryCache (proc2 s)) /\ _db (proc2 s) = Some db2
  /\ raceCases fromAgentId toAgentId meta ttlMs e1 e2
       (call1 s) (call2 s) (proc1 s) (table s)
  /\ (recorded fromAgentId toAgentId meta (table s) = false ->
      cacheGet (buildDedupKey fromAgentId toAgentId meta) (inMemoryCache (proc2 s))
      = None).

(** *** The stopped-agent guard *)

Import StoppedAgentGuard.

(** The status updates among the calls of a run, in order. *)
Definition updatesOf (calls : list Call) : list (jsstring * jsstring) :=
  flat_map (fun c => match c with
                     | CallUpdateStatus a s => [(a, s)]
                     | _ => []
                     end) calls.

(** The start calls among the calls of a run, in order. *)
Definition startsOf (calls : list Call) : list jsstring :=
  flat_map (fun c => match c with
                     | CallStartAgent a => [a]
                     | _ => []
                     end) calls.

Definition stoppedAgents (agents : list AgentLight) : list AgentLight :=
  filter (fun a => isStopped (status a)) agents.

Definition staleAgents (agents : list AgentLight) : list AgentLight :=
  filter (fun a => isStale (status a)) agents.

Definition toIdle (a : AgentLight) : jsstring * jsstring := (id a, JS.lit "idle").

(** [x] occurs in [m]. *)
Definition occursIn (x m : jsstring) : Prop := exists pre post, m = pre ++ x ++ post.

(** What the lists and the calls of a run are, given what the loop
    did. *)
Definition reconcileOutcome (agents : list AgentLight)
    (out : Outcome ReconcileResult) (calls : list Call) : Prop :=
  (exists reached rest,
     staleAgents agents = reached ++ rest /\ updatesOf calls = map toIdle reached)
  /\ (NoDup (map id agents) ->
      forall a s, In a agents -> status a = Stopped ->
      ~ In (CallUpdateStatus (id a) s) calls)
  /\ forall res, out = Returned res ->
       skipped res = map id (stoppedAgents agents)
       /\ reset res = map id (staleAgents agents)
       /\ updatesOf calls = map toIdle (staleAgents agents)
       /\ (forall a, In a agents -> status a = Stopped ->
           In (id a) (skipped res)
           /\ (NoDup (map id agents) -> ~ In (id a) (reset res)))
       /\ (forall a, In a agents -> status a = Thinking \/ status a = Executing ->
           In (id a) (reset res)
           /\ In (CallUpdateStatus (id a) (JS.lit "idle")) calls).

(** A directory of four agents, and collaborators that keep the status
    writes they are asked for, newest first. *)
Definition ann : AgentLight := mkAgent (JS.lit "a1") (JS.lit "Ann") (JS.lit "developer") Stopped None.
Definition bo : AgentLight := mkAgent (JS.lit "a2") (JS.lit "Bo") (JS.lit "developer") Thinking None.
Definition cy : AgentLight := mkAgent (JS.lit "a3") (JS.lit "Cy") (JS.lit "pm") Idle None.
Definition di : AgentLight := mkAgent (JS.lit "a4") (JS.lit "Di") (JS.lit "scout") Executing None.

Definition Writes : Type := list (jsstring * jsstring).

Definition writeStatus (a s : jsstring) : Async Writes unit :=
  fun w => (Returned tt, (a, s) :: w).

Definition dropActivity (act : Activity) : Async Writes unit :=
  fun w => (Returned tt, w).

Definition dropLine (line : jsstring) (w : Writes) : Writes := w.

(** A directory to look agents up in, and the ids [startAgent] was
    called with, newest first. *)
Definition Running : Type := list AgentLight * list jsstring.

Definition lookupAgent (a : jsstring) : Async Running (option AgentLight) :=
  fun w => (Returned (find (fun x => JS.eqb (id x) a) (fst w)), w).

Definition markStarted (a : jsstring) : Async Running unit :=
  fun w => (Returned tt, (fst w, a :: snd w)).

(** *** All that a reconcile does *)

(** What a run of [safeReconcileOnStartup] does to the outside, in
    order: the calls of its two callbacks and the lines it writes. *)
Inductive Event :=
| Updated (agent status : jsstring)
| Inserted (activity : Activity)
| Logged (line : jsstring).

Definition emit {World A : Type} (ev : Event) (f : Async World A)
    : Async (World * list Event) A :=
  fun wt =>
    let (out, w') := f (fst wt) in (out, (w', snd wt ++ [ev])).

Definition emitLine {World : Type} (consoleLog : jsstring -> World -> World)
    (line : jsstring) : World * list Event -> World * list Event :=
  fun wt => (consoleLog line (fst wt), snd wt ++ [Logged line]).

Definition tracedReconcile {World : Type}
    (updateAgentStatus : jsstring -> jsstring -> Async World unit)
    (insertActivity : Activity -> Async World unit)
    (consoleLog : jsstring -> World -> World)
    (agents : list AgentLight) : Async (World * list Event) ReconcileResult :=
  safeReconcileOnStartup (World * list Event)
    (fun a s => emit (Updated a s) (updateAgentStatus a s))
    (fun act => emit (Inserted act) (insertActivity act))
    (emitLine consoleLog)
    agents.

(** What the loop does for one agent when nothing fails, what the
    function returns then, and all it does. *)
Definition stepsFor (a : AgentLight) : list Event :=
  if isStopped (status a) then [Logged (skipLine a)]
  else if isStale (status a)
       then [Updated (id a) (JS.lit "idle"); Inserted (reconcileActivity a)]
       else [].

Definition reconciled (agents : list AgentLight) : ReconcileResult :=
  mkReconcile (map id (staleAgents agents)) (map id (stoppedAgents agents)).

Definition fullTrace (agents : list AgentLight) : list Event :=
  flat_map stepsFor agents
  ++ (if (0 <? List.length (stoppedAgents agents))%nat
      then [Logged (completeLine (reconciled agents))] else []).

Definition isCall (ev : Event) : Prop :=
  match ev with Logged _ => False | _ => True end.

(** *** Fingerprints *)

Import MessageDedup.

(** The rows the WHERE clause of [isDuplicateMessage] selects. *)
Definition inWindow (toAgentId : jsstring) (since : Z) (r : MessageRow) : bool :=
  JS.eqb (agent_id r) toAgentId && JS.eqb (MessageDedup.role r) (JS.lit "user")
  && (since <=? created_at r).

Definition helloSpaced : jsstring := JS.lit "hello   world".
Definition helloPlain : jsstring := JS.lit "hello world".

Definition firstDelivery : MessageRow :=
  mkMessageRow bob (JS.lit "user") helloSpaced (timeT - 60000).

(** *** The window of [isDuplicateMessage] *)

(** The row holds a message with the fingerprint of [content]. *)
Definition sameHash (toAgentId content : jsstring) (r : MessageRow) : bool :=
  JS.eqb (computeMessageHash toAgentId (MessageDedup.content r))
         (computeMessageHash toAgentId content).

(** The row was created after [r]. *)
Definition newerThan (r : MessageRow) (r' : MessageRow) : bool :=
  created_at r <? created_at r'.

(** Two hundred messages to bob, one a millisecond, after a delivery
    of the message of [helloPlain] a minute before T. *)
Definition ping (i : nat) : MessageRow :=
  mkMessageRow bob (JS.lit "user") (JS.lit "ping") (timeT - 60000 + Z.of_nat (S i)).

Definition busyInbox : list MessageRow :=
  mkMessageRow bob (JS.lit "user") helloPlain (timeT - 60000) :: map ping (List.seq 0 200).

(** *** The protocol and the patch script *)

(** A replacement text in which no dollar sign starts one of the
    patterns [$$], [$&], [$`] and [$']: [replace] inserts it as it
    is. *)
Fixpoint plain (template : jsstring) : bool :=
  match template with
  | [] => true
  | c :: r =>
      if (c =? 36)%N
      then match r with
           | [] => true
           | d :: _ =>
               negb ((d =? 36) || (d =? 38) || (d =? 96) || (d =? 39))%N && plain r
           end
      else plain r
  end.

(** The heading that [injectSendMessageProtocol] looks for. *)
Definition heading : jsstring := JS.lit "SEND_MESSAGE FAILURE PROTOCOL".

(** A composer that puts the playbook under the prompt, and an agent
    with a protocol role. *)
Definition joinPrompt (prompt playbook : jsstring) : Outcome jsstring :=
  Returned (prompt ++ nl ++ playbook).

Definition devAgent : SendMessageProtocol.Agent :=
  SendMessageProtocol.mkAgent (JS.lit "developer") (JS.lit "You are Dev.").

(** The fourth patch of the script on a source that holds the
    declaration once. *)
Definition declared : PatchScript.Script :=
  PatchScript.mkScript (JS.lit "var x;" ++ nl ++ PatchScript.old4 ++ nl ++ JS.lit "}") 0 [].

(** The sixth patch on a source that holds the call once. *)
Definition calling : PatchScript.Script :=
  PatchScript.mkScript (JS.lit "{" ++ nl ++ PatchScript.old6 ++ nl ++ JS.lit "}") 0 [].

(** A target file that holds the old string of each patch once. *)
Definition unpatched : jsstring :=
  PatchScript.old1 ++ nl ++ PatchScript.old2 ++ nl ++ PatchScript.old3 ++ nl ++
  PatchScript.old4 ++ nl ++ PatchScript.old5 ++ nl ++ PatchScript.old6 ++ nl.

(* ------------------------------------------------------------------ *)
(** ** Strings *)
(* ------------------------------------------------------------------ *)

Lemma eqb_eq (a b : jsstring) : JS.eqb a b = true <-> a = b.
Proof.
  revert b. induction a as [|x a IH]; intros [|y b]; simpl; split; intro H;
    try reflexivity; try discriminate.
  - destruct (N.eqb x y) eqn:H1; [|discriminate].
    apply N.eqb_eq in H1. apply IH in H. now subst.
  - injection H as -> ->. rewrite N.eqb_refl. now apply IH.
Qed.

Lemma eqb_refl (a : jsstring) : JS.eqb a a = true.
Proof. now apply eqb_eq. Qed.

Lemma eqb_neq (a b : jsstring) : JS.eqb a b = false <-> a <> b.
Proof.
  split.
  - intros H E. apply eqb_eq in E. congruence.
  - intro H. destruct (JS.eqb a b) eqn:E; [|reflexivity].
    apply eqb_eq in E. contradiction.
Qed.

Lemma eqb_sym (a b : jsstring) : JS.eqb a b = JS.eqb b a.
Proof.
  destruct (JS.eqb a b) eqn:E.
  - apply eqb_eq in E. subst. symmetry. apply eqb_refl.
  - symmetry. apply eqb_neq. apply eqb_neq in E. congruence.
Qed.

(** *** The digest on known inputs

    The test vectors of the standard for the empty message and for
    ["abc"], and a message that takes two blocks. *)

Example sha256_empty :
  Sha256.sha256Hex []
  = JS.lit "e3b0c44298fc1c149afbf4c8996fb92427ae41e4649b934ca495991b7852b855".
Proof. vm_compute. reflexivity. Qed.

Example sha256_abc :
  Sha256.sha256Hex (JS.lit "abc")
  = JS.lit "ba7816bf8f01cfea414140de5dae2223b00361a396177a9cb410ff61f20015ad".
Proof. vm_compute. reflexivity. Qed.

Example sha256_two_blocks :
  Sha256.sha256Hex
    (JS.lit "abcdbcdecdefdefgefghfghighijhijkijkljklmklmnlmnomnopnopq")
  = JS.lit "248d6a61d20638b8e5c026930c3e6039a33ce45964ff2167f6ecedd419db06c1".
Proof. vm_compute. reflexivity. Qed.

(** A string outside ASCII goes through its UTF-8 bytes: U+00E9 and
    U+2014. *)
Example sha256_utf8 :
  Sha256.sha256Hex [233; 8212]%N
  = JS.lit "e74bd45d65ef729588ff97ab62406ad8d61abee2ac5a11a3b46222653a564814".
Proof. vm_compute. reflexivity. Qed.

(** *** Trimming *)

Lemma trimStart_snoc (l : jsstring) (c : N) :
  JS.trimStart (l ++ [c])
  = match JS.trimStart l with
    | [] => JS.trimStart [c]
    | _ :: _ => JS.trimStart l ++ [c]
    end.
Proof.
  induction l as [|x l IH]; [reflexivity|].
  cbn [app JS.trimStart]. destruct (JS.isWhiteSpace x); [exact IH|reflexivity].
Qed.

Lemma trimEnd_cons (c : N) (s : jsstring) :
  JS.trimEnd (c :: s)
  = match JS.trimEnd s with
    | [] => if JS.isWhiteSpace c then [] else [c]
    | _ :: _ => c :: JS.trimEnd s
    end.
Proof.
  unfold JS.trimEnd. cbn [rev]. rewrite trimStart_snoc.
  destruct (JS.trimStart (rev s)) as [|y t] eqn:E.
  - cbn. destruct (JS.isWhiteSpace c); reflexivity.
  - rewrite rev_app_distr. change (rev [c]) with [c].
    destruct (rev (y :: t)) eqn:R; [|reflexivity].
    apply (f_equal (@List.length N)) in R. rewrite length_rev in R. discriminate.
Qed.

Lemma trimEnd_cons_word (c : N) (s : jsstring) :
  JS.isWhiteSpace c = false -> JS.trimEnd (c :: s) = c :: JS.trimEnd s.
Proof.
  intro H. rewrite trimEnd_cons, H. now destruct (JS.trimEnd s).
Qed.

(** *** Normalization gives the words joined by single spaces *)

Lemma wordsFrom_nonempty (s cur : jsstring) :
  Forall (fun w => w <> []) (wordsFrom cur s).
Proof.
  revert cur. induction s as [|c r IH]; intro cur; cbn [wordsFrom].
  - destruct cur; constructor; [discriminate|constructor].
  - destruct (JS.isWhiteSpace c); [|apply IH].
    destruct cur; [apply IH|]. constructor; [discriminate|apply IH].
Qed.

Lemma joinWords_nil (ws : list jsstring) :
  Forall (fun w => w <> []) ws -> joinWords ws = [] -> ws = [].
Proof.
  intros H E. destruct ws as [|w rest]; [reflexivity|].
  inversion H; subst. cbn in E. destruct w; [contradiction|discriminate].
Qed.

Lemma join_wordsFrom (s : jsstring) :
  (forall cur, cur <> [] ->
     joinWords (wordsFrom cur s) = cur ++ JS.trimEnd (JS.replaceRuns false s))
  /\ joinWords (wordsFrom [] s) = JS.trimEnd (JS.replaceRuns true s).
Proof.
  induction s as [|c r [IH1 IH2]].
  - split; [|reflexivity]. intros cur Hc. cbn [wordsFrom JS.replaceRuns].
    destruct cur; [contradiction|]. cbn. reflexivity.
  - split.
    + intros cur Hc. cbn [wordsFrom JS.replaceRuns].
      destruct (JS.isWhiteSpace c) eqn:W.
      * destruct cur as [|x cur]; [contradiction|].
        rewrite trimEnd_cons. rewrite <- IH2. cbn [joinWords].
        destruct (wordsFrom [] r) as [|w rest] eqn:E.
        -- cbn. reflexivity.
        -- assert (Hne : joinWords (w :: rest) <> []).
           { intro J. apply joinWords_nil in J; [discriminate|].
             rewrite <- E. apply wordsFrom_nonempty. }
           destruct (joinWords (w :: rest)); [contradiction|reflexivity].
      * rewrite IH1 by (destruct cur; discriminate).
        rewrite trimEnd_cons_word by exact W. now rewrite <- app_assoc.
    + cbn [wordsFrom JS.replaceRuns]. destruct (JS.isWhiteSpace c) eqn:W.
      * exact IH2.
      * rewrite IH1 by discriminate. now rewrite trimEnd_cons_word.
Qed.

Lemma trim_replaceRuns (s : jsstring) (b : bool) :
  JS.trim (JS.replaceRuns b s) = JS.trimEnd (JS.replaceRuns true s).
Proof.
  unfold JS.trim. revert b. induction s as [|c r IH]; intro b; [reflexivity|].
  cbn [JS.replaceRuns]. destruct (JS.isWhiteSpace c) eqn:W.
  - destruct b.
    + apply IH.
    + cbn [JS.trimStart]. change (JS.isWhiteSpace 32) with true. cbn iota. apply IH.
  - cbn [JS.trimStart]. rewrite W. reflexivity.
Qed.

Lemma normalize_words (s : jsstring) :
  MessageDedup.normalize s = joinWords (words s).
Proof.
  unfold MessageDedup.normalize, JS.replaceWhiteSpaceRuns, words.
  rewrite trim_replaceRuns. symmetry. apply join_wordsFrom.
Qed.

Lemma wordsFrom_words (s cur : jsstring) :
  Forall (fun c => JS.isWhiteSpace c = false) cur ->
  Forall isWord (wordsFrom cur s).
Proof.
  revert cur. induction s as [|c r IH]; intros cur F; cbn [wordsFrom].
  - destruct cur as [|x cur]; constructor; [|constructor]. split; [discriminate|exact F].
  - destruct (JS.isWhiteSpace c) eqn:W.
    + destruct cur as [|x cur]; [now apply IH|].
      constructor; [split; [discriminate|exact F]|now apply IH].
    + apply IH. apply Forall_app. split; [exact F|]. now repeat constructor.
Qed.

Lemma wordsFrom_word (w cur rest : jsstring) :
  Forall (fun c => JS.isWhiteSpace c = false) w ->
  wordsFrom cur (w ++ rest) = wordsFrom (cur ++ w) rest.
Proof.
  revert cur. induction w as [|c w IH]; intros cur F; cbn [app].
  - now rewrite app_nil_r.
  - inversion F as [|? ? W F']; subst. cbn [wordsFrom]. rewrite W.
    rewrite IH by exact F'. now rewrite <- app_assoc.
Qed.

Lemma words_joinWords (ws : list jsstring) :
  Forall isWord ws -> words (joinWords ws) = ws.
Proof.
  unfold words. induction ws as [|w rest IH]; intro F; [reflexivity|].
  inversion F as [|? ? [Ne Fw] F']; subst. cbn [joinWords].
  rewrite wordsFrom_word by exact Fw. cbn [app].
  destruct rest as [|w' rest'].
  - cbn [wordsFrom]. destruct w; [contradiction|reflexivity].
  - cbn [wordsFrom]. change (JS.isWhiteSpace 32) with true. cbn iota.
    destruct w; [contradiction|]. f_equal. now apply IH.
Qed.

(** Normalization forgets the white space and nothing else: two
    contents are normalized to the same string exactly when they have
    the same words. *)
Theorem normalize_exact (a b : jsstring) :
  MessageDedup.normalize a = MessageDedup.normalize b <-> sameUpToWhiteSpace a b.
Proof.
  unfold sameUpToWhiteSpace. rewrite !normalize_words. split.
  - intro H. apply (f_equal words) in H.
    rewrite !words_joinWords in H by (apply wordsFrom_words; constructor). exact H.
  - now intros ->.
Qed.

(** *** Sorting and limiting *)

Lemma In_insertDesc {A : Type} (key : A -> Z) (x y : A) (l : list A) :
  In x (insertDesc key y l) <-> x = y \/ In x l.
Proof.
  induction l as [|z l IH]; cbn [insertDesc].
  - cbn. intuition congruence.
  - destruct (key z <=? key y); cbn [In]; [intuition congruence|].
    rewrite IH. intuition congruence.
Qed.

Lemma In_orderByDesc {A : Type} (key : A -> Z) (x : A) (l : list A) :
  In x (orderByDesc key l) <-> In x l.
Proof.
  unfold orderByDesc. induction l as [|y l IH]; cbn [fold_right In]; [tauto|].
  rewrite In_insertDesc, IH. intuition congruence.
Qed.

Lemma length_insertDesc {A : Type} (key : A -> Z) (y : A) (l : list A) :
  List.length (insertDesc key y l) = S (List.length l).
Proof.
  induction l as [|z l IH]; cbn [insertDesc]; [reflexivity|].
  destruct (key z <=? key y); cbn [List.length]; [reflexivity|now rewrite IH].
Qed.

Lemma length_orderByDesc {A : Type} (key : A -> Z) (l : list A) :
  List.length (orderByDesc key l) = List.length l.
Proof.
  unfold orderByDesc. induction l as [|y l IH]; cbn [fold_right]; [reflexivity|].
  rewrite length_insertDesc. cbn. now rewrite IH.
Qed.

(* ------------------------------------------------------------------ *)
(** ** The fast tier *)
(* ------------------------------------------------------------------ *)

Section FastTier.

Import PersistentDedup.

Lemma cacheOk_nil : cacheOk [].
Proof. split; constructor. Qed.

Lemma cacheOk_tail (kv : jsstring * Z) (c : Cache) : cacheOk (kv :: c) -> cacheOk c.
Proof. intros [H1 H2]. inversion H1; inversion H2; subst. now split. Qed.

Lemma cacheGet_cons (key k : jsstring) (v : Z) (c : Cache) :
  cacheGet key ((k, v) :: c) = if JS.eqb k key then Some v else cacheGet key c.
Proof. unfold cacheGet. cbn [find fst]. now destruct (JS.eqb k key). Qed.

Lemma cacheGet_In (key : jsstring) (v : Z) (c : Cache) :
  cacheGet key c = Some v -> In (key, v) c.
Proof.
  induction c as [|[k w] c IH]; [discriminate|].
  rewrite cacheGet_cons. destruct (JS.eqb k key) eqn:E.
  - intro H. injection H as ->. apply eqb_eq in E. subst. now left.
  - intro H. right. now apply IH.
Qed.


Lemma In_cacheGet (key : jsstring) (v : Z) (c : Cache) :
  NoDup (map fst c) -> In (key, v) c -> cacheGet key c = Some v.
Proof.
  induction c as [|[k w] c IH]; [contradiction|].
  cbn [map fst]. intros ND [H|H]; rewrite cacheGet_cons.
  - injection H as -> ->. now rewrite eqb_refl.
  - inversion ND; subst. destruct (JS.eqb k key) eqn:E.
    + apply eqb_eq in E. subst. exfalso. apply H2.
      change key with (fst (key, v)). now apply in_map.
    + now apply IH.
Qed.

Lemma cacheGet_set_same (key : jsstring) (v : Z) (c : Cache) :
  cacheGet key (cacheSet key v c) = Some v.
Proof.
  induction c as [|[k w] c IH]; cbn [cacheSet].
  - rewrite cacheGet_cons. now rewrite eqb_refl.
  - destruct (JS.eqb k key) eqn:E; rewrite cacheGet_cons, E; [reflexivity|exact IH].
Qed.

Lemma cacheGet_set_other (key key' : jsstring) (v : Z) (c : Cache) :
  key' <> key -> cacheGet key' (cacheSet key v c) = cacheGet key' c.
Proof.
  intro N. induction c as [|[k w] c IH]; cbn [cacheSet].
  - rewrite cacheGet_cons. apply eqb_neq in N. rewrite eqb_sym in N. now rewrite N.
  - destruct (JS.eqb k key) eqn:E; rewrite !cacheGet_cons.
    + apply eqb_eq in E. subst k. destruct (JS.eqb key key') eqn:E'; [|reflexivity].
      apply eqb_eq in E'. congruence.
    + now rewrite IH.
Qed.

Lemma keys_cacheSet (key : jsstring) (v : Z) (c : Cache) :
  map fst (cacheSet key v c)
  = if existsb (fun kv => JS.eqb (fst kv) key) c then map fst c else map fst c ++ [key].
Proof.
  induction c as [|[k w] c IH]; [reflexivity|].
  cbn [cacheSet existsb fst]. destruct (JS.eqb k key) eqn:E; cbn [orb map fst].
  - reflexivity.
  - rewrite IH. now destruct (existsb (fun kv => JS.eqb (fst kv) key) c).
Qed.

Lemma length_cacheSet (key : jsstring) (v : Z) (c : Cache) :
  (List.length c <= List.length (cacheSet key v c) <= S (List.length c))%nat.
Proof.
  rewrite <- !(length_map fst). rewrite keys_cacheSet.
  destruct (existsb (fun kv => JS.eqb (fst kv) key) c); [lia|]. rewrite length_app. cbn. lia.
Qed.

Lemma cacheOk_set (key : jsstring) (v : Z) (c : Cache) :
  JS.truthy key = true -> cacheOk c -> cacheOk (cacheSet key v c).
Proof.
  intros T [ND F]. split.
  - rewrite keys_cacheSet. destruct (existsb (fun kv => JS.eqb (fst kv) key) c) eqn:E; [exact ND|].
    apply NoDup_app; [exact ND|repeat constructor; intros []|].
    intros a Ha [<-|[]].
    apply in_map_iff in Ha. destruct Ha as [kv [Hk Hin]].
    assert (X : existsb (fun kv => JS.eqb (fst kv) key) c = true).
    { apply existsb_exists. exists kv. split; [exact Hin|]. apply eqb_eq. exact Hk. }
    congruence.
  - clear ND. induction c as [|[k w] c IH]; cbn [cacheSet].
    + repeat constructor. exact T.
    + inversion F; subst. destruct (JS.eqb k key); constructor; auto.
Qed.

Lemma cacheOk_filter (f : jsstring * Z -> bool) (c : Cache) :
  cacheOk c -> cacheOk (filter f c).
Proof.
  intros [ND F]. split.
  - clear F. induction c as [|kv c IH]; [constructor|].
    cbn [map] in ND. inversion ND; subst. cbn [filter].
    destruct (f kv); [|now apply IH]. cbn [map]. constructor; [|now apply IH].
    intro H. apply H1. apply in_map_iff in H. destruct H as [x [Hx Hin]].
    apply filter_In in Hin. apply in_map_iff. exists x. tauto.
  - apply Forall_forall. intros x Hx. apply filter_In in Hx.
    rewrite Forall_forall in F. now apply F.
Qed.

(** *** The eviction loop *)

Lemma evictOldest_ends (c : Cache) :
  Forall (fun kv => JS.truthy (fst kv) = true) c -> exists c', evictOldest c = Some c'.
Proof.
  induction c as [|[k w] c IH]; intro F; [now exists []|].
  cbn [evictOldest]. inversion F; subst. cbn [fst] in *.
  destruct (ROUTING_DEDUP_MAX_KEYS <? _); [|now eexists].
  rewrite H1. now apply IH.
Qed.

(** The loop leaves a suffix of the map: it drops oldest-inserted
    entries only, no more of them than needed, and ends at or under
    the limit. *)
Lemma evictOldest_suffix (c c' : Cache) :
  evictOldest c = Some c' ->
  Z.of_nat (List.length c') <= ROUTING_DEDUP_MAX_KEYS
  /\ exists dropped, c = dropped ++ c'
       /\ (dropped <> [] -> Z.of_nat (List.length c') = ROUTING_DEDUP_MAX_KEYS).
Proof.
  revert c'. induction c as [|[k w] c IH]; intros c' H; cbn [evictOldest] in H.
  - injection H as <-. split; [cbn; unfold ROUTING_DEDUP_MAX_KEYS; lia|].
    exists []. split; [reflexivity|congruence].
  - destruct (ROUTING_DEDUP_MAX_KEYS <? _) eqn:L.
    + destruct (JS.truthy k); [|discriminate].
      destruct (IH _ H) as [B [d [E D]]]. split; [exact B|].
      exists ((k, w) :: d). split; [cbn; now rewrite E|].
      intros _. destruct d as [|x d]; [|apply D; discriminate].
      cbn in E. subst c'. apply Z.ltb_lt in L. cbn [List.length] in L. lia.
    + injection H as <-. apply Z.ltb_ge in L. split; [exact L|].
      exists []. split; [reflexivity|congruence].
Qed.

Lemma cacheOk_suffix (d c : Cache) : cacheOk (d ++ c) -> cacheOk c.
Proof.
  induction d as [|x d IH]; [trivial|]. intro H. apply IH. now apply cacheOk_tail in H.
Qed.

Lemma cacheGet_suffix (key : jsstring) (v : Z) (d c : Cache) :
  NoDup (map fst (d ++ c)) -> cacheGet key c = Some v -> cacheGet key (d ++ c) = Some v.
Proof.
  intros ND H. apply In_cacheGet; [exact ND|]. apply in_or_app. right.
  now apply cacheGet_In.
Qed.

Lemma cacheGet_filter (f : jsstring * Z -> bool) (key : jsstring) (v : Z) (c : Cache) :
  NoDup (map fst c) -> cacheGet key (filter f c) = Some v -> cacheGet key c = Some v.
Proof.
  intros ND H. apply In_cacheGet; [exact ND|].
  apply cacheGet_In in H. apply filter_In in H. tauto.
Qed.

(** [evictExpired] ends on every cache the module builds, leaves such a
    cache, at or under the limit, and only ever removes entries. *)
Lemma evictExpired_ends (nowMs : Z) (c : Cache) :
  cacheOk c -> exists c', evictExpired nowMs c = Some c'.
Proof.
  intro H. apply evictOldest_ends. now apply cacheOk_filter.
Qed.

Lemma evictExpired_bound (nowMs : Z) (c c' : Cache) :
  evictExpired nowMs c = Some c' ->
  Z.of_nat (List.length c') <= ROUTING_DEDUP_MAX_KEYS.
Proof. intro H. now apply evictOldest_suffix in H. Qed.

Lemma evictExpired_ok (nowMs : Z) (c c' : Cache) :
  cacheOk c -> evictExpired nowMs c = Some c' -> cacheOk c'.
Proof.
  intros Ok H. apply evictOldest_suffix in H. destruct H as [_ [d [E _]]].
  apply (cacheOk_suffix d). rewrite <- E. now apply cacheOk_filter.
Qed.

Lemma evictExpired_get (nowMs : Z) (key : jsstring) (v : Z) (c c' : Cache) :
  cacheOk c -> evictExpired nowMs c = Some c' ->
  cacheGet key c' = Some v -> cacheGet key c = Some v.
Proof.
  intros Ok H G. apply evictOldest_suffix in H. destruct H as [_ [d [E _]]].
  apply (cacheGet_filter (fun kv => negb (ROUTING_DEDUP_TTL_MS <? nowMs - snd kv)));
    [apply Ok|].
  rewrite E. apply cacheGet_suffix; [|exact G].
  rewrite <- E. now apply cacheOk_filter.
Qed.

Lemma evictExpired_miss (nowMs : Z) (key : jsstring) (c c' : Cache) :
  cacheOk c -> evictExpired nowMs c = Some c' ->
  cacheGet key c = None -> cacheGet key c' = None.
Proof.
  intros Ok H G. destruct (cacheGet key c') as [v|] eqn:E; [|reflexivity].
  apply (evictExpired_get nowMs key v c c' Ok H) in E. congruence.
Qed.

End FastTier.

(* ------------------------------------------------------------------ *)
(** ** checkAndRecordDedup, case by case *)
(* ------------------------------------------------------------------ *)

Section CheckAndRecord.

Import PersistentDedup.

Variables (e : Env) (fromAgentId toAgentId : jsstring) (meta : DedupMeta) (ttlMs : Z).

Let key := buildDedupKey fromAgentId toAgentId meta.

Lemma buildDedupKey_truthy : JS.truthy key = true.
Proof.
  unfold key, buildDedupKey. destruct fromAgentId; reflexivity.
Qed.

(** A fast-tier hit: the call is over before the database is asked. *)
Lemma check_l1_hit (p : Process) (t : Table) (c : Cache) (seenAt : Z) :
  evictExpired (nowMs e) (inMemoryCache p) = Some c ->
  cacheGet key c = Some seenAt ->
  nowMs e - seenAt <= ttlMs ->
  checkAndRecordDedup e fromAgentId toAgentId meta ttlMs p t
  = (Returned (mkResult true (Some (l1Reason (nowMs e) seenAt))), withCache p c, t).
Proof.
  intros E G L. unfold checkAndRecordDedup, checkStart. rewrite E. fold key. rewrite G.
  apply Z.leb_le in L. now rewrite L.
Qed.

(** A miss: the call goes through the insert and its continuation. *)
Lemma check_l1_miss (p : Process) (t : Table) (c : Cache) (db : DbAdapter) :
  evictExpired (nowMs e) (inMemoryCache p) = Some c ->
  (forall seenAt, cacheGet key c = Some seenAt -> ttlMs < nowMs e - seenAt) ->
  _db p = Some db ->
  JS.validTime (nowMs e + ttlMs) = true ->
  checkAndRecordDedup e fromAgentId toAgentId meta ttlMs p t
  = let (q, t') := insertOnConflictDoNothing (dbError e) (newRow e fromAgentId toAgentId meta ttlMs) t in
    let (res, p2) := checkResume (nowMs e) key q (withCache p c) in
    (Returned res, p2, t').
Proof.
  intros E M D V. unfold checkAndRecordDedup, checkStart. rewrite E. fold key.
  cbn [withCache _db]. rewrite D, V.
  destruct (cacheGet key c) as [seenAt|] eqn:G; [|reflexivity].
  specialize (M _ eq_refl). apply Z.leb_gt in M. now rewrite M.
Qed.

Lemma insert_conflict (t : Table) :
  dbError e = None -> recorded fromAgentId toAgentId meta t = true ->
  insertOnConflictDoNothing (dbError e) (newRow e fromAgentId toAgentId meta ttlMs) t = (QueryRows [], t).
Proof.
  intros D R. unfold insertOnConflictDoNothing. rewrite D.
  cbn [newRow from_agent_id to_agent_id content_hash].
  unfold recorded in R. now rewrite R.
Qed.

Lemma insert_fresh (t : Table) :
  dbError e = None -> recorded fromAgentId toAgentId meta t = false ->
  existsb (fun r => JS.eqb (id r) (id (newRow e fromAgentId toAgentId meta ttlMs))) t = false ->
  insertOnConflictDoNothing (dbError e) (newRow e fromAgentId toAgentId meta ttlMs) t
  = (QueryRows [id (newRow e fromAgentId toAgentId meta ttlMs)], t ++ [(newRow e fromAgentId toAgentId meta ttlMs)]).
Proof.
  intros D R I. unfold insertOnConflictDoNothing. rewrite D.
  cbn [newRow from_agent_id to_agent_id content_hash].
  unfold recorded in R. rewrite R. cbn [newRow] in I |- *. now rewrite I.
Qed.

Lemma recorded_after_insert (t : Table) :
  recorded fromAgentId toAgentId meta (t ++ [(newRow e fromAgentId toAgentId meta ttlMs)]) = true.
Proof.
  unfold recorded. rewrite existsb_app. cbn [existsb newRow]. unfold sameRoute.
  cbn [from_agent_id to_agent_id content_hash]. rewrite !eqb_refl.
  apply orb_true_iff. now right.
Qed.


(** Whatever the call does, the cache stays one the module builds, and
    holds at most one entry more than the limit. *)
Lemma check_cache (p p' : Process) (t t' : Table) (out : Outcome DedupCheckResult) :
  cacheOk (inMemoryCache p) ->
  checkAndRecordDedup e fromAgentId toAgentId meta ttlMs p t = (out, p', t') ->
  cacheOk (inMemoryCache p')
  /\ Z.of_nat (List.length (inMemoryCache p')) <= ROUTING_DEDUP_MAX_KEYS + 1
  /\ _db p' = _db p.
Proof.
  intros Ok H. destruct (evictExpired_ends (nowMs e) _ Ok) as [c E].
  pose proof (evictExpired_ok _ _ _ Ok E) as Okc.
  pose proof (evictExpired_bound _ _ _ E) as Bc.
  unfold checkAndRecordDedup, checkStart in H. rewrite E in H. fold key in H.
  assert (Q : forall row,
    (let (q, t1) := insertOnConflictDoNothing (dbError e) row t in
     let (res, p2) := checkResume (nowMs e) key q (withCache p c) in
     (Returned res, p2, t1)) = (out, p', t') ->
    cacheOk (inMemoryCache p')
    /\ Z.of_nat (List.length (inMemoryCache p')) <= ROUTING_DEDUP_MAX_KEYS + 1
    /\ _db p' = _db p).
  { intros row HQ. destruct (insertOnConflictDoNothing _ _ _) as [q t1].
    pose proof (length_cacheSet key (nowMs e) c) as L.
    pose proof (cacheOk_set key (nowMs e) c buildDedupKey_truthy Okc) as S.
    unfold checkResume in HQ. destruct q as [rows|m].
    - destruct (List.length rows =? 0)%nat; injection HQ as <- <- <-;
        cbn [withCache inMemoryCache _db]; (split; [exact S|split; [lia|reflexivity]]).
    - injection HQ as <- <- <-. cbn [withCache logged inMemoryCache _db].
      split; [exact S|split; [lia|reflexivity]]. }
  assert (F : forall o, (o, withCache p c, t) = (out, p', t') ->
    cacheOk (inMemoryCache p')
    /\ Z.of_nat (List.length (inMemoryCache p')) <= ROUTING_DEDUP_MAX_KEYS + 1
    /\ _db p' = _db p).
  { intros o HF. injection HF as <- <- <-. cbn [withCache inMemoryCache _db].
    split; [exact Okc|split; [lia|reflexivity]]. }
  cbn [withCache _db] in H.
  destruct (cacheGet key c) as [seenAt|].
  - destruct (nowMs e - seenAt <=? ttlMs); [now apply F in H|].
    destruct (_db p); [|now apply F in H].
    destruct (JS.validTime _); [now apply Q in H|now apply F in H].
  - destruct (_db p); [|now apply F in H].
    destruct (JS.validTime _); [now apply Q in H|now apply F in H].
Qed.

(** Once the table holds the row, a call that reaches a working
    database is told so: the result is a duplicate whatever the fast
    tier holds and whatever the time is, and the table is unchanged. *)
Lemma check_recorded (p : Process) (t : Table) (db : DbAdapter) :
  cacheOk (inMemoryCache p) ->
  _db p = Some db ->
  dbError e = None ->
  JS.validTime (nowMs e + ttlMs) = true ->
  recorded fromAgentId toAgentId meta t = true ->
  exists res p',
    checkAndRecordDedup e fromAgentId toAgentId meta ttlMs p t = (Returned res, p', t)
    /\ isDuplicate res = true.
Proof.
  intros Ok D Er V R. destruct (evictExpired_ends (nowMs e) _ Ok) as [c E].
  destruct (cacheGet key c) as [seenAt|] eqn:G.
  - destruct (Z_le_gt_dec (nowMs e - seenAt) ttlMs) as [L|L].
    + rewrite (check_l1_hit p t c seenAt E G L). eauto.
    + rewrite (check_l1_miss p t c db E); try assumption.
      * rewrite insert_conflict by assumption. cbn. eauto.
      * intros s Hs. rewrite G in Hs. injection Hs as <-. lia.
  - rewrite (check_l1_miss p t c db E); try assumption.
    + rewrite insert_conflict by assumption. cbn. eauto.
    + intros s Hs. congruence.
Qed.

End CheckAndRecord.

(* ------------------------------------------------------------------ *)
(** ** The dedup store: the claims *)
(* ------------------------------------------------------------------ *)

Import PersistentDedup.

(** C1, at the input where the code departs from the claim: the only
    durable record of the fingerprint was seen at [now - TTL - 1 ms] and
    has expired, the fast tier is empty, the database works.  The claim
    expects a non-duplicate and a new record; the insert conflicts with
    the expired row, which is still in the table, and the call returns a
    duplicate, the table unchanged. *)
Theorem C1_expired_row_still_conflicts :
  seen_at expiredRow = nowMs envT - ROUTING_DEDUP_TTL_MS - 1
  /\ expires_at expiredRow < dbNow envT
  /\ checkAndRecordDedup envT alice bob meta0 ROUTING_DEDUP_TTL_MS started [expiredRow]
     = (Returned (mkResult true (Some conflictReason)),
        mkProcess (Some Adapter) [(key0, timeT)] [],
        [expiredRow]).
Proof. vm_compute. repeat split. Qed.

(** C2, as the code has it: when the insert meets a row of the same
    sender, recipient and content hash, the call returns a duplicate
    with the database-conflict reason and sets the fast-tier entry of
    the key to the current time [nowMs]. *)
Theorem C2_conflict_warms_with_current_time
    (e : Env) (fromAgentId toAgentId : jsstring) (meta : DedupMeta) (ttlMs : Z)
    (p : Process) (t : Table) (db : DbAdapter) :
  cacheOk (inMemoryCache p) ->
  _db p = Some db ->
  JS.validTime (nowMs e + ttlMs) = true ->
  l1Miss e fromAgentId toAgentId meta ttlMs (inMemoryCache p) ->
  dbError e = None ->
  recorded fromAgentId toAgentId meta t = true ->
  exists p',
    checkAndRecordDedup e fromAgentId toAgentId meta ttlMs p t
      = (Returned (mkResult true (Some conflictReason)), p', t)
    /\ cacheGet (buildDedupKey fromAgentId toAgentId meta) (inMemoryCache p')
       = Some (nowMs e).
Proof.
  intros Ok D V M Er R. destruct (evictExpired_ends (nowMs e) _ Ok) as [c E].
  rewrite (check_l1_miss e fromAgentId toAgentId meta ttlMs p t c db E); try assumption.
  - rewrite insert_conflict by assumption. cbn. eexists. split; [reflexivity|].
    cbn. apply cacheGet_set_same.
  - intros s Hs. apply M. now apply (evictExpired_get (nowMs e) _ s _ c Ok E).
Qed.

Lemma C2_conflict_warms_with_current_time_witness :
  exists p',
    checkAndRecordDedup envT alice bob meta0 ROUTING_DEDUP_TTL_MS started [liveRow]
      = (Returned (mkResult true (Some conflictReason)), p', [liveRow])
    /\ cacheGet key0 (inMemoryCache p') = Some timeT.
Proof.
  apply (C2_conflict_warms_with_current_time envT alice bob meta0 ROUTING_DEDUP_TTL_MS
           started [liveRow] Adapter).
  - apply cacheOk_nil.
  - reflexivity.
  - vm_compute. reflexivity.
  - intros s H. vm_compute in H. discriminate.
  - reflexivity.
  - vm_compute. reflexivity.
Defined.

(** C2 as the claim words it fails: the insert is rejected by a live
    row seen five seconds earlier, and the entry put into the fast tier
    holds the current time, not that row's [seen_at]. *)
Lemma C2_warms_with_seen_at_counterexample :
  let '(out, p', t') :=
    checkAndRecordDedup envT alice bob meta0 ROUTING_DEDUP_TTL_MS started [liveRow] in
  out = Returned (mkResult true (Some conflictReason))
  /\ dbNow envT < expires_at liveRow
  /\ cacheGet key0 (inMemoryCache p') = Some (nowMs envT)
  /\ cacheGet key0 (inMemoryCache p') <> Some (seen_at liveRow).
Proof. vm_compute. repeat split; discriminate. Qed.

Lemma cacheSet_new (key : jsstring) (v : Z) (c : Cache) :
  cacheGet key c = None -> cacheSet key v c = c ++ [(key, v)].
Proof.
  induction c as [|[k w] c IH]; [reflexivity|]. rewrite cacheGet_cons. cbn [cacheSet app].
  destruct (JS.eqb k key); [discriminate|]. intro G. now rewrite IH.
Qed.

(** The eviction loop never drops the newest entry. *)
Lemma evictOldest_keeps_last (l : Cache) (x : jsstring * Z) :
  Forall (fun kv => JS.truthy (fst kv) = true) l ->
  exists l', evictOldest (l ++ [x]) = Some (l' ++ [x]).
Proof.
  induction l as [|[k w] l IH]; intro F.
  - exists []. destruct x as [k v]. reflexivity.
  - inversion F as [|? ? T F']; subst. cbn [app evictOldest fst] in *.
    destruct (ROUTING_DEDUP_MAX_KEYS <? _).
    + rewrite T. now apply IH.
    + now exists ((k, w) :: l).
Qed.

Lemma evictExpired_keeps_last (nowMs seenAt : Z) (key : jsstring) (front : Cache) :
  cacheOk (front ++ [(key, seenAt)]) ->
  nowMs - seenAt <= ROUTING_DEDUP_TTL_MS ->
  exists front', evictExpired nowMs (front ++ [(key, seenAt)]) = Some (front' ++ [(key, seenAt)]).
Proof.
  intros Ok L. unfold evictExpired. rewrite filter_app. cbn [filter snd].
  apply Z.ltb_ge in L. rewrite L. cbn [negb].
  apply evictOldest_keeps_last.
  apply (cacheOk_filter (fun kv => negb (ROUTING_DEDUP_TTL_MS <? nowMs - snd kv))) in Ok.
  rewrite filter_app in Ok. destruct Ok as [_ F]. apply Forall_app in F. tauto.
Qed.

(** A call that finds its key in the fast tier, seen no longer ago than
    [ttlMs], with [ttlMs] no more than the 72 hours the sweep allows:
    a duplicate, whatever the state of the database and of the adapter,
    and the entry stays the newest. *)
Lemma check_warm (e : Env) (fromAgentId toAgentId : jsstring) (meta : DedupMeta)
    (ttlMs : Z) (p : Process) (t : Table) (front : Cache) (seenAt : Z) :
  inMemoryCache p = front ++ [(buildDedupKey fromAgentId toAgentId meta, seenAt)] ->
  cacheOk (inMemoryCache p) ->
  nowMs e - seenAt <= ttlMs ->
  ttlMs <= ROUTING_DEDUP_TTL_MS ->
  exists front',
    checkAndRecordDedup e fromAgentId toAgentId meta ttlMs p t
    = (Returned (mkResult true (Some (l1Reason (nowMs e) seenAt))),
       withCache p (front' ++ [(buildDedupKey fromAgentId toAgentId meta, seenAt)]), t)
    /\ cacheOk (front' ++ [(buildDedupKey fromAgentId toAgentId meta, seenAt)]).
Proof.
  intros C Ok L T. rewrite C in Ok.
  destruct (evictExpired_keeps_last (nowMs e) seenAt _ front Ok) as [front' E]; [lia|].
  rewrite <- C in E, Ok. pose proof (evictExpired_ok _ _ _ Ok E) as Ok'.
  exists front'. split; [|exact Ok'].
  apply check_l1_hit; [exact E| |exact L].
  apply In_cacheGet; [apply Ok'|]. apply in_or_app. right. now left.
Qed.

(** A first call that finds nothing in either tier returns a
    non-duplicate, whatever the database does with the insert, and
    leaves the key as the newest entry of the fast tier; if the database
    takes the insert, the table holds the row. *)
Lemma check_first (e : Env) (fromAgentId toAgentId : jsstring) (meta : DedupMeta)
    (ttlMs : Z) (p : Process) (t : Table) (db : DbAdapter) :
  cacheOk (inMemoryCache p) ->
  _db p = Some db ->
  cacheGet (buildDedupKey fromAgentId toAgentId meta) (inMemoryCache p) = None ->
  recorded fromAgentId toAgentId meta t = false ->
  JS.validTime (nowMs e + ttlMs) = true ->
  exists p' t' front,
    checkAndRecordDedup e fromAgentId toAgentId meta ttlMs p t
      = (Returned (mkResult false None), p', t')
    /\ inMemoryCache p' = front ++ [(buildDedupKey fromAgentId toAgentId meta, nowMs e)]
    /\ cacheOk (inMemoryCache p') /\ _db p' = Some db
    /\ (dbError e = None -> freshId e t ->
        t' = t ++ [newRow e fromAgentId toAgentId meta ttlMs]).
Proof.
  intros Ok D G R V. destruct (evictExpired_ends (nowMs e) _ Ok) as [c E].
  pose proof (evictExpired_miss _ _ _ _ Ok E G) as Gc.
  pose proof (evictExpired_ok _ _ _ Ok E) as Okc.
  pose proof (cacheOk_set _ (nowMs e) c
                (buildDedupKey_truthy fromAgentId toAgentId meta) Okc) as Oks.
  rewrite (check_l1_miss e fromAgentId toAgentId meta ttlMs p t c db E);
    [|intros s Hs; congruence|exact D|exact V].
  unfold insertOnConflictDoNothing.
  cbn [newRow from_agent_id to_agent_id content_hash id].
  unfold recorded in R. rewrite R.
  destruct (dbError e) as [m|].
  - cbn. eexists. eexists. exists c. split; [reflexivity|]. cbn.
    split; [now apply cacheSet_new|]. split; [exact Oks|]. split; [exact D|discriminate].
  - destruct (existsb (fun r => JS.eqb (id r) (JS.lit "dedup_" ++ randomHex e)) t) eqn:I.
    + cbn. eexists. eexists. exists c. split; [reflexivity|]. cbn.
      split; [now apply cacheSet_new|]. split; [exact Oks|]. split; [exact D|].
      intros _ Fr. unfold freshId in Fr. congruence.
    + cbn. eexists. eexists. exists c. split; [reflexivity|]. cbn.
      split; [now apply cacheSet_new|]. split; [exact Oks|]. split; [exact D|].
      reflexivity.
Qed.

Lemma callAll_warm (es : list Env) (fromAgentId toAgentId : jsstring)
    (meta : DedupMeta) (ttlMs : Z) (p : Process) (t : Table) (front : Cache)
    (seenAt : Z) :
  inMemoryCache p = front ++ [(buildDedupKey fromAgentId toAgentId meta, seenAt)] ->
  cacheOk (inMemoryCache p) ->
  ttlMs <= ROUTING_DEDUP_TTL_MS ->
  Forall (fun e => nowMs e - seenAt <= ttlMs) es ->
  exists outs p',
    callAll es fromAgentId toAgentId meta ttlMs p t = (outs, p', t)
    /\ Forall isDuplicateOutcome outs
    /\ List.length outs = List.length es.
Proof.
  revert p front. induction es as [|e es IH]; intros p front C Ok T F.
  - exists [], p. cbn. repeat split. constructor.
  - inversion F as [|x l L F']; subst. cbn [callAll].
    destruct (check_warm e fromAgentId toAgentId meta ttlMs p t front seenAt C Ok L T)
      as [front' [H Ok']].
    rewrite H.
    destruct (IH (withCache p (front' ++ [(buildDedupKey fromAgentId toAgentId meta, seenAt)]))
                 front' eq_refl Ok' T F') as [outs [p' [H' [Fo Len]]]].
    rewrite H'. eexists. exists p'. split; [reflexivity|]. split.
    + constructor; [|exact Fo]. eexists. split; reflexivity.
    + cbn. now rewrite Len.
Qed.

Lemma callAll_recorded (es : list Env) (fromAgentId toAgentId : jsstring)
    (meta : DedupMeta) (ttlMs : Z) (p : Process) (t : Table) (db : DbAdapter) :
  cacheOk (inMemoryCache p) ->
  _db p = Some db ->
  recorded fromAgentId toAgentId meta t = true ->
  Forall (fun e => dbError e = None /\ JS.validTime (nowMs e + ttlMs) = true) es ->
  exists outs p',
    callAll es fromAgentId toAgentId meta ttlMs p t = (outs, p', t)
    /\ Forall isDuplicateOutcome outs
    /\ List.length outs = List.length es.
Proof.
  revert p. induction es as [|e es IH]; intros p Ok D R F.
  - exists [], p. cbn. repeat split. constructor.
  - inversion F as [|x l [Er V] F']; subst. cbn [callAll].
    destruct (check_recorded e fromAgentId toAgentId meta ttlMs p t db Ok D Er V R)
      as [res [p1 [H Dup]]].
    rewrite H.
    destruct (check_cache e fromAgentId toAgentId meta ttlMs p p1 t t _ Ok H)
      as [Ok1 [_ D1]].
    rewrite D in D1.
    destruct (IH p1 Ok1 D1 R F') as [outs [p' [H' [Fo L]]]].
    rewrite H'. exists (Returned res :: outs), p'. repeat split.
    + constructor; [now exists res|exact Fo].
    + cbn. now rewrite L.
Qed.

(** C3: idempotence.  From a state with no record of the fingerprint in
    either tier, the first call returns a non-duplicate and every later
    call with the same arguments inside the TTL window returns a
    duplicate: by the fast tier alone when the TTL is at most the 72
    hours that tier keeps an entry for, whatever the database does, and
    for a longer TTL by the table, the database answering. *)
Theorem C3_first_call_new_later_calls_duplicate
    (e1 : Env) (later : list Env) (fromAgentId toAgentId : jsstring)
    (meta : DedupMeta) (ttlMs : Z) (p : Process) (t : Table) (db : DbAdapter) :
  cacheOk (inMemoryCache p) ->
  _db p = Some db ->
  cacheGet (buildDedupKey fromAgentId toAgentId meta) (inMemoryCache p) = None ->
  recorded fromAgentId toAgentId meta t = false ->
  JS.validTime (nowMs e1 + ttlMs) = true ->
  Forall (fun e => nowMs e - nowMs e1 <= ttlMs) later ->
  ttlMs <= ROUTING_DEDUP_TTL_MS
  \/ (dbError e1 = None /\ freshId e1 t
      /\ Forall (fun e => dbError e = None /\ JS.validTime (nowMs e + ttlMs) = true)
                later) ->
  exists outs p' t',
    callAll (e1 :: later) fromAgentId toAgentId meta ttlMs p t
      = (Returned (mkResult false None) :: outs, p', t')
    /\ Forall isDuplicateOutcome outs
    /\ List.length outs = List.length later.
Proof.
  intros Ok D G R V W Regime. cbn [callAll].
  destruct (check_first e1 fromAgentId toAgentId meta ttlMs p t db Ok D G R V)
    as [p1 [t1 [front [H [C [Ok1 [D1 Rec]]]]]]].
  rewrite H. destruct Regime as [T|[Er [Fr F]]].
  - destruct (callAll_warm later fromAgentId toAgentId meta ttlMs p1 t1 front
                (nowMs e1) C Ok1 T W) as [outs [p' [H' [Fo L]]]].
    rewrite H'. exists outs, p', t1. repeat split; assumption.
  - rewrite (Rec Er Fr) in *.
    destruct (callAll_recorded later fromAgentId toAgentId meta ttlMs p1
                (t ++ [newRow e1 fromAgentId toAgentId meta ttlMs]) db Ok1 D1)
      as [outs [p' [H' [Fo L]]]].
    + apply recorded_after_insert.
    + exact F.
    + rewrite H'. exists outs, p', (t ++ [newRow e1 fromAgentId toAgentId meta ttlMs]).
      repeat split; assumption.
Qed.

Lemma C3_first_call_new_later_calls_duplicate_witness :
  exists outs p' t',
    callAll [envT; envSoonDown; envLate] alice bob meta0 ROUTING_DEDUP_TTL_MS started []
      = (Returned (mkResult false None) :: outs, p', t')
    /\ Forall isDuplicateOutcome outs
    /\ List.length outs = 2%nat.
Proof.
  apply (C3_first_call_new_later_calls_duplicate envT [envSoonDown; envLate] alice bob meta0
           ROUTING_DEDUP_TTL_MS started [] Adapter).
  - apply cacheOk_nil.
  - reflexivity.
  - reflexivity.
  - reflexivity.
  - vm_compute. reflexivity.
  - repeat constructor; vm_compute; discriminate.
  - left. apply Z.le_refl.
Defined.

(** A non-duplicate answer from a call whose insert the database took
    means that the row is in the table. *)
Lemma check_new_is_recorded (e : Env) (fromAgentId toAgentId : jsstring)
    (meta : DedupMeta) (ttlMs : Z) (p p' : Process) (t t' : Table)
    (res : DedupCheckResult) :
  dbError e = None ->
  freshId e t ->
  checkAndRecordDedup e fromAgentId toAgentId meta ttlMs p t = (Returned res, p', t') ->
  isDuplicate res = false ->
  recorded fromAgentId toAgentId meta t' = true.
Proof.
  intros Er Fr H N. unfold checkAndRecordDedup, checkStart in H.
  destruct (evictExpired _ _) as [c|]; [|discriminate].
  assert (Q :
    (let (q, t1) := insertOnConflictDoNothing (dbError e)
                      (newRow e fromAgentId toAgentId meta ttlMs) t in
     let (r, p2) := checkResume (nowMs e)
                      (buildDedupKey fromAgentId toAgentId meta) q (withCache p c) in
     (Returned r, p2, t1)) = (Returned res, p', t') ->
    recorded fromAgentId toAgentId meta t' = true).
  { destruct (recorded fromAgentId toAgentId meta t) eqn:R.
    - rewrite insert_conflict by assumption. cbn. intro HQ.
      injection HQ as <- _ _. discriminate.
    - rewrite insert_fresh by assumption. cbn. intro HQ.
      injection HQ as _ _ <-. apply recorded_after_insert. }
  fold (newRow e fromAgentId toAgentId meta ttlMs) in H.
  destruct (cacheGet _ c) as [seenAt|].
  - destruct (nowMs e - seenAt <=? ttlMs).
    + injection H as <- _ _. discriminate.
    + destruct (_db (withCache p c)); [|discriminate].
      destruct (JS.validTime _); [now apply Q|discriminate].
  - destruct (_db (withCache p c)); [|discriminate].
    destruct (JS.validTime _); [now apply Q|discriminate].
Qed.

(** C4: restart safety.  Once a call has recorded the fingerprint (it
    returned a non-duplicate and the database took the insert), a
    process whose fast tier is empty gets a duplicate for the same
    arguments inside the TTL window: the table decides. *)
Theorem C4_duplicate_after_restart
    (e1 e2 : Env) (fromAgentId toAgentId : jsstring) (meta : DedupMeta) (ttlMs : Z)
    (p p1 restarted : Process) (t t1 : Table) (res1 : DedupCheckResult)
    (db : DbAdapter) :
  dbError e1 = None ->
  freshId e1 t ->
  checkAndRecordDedup e1 fromAgentId toAgentId meta ttlMs p t = (Returned res1, p1, t1) ->
  isDuplicate res1 = false ->
  inMemoryCache restarted = [] ->
  _db restarted = Some db ->
  dbError e2 = None ->
  JS.validTime (nowMs e2 + ttlMs) = true ->
  nowMs e2 - nowMs e1 <= ttlMs ->
  checkAndRecordDedup e2 fromAgentId toAgentId meta ttlMs restarted t1
  = (Returned (mkResult true (Some conflictReason)),
     withCache restarted [(buildDedupKey fromAgentId toAgentId meta, nowMs e2)],
     t1).
Proof.
  intros Er1 Fr H N C D Er2 V _.
  pose proof (check_new_is_recorded _ _ _ _ _ _ _ _ _ _ Er1 Fr H N) as R.
  rewrite (check_l1_miss e2 fromAgentId toAgentId meta ttlMs restarted t1 [] db);
    try assumption.
  - rewrite insert_conflict by assumption. reflexivity.
  - now rewrite C.
  - intros s Hs. discriminate.
Qed.

Lemma C4_duplicate_after_restart_witness :
  checkAndRecordDedup envLate alice bob meta0 ROUTING_DEDUP_TTL_MS started
    [newRow envT alice bob meta0 ROUTING_DEDUP_TTL_MS]
  = (Returned (mkResult true (Some conflictReason)),
     withCache started [(key0, nowMs envLate)],
     [newRow envT alice bob meta0 ROUTING_DEDUP_TTL_MS]).
Proof.
  apply (C4_duplicate_after_restart envT envLate alice bob meta0 ROUTING_DEDUP_TTL_MS
           started (withCache started [(key0, nowMs envT)]) started []
           [newRow envT alice bob meta0 ROUTING_DEDUP_TTL_MS]
           (mkResult false None) Adapter).
  - reflexivity.
  - reflexivity.
  - vm_compute. reflexivity.
  - reflexivity.
  - reflexivity.
  - reflexivity.
  - reflexivity.
  - vm_compute. reflexivity.
  - vm_compute. discriminate.
Defined.

(** C5: fail open.  For a fingerprint the fast tier does not hold, an
    insert that ends in an error (the adapter rejects the query, or the
    statement itself fails) makes the call return
    [{ isDuplicate: false }]: nothing is thrown, the fast tier gets the
    key with the current time, the table is as it was, and the failure
    is written to the console. *)
Theorem C5_fail_open
    (e : Env) (fromAgentId toAgentId : jsstring) (meta : DedupMeta) (ttlMs : Z)
    (p : Process) (t : Table) (db : DbAdapter) (message : jsstring) :
  cacheOk (inMemoryCache p) ->
  _db p = Some db ->
  JS.validTime (nowMs e + ttlMs) = true ->
  cacheGet (buildDedupKey fromAgentId toAgentId meta) (inMemoryCache p) = None ->
  fst (insertOnConflictDoNothing (dbError e)
         (newRow e fromAgentId toAgentId meta ttlMs) t) = QueryError message ->
  exists p',
    checkAndRecordDedup e fromAgentId toAgentId meta ttlMs p t
      = (Returned (mkResult false None), p', t)
    /\ cacheGet (buildDedupKey fromAgentId toAgentId meta) (inMemoryCache p')
       = Some (nowMs e)
    /\ console p' = console p ++ [LogCheckFailed message].
Proof.
  intros Ok D V G Er. destruct (evictExpired_ends (nowMs e) _ Ok) as [c E].
  pose proof (evictExpired_miss _ _ _ _ Ok E G) as Gc.
  rewrite (check_l1_miss e fromAgentId toAgentId meta ttlMs p t c db E); try assumption.
  - assert (Q : insertOnConflictDoNothing (dbError e)
                  (newRow e fromAgentId toAgentId meta ttlMs) t
                = (QueryError message, t)).
    { revert Er. unfold insertOnConflictDoNothing. destruct (dbError e).
      - cbn [fst]. now intros ->.
      - destruct (existsb _ t); [discriminate|].
        destruct (existsb _ t); [|discriminate]. cbn [fst]. now intros ->. }
    rewrite Q. cbn. eexists.
    split; [reflexivity|]. cbn. split; [apply cacheGet_set_same|reflexivity].
  - intros s Hs. congruence.
Qed.

Lemma C5_fail_open_witness :
  exists p',
    checkAndRecordDedup envDown alice bob meta0 ROUTING_DEDUP_TTL_MS started []
      = (Returned (mkResult false None), p', [])
    /\ cacheGet key0 (inMemoryCache p') = Some timeT
    /\ console p' = [LogCheckFailed (JS.lit "connection refused")].
Proof.
  apply (C5_fail_open envDown alice bob meta0 ROUTING_DEDUP_TTL_MS started [] Adapter
           (JS.lit "connection refused")).
  - apply cacheOk_nil.
  - reflexivity.
  - vm_compute. reflexivity.
  - reflexivity.
  - reflexivity.
Defined.

(** [getDb] is called before the [try] block: without a registered
    adapter a call that misses the fast tier throws, and touches neither
    tier beyond the sweep. *)
Remark check_without_adapter
    (e : Env) (fromAgentId toAgentId : jsstring) (meta : DedupMeta) (ttlMs : Z)
    (p : Process) (t : Table) (c : Cache) :
  evictExpired (nowMs e) (inMemoryCache p) = Some c ->
  cacheGet (buildDedupKey fromAgentId toAgentId meta) c = None ->
  _db p = None ->
  checkAndRecordDedup e fromAgentId toAgentId meta ttlMs p t
  = (Threw notRegistered, withCache p c, t).
Proof.
  intros E G D. unfold checkAndRecordDedup, checkStart. rewrite E, G.
  cbn [withCache _db]. now rewrite D.
Qed.

(** *** Every cache the module builds *)

Lemma warmFromRows_ok (rows : list GuardRow) (c : Cache) :
  cacheOk c -> cacheOk (warmFromRows rows c).
Proof.
  unfold warmFromRows. revert c. induction rows as [|r rows IH]; intros c Ok; [exact Ok|].
  cbn [fold_left]. apply IH. apply cacheOk_set; [|exact Ok]. apply buildDedupKey_truthy.
Qed.

(** The cache starts empty, and each of the three exported operations
    leaves a cache in which every key occurs once and is a non-empty
    string; on such a cache the eviction loop ends. *)
Theorem cache_invariant (e : Env) (p : Process) (t : Table) :
  cacheOk (inMemoryCache p) ->
  (forall fromAgentId toAgentId meta ttlMs,
     cacheOk (inMemoryCache
                (snd (fst (checkAndRecordDedup e fromAgentId toAgentId meta ttlMs p t)))))
  /\ (forall windowMs,
        cacheOk (inMemoryCache (snd (loadStartupDedupGuard e windowMs p t))))
  /\ cacheOk (inMemoryCache (snd (fst (pruneExpiredDedup e p t))))
  /\ (forall db, cacheOk (inMemoryCache (registerDbAdapter db p))).
Proof.
  intro Ok. split; [|split; [|split]].
  - intros fromAgentId toAgentId meta ttlMs.
    destruct (checkAndRecordDedup e fromAgentId toAgentId meta ttlMs p t)
      as [[out p'] t'] eqn:H.
    now apply (check_cache e fromAgentId toAgentId meta ttlMs p p' t t' out Ok) in H.
  - intro windowMs. unfold loadStartupDedupGuard. destruct (_db p); [|exact Ok].
    destruct (JS.validTime _); [|exact Ok]. destruct (dbError e); [exact Ok|].
    cbn [snd logged withCache inMemoryCache]. now apply warmFromRows_ok.
  - unfold pruneExpiredDedup. destruct (_db p); [|exact Ok]. destruct (dbError e); exact Ok.
  - intro db. exact Ok.
Qed.

(** *** Expiry takes effect once the row is pruned *)

(** When every row of the table for this sender, recipient and content
    hash has expired, a prune deletes them, and the call that follows
    (the fast tier not holding the key) records the message anew and
    returns a non-duplicate. *)
Theorem expired_record_superseded_after_prune
    (ePrune e : Env) (fromAgentId toAgentId : jsstring) (meta : DedupMeta) (ttlMs : Z)
    (p : Process) (t : Table) (db : DbAdapter) :
  cacheOk (inMemoryCache p) ->
  _db p = Some db ->
  dbError ePrune = None ->
  (forall r, In r t -> sameRoute fromAgentId toAgentId (eventHash meta) r = true ->
             expires_at r < dbNow ePrune) ->
  cacheGet (buildDedupKey fromAgentId toAgentId meta) (inMemoryCache p) = None ->
  dbError e = None ->
  freshId e t ->
  JS.validTime (nowMs e + ttlMs) = true ->
  let '(pruned, p1, t1) := pruneExpiredDedup ePrune p t in
  pruned = Returned (List.length (filter (fun r => expires_at r <? dbNow ePrune) t))
  /\ recorded fromAgentId toAgentId meta t1 = false
  /\ exists p2,
       checkAndRecordDedup e fromAgentId toAgentId meta ttlMs p1 t1
       = (Returned (mkResult false None), p2,
          t1 ++ [newRow e fromAgentId toAgentId meta ttlMs]).
Proof.
  intros Ok D ErP Exp G Er Fr V. unfold pruneExpiredDedup. rewrite D, ErP.
  set (t1 := filter (fun r => negb (expires_at r <? dbNow ePrune)) t).
  assert (R : recorded fromAgentId toAgentId meta t1 = false).
  { unfold recorded. apply not_true_is_false. intro H. apply existsb_exists in H.
    destruct H as [r [Hin Hr]]. apply filter_In in Hin. destruct Hin as [Hin Live].
    specialize (Exp r Hin Hr). apply Z.ltb_lt in Exp. rewrite Exp in Live. discriminate. }
  assert (Fr1 : freshId e t1).
  { unfold freshId in *. apply not_true_is_false. intro H. apply existsb_exists in H.
    destruct H as [r [Hin Hr]]. apply filter_In in Hin.
    assert (X : existsb (fun r => JS.eqb (id r) (JS.lit "dedup_" ++ randomHex e)) t = true).
    { apply existsb_exists. exists r. tauto. }
    congruence. }
  split; [reflexivity|]. split; [exact R|].
  destruct (check_first e fromAgentId toAgentId meta ttlMs p t1 db Ok D G R V)
    as [p2 [t2 [front [H [_ [_ [_ Rec]]]]]]].
  rewrite (Rec Er Fr1) in H. now exists p2.
Qed.

Lemma expired_record_superseded_after_prune_witness :
  let '(pruned, p1, t1) := pruneExpiredDedup envT started [expiredRow] in
  pruned = Returned 1%nat
  /\ recorded alice bob meta0 t1 = false
  /\ exists p2,
       checkAndRecordDedup envAfter alice bob meta0 ROUTING_DEDUP_TTL_MS p1 t1
       = (Returned (mkResult false None), p2,
          t1 ++ [newRow envAfter alice bob meta0 ROUTING_DEDUP_TTL_MS]).
Proof.
  apply (expired_record_superseded_after_prune envT envAfter alice bob meta0
           ROUTING_DEDUP_TTL_MS started [expiredRow] Adapter).
  - apply cacheOk_nil.
  - reflexivity.
  - reflexivity.
  - intros r [<-|[]] _. vm_compute. reflexivity.
  - reflexivity.
  - reflexivity.
  - vm_compute. reflexivity.
  - vm_compute. reflexivity.
Defined.

Lemma cache_invariant_witness :
  cacheOk (inMemoryCache
             (snd (fst (checkAndRecordDedup envT alice bob meta0 ROUTING_DEDUP_TTL_MS
                          started [])))).
Proof.
  exact (proj1 (cache_invariant envT started [] cacheOk_nil)
           alice bob meta0 ROUTING_DEDUP_TTL_MS).
Defined.

(** *** The size of the fast tier *)

Lemma length_warmFromRows (rows : list GuardRow) (c : Cache) :
  (List.length c <= List.length (warmFromRows rows c)
   <= List.length c + List.length rows)%nat.
Proof.
  unfold warmFromRows. revert c. induction rows as [|r rows IH]; intro c; cbn [fold_left].
  - cbn. lia.
  - pose proof (length_cacheSet (guardKey r) (seen_at_ms r) c).
    specialize (IH (cacheSet (guardKey r) (seen_at_ms r) c)). cbn [List.length]. lia.
Qed.






Lemma evictOldest_within (c : Cache) :
  Z.of_nat (List.length c) <= ROUTING_DEDUP_MAX_KEYS -> evictOldest c = Some c.
Proof.
  intro H. destruct c as [|[k v] c]; [reflexivity|]. cbn [evictOldest].
  apply Z.ltb_ge in H. now rewrite H.
Qed.

Lemma filter_keeps_all {A : Type} (f : A -> bool) (l : list A) :
  Forall (fun x => f x = true) l -> filter f l = l.
Proof.
  induction 1 as [|x l Hx _ IH]; [reflexivity|]. cbn [filter]. now rewrite Hx, IH.
Qed.






(* ------------------------------------------------------------------ *)
(** ** Two calls in flight *)
(* ------------------------------------------------------------------ *)

(** Run on its own, a call is its three steps in a row. *)
Lemma stepCall_thrice (e : Env) (fromAgentId toAgentId : jsstring) (meta : DedupMeta)
    (ttlMs : Z) (p : Process) (t : Table) :
  let st := stepCall e fromAgentId toAgentId meta ttlMs in
  let '(c1, p1, t1) := st NotStarted p t in
  let '(c2, p2, t2) := st c1 p1 t1 in
  let '(c3, p3, t3) := st c2 p2 t2 in
  (c3, p3, t3)
  = let '(out, p', t') := checkAndRecordDedup e fromAgentId toAgentId meta ttlMs p t in
    (Done out, p', t').
Proof.
  cbn zeta. unfold checkAndRecordDedup. cbn [stepCall].
  destruct (checkStart e fromAgentId toAgentId meta ttlMs p) as [[out|key row] p1].
  - reflexivity.
  - cbn [stepCall]. destruct (insertOnConflictDoNothing _ _ _) as [q t']. cbn [stepCall].
    destruct (checkResume _ _ _ _) as [res p2]. reflexivity.
Qed.

Section OneCall.

Variables (e : Env) (fromAgentId toAgentId : jsstring) (meta : DedupMeta) (ttlMs : Z).

Let key := buildDedupKey fromAgentId toAgentId meta.
Let row := newRow e fromAgentId toAgentId meta ttlMs.
Let pend := pending e fromAgentId toAgentId meta ttlMs.
Let win := winner e fromAgentId toAgentId meta ttlMs.
Let lose := loser fromAgentId toAgentId meta.

Lemma stepCall_phase (c c' : CallState) (p p' : Process) (t t' : Table) :
  stepCall e fromAgentId toAgentId meta ttlMs c p t = (c', p', t') ->
  (Nat.min 3 (S (phase c)) <= phase c')%nat.
Proof.
  destruct c as [|k r|k q|out]; cbn [stepCall].
  - destruct (checkStart _ _ _ _ _ _) as [[out|k r] p1]; intro H; injection H as <- _ _;
      cbn; lia.
  - destruct (insertOnConflictDoNothing _ _ _). intro H. injection H as <- _ _. cbn. lia.
  - destruct (checkResume _ _ _ _). intro H. injection H as <- _ _. cbn. lia.
  - intro H. injection H as <- _ _. cbn. lia.
Qed.

Lemma checkStart_cases (p : Process) (db : DbAdapter) :
  cacheOk (inMemoryCache p) ->
  _db p = Some db ->
  JS.validTime (nowMs e + ttlMs) = true ->
  exists c,
    evictExpired (nowMs e) (inMemoryCache p) = Some c
    /\ ((exists seenAt,
           cacheGet key c = Some seenAt
           /\ checkStart e fromAgentId toAgentId meta ttlMs p
              = (Finished (Returned (mkResult true (Some (l1Reason (nowMs e) seenAt)))),
                 withCache p c))
        \/ checkStart e fromAgentId toAgentId meta ttlMs p
           = (Querying key row, withCache p c)).
Proof.
  intros Ok D V. destruct (evictExpired_ends (nowMs e) _ Ok) as [c E]. exists c.
  split; [exact E|]. unfold checkStart. rewrite E. fold key. cbn [withCache _db].
  rewrite D, V. destruct (cacheGet key c) as [seenAt|]; [|now right].
  destruct (nowMs e - seenAt <=? ttlMs); [left; eauto|now right].
Qed.

Lemma checkResume_process (q : QueryResult jsstring) (p p' : Process)
    (res : DedupCheckResult) :
  cacheOk (inMemoryCache p) ->
  checkResume (nowMs e) key q p = (res, p') ->
  cacheOk (inMemoryCache p') /\ _db p' = _db p.
Proof.
  intros Ok C. pose proof (cacheOk_set key (nowMs e) _ (buildDedupKey_truthy _ _ _) Ok) as S.
  unfold checkResume in C. destruct q as [rows|m].
  - destruct (List.length rows =? 0)%nat; injection C as _ <-; now split.
  - injection C as _ <-. now split.
Qed.

(** One step of a call that the database answers. *)
Lemma stepCall_inv (c c' : CallState) (p p' : Process) (t t' : Table) (db : DbAdapter) :
  cacheOk (inMemoryCache p) ->
  _db p = Some db ->
  dbError e = None ->
  JS.validTime (nowMs e + ttlMs) = true ->
  stepCall e fromAgentId toAgentId meta ttlMs c p t = (c', p', t') ->
  (pend c \/ win c \/ lose c -> cacheOk (inMemoryCache p') /\ _db p' = Some db)
  /\ (recorded fromAgentId toAgentId meta t = false ->
      cacheGet key (inMemoryCache p) = None -> freshId e t -> pend c ->
      (t' = t /\ pend c' /\ cacheGet key (inMemoryCache p') = None)
      \/ (t' = t ++ [row] /\ win c' /\ p' = p))
  /\ (recorded fromAgentId toAgentId meta t = true -> pend c \/ lose c ->
      t' = t /\ (pend c' \/ lose c'))
  /\ (win c -> t' = t /\ win c').
Proof.
  intros Ok D Er V H.
  destruct c as [|k r|k q|out]; cbn [stepCall] in H.
  - (* the synchronous first part *)
    destruct (checkStart_cases p db Ok D V) as [c [E [[seenAt [G S]]|S]]];
      rewrite S in H; injection H as <- <- <-; cbn [withCache inMemoryCache _db];
      pose proof (evictExpired_ok _ _ _ Ok E) as Okc.
    + split; [now split|]. split; [|split].
      * intros _ G0 _ _. apply (evictExpired_miss _ key _ _ Ok E) in G0. congruence.
      * intros _ _. split; [reflexivity|]. right. right. eexists. split; [reflexivity|].
        eexists. split; reflexivity.
      * intros [W|W]; discriminate.
    + split; [now split|]. split; [|split].
      * intros _ G0 _ _. left. split; [reflexivity|]. split; [now right|].
        apply (evictExpired_miss _ key _ _ Ok E G0).
      * intros _ _. split; [reflexivity|]. left. now right.
      * intros [W|W]; discriminate.
  - (* the insert, in the database *)
    split; [|split; [|split]].
    + intros _. destruct (insertOnConflictDoNothing _ _ _). injection H as _ <- _.
      now split.
    + intros R _ Fr [P|P]; [discriminate|]. injection P as -> ->.
      unfold row in H. rewrite insert_fresh in H by assumption.
      injection H as <- <- <-. right. split; [reflexivity|]. split; [now left|reflexivity].
    + intros R [[P|P]|[L|[out [L _]]]]; try discriminate. injection P as -> ->.
      unfold row in H. rewrite insert_conflict in H by assumption.
      injection H as <- <- <-. split; [reflexivity|]. right. now left.
    + intros [W|W]; discriminate.
  - (* the continuation *)
    destruct (checkResume (nowMs e) k q p) as [res p2] eqn:C.
    injection H as <- <- <-. split; [|split; [|split]].
    + intros K. assert (Hk : k = key).
      { destruct K as [[K|K]|[[K|K]|[K|[out [K _]]]]]; try discriminate;
          now injection K. }
      subst k. destruct (checkResume_process q p p2 res Ok C) as [O2 D2].
      split; [exact O2|congruence].
    + intros _ _ _ [P|P]; discriminate.
    + intros _ [[P|P]|[L|[out [L _]]]]; try discriminate. injection L as -> ->.
      cbn in C. injection C as <- _. split; [reflexivity|]. right. right.
      eexists. split; [reflexivity|]. eexists. split; reflexivity.
    + intros [W|W]; [|discriminate]. injection W as -> ->.
      cbn in C. injection C as <- _. split; [reflexivity|]. now right.
  - (* over *)
    injection H as <- <- <-. split; [|split; [|split]].
    + intros _. now split.
    + intros _ _ _ [P|P]; discriminate.
    + intros _ K. split; [reflexivity|exact K].
    + intros W. split; [reflexivity|exact W].
Qed.

End OneCall.

Section RaceInvariant.

Variables (shared : bool) (e1 e2 : Env).
Variables (fromAgentId toAgentId : jsstring) (meta : DedupMeta) (ttlMs : Z).
Variables (db1 db2 : DbAdapter).

Let key := buildDedupKey fromAgentId toAgentId meta.
Let pend (e : Env) := pending e fromAgentId toAgentId meta ttlMs.
Let win (e : Env) := winner e fromAgentId toAgentId meta ttlMs.
Let lose := loser fromAgentId toAgentId meta.
Let rec (t : Table) := recorded fromAgentId toAgentId meta t.
Let cases := raceCases fromAgentId toAgentId meta ttlMs.
Let inv := raceInv e1 e2 fromAgentId toAgentId meta ttlMs db1 db2.

Lemma raceCases_step (e e' : Env) (c c' o : CallState) (p p' : Process)
    (t t' : Table) (db : DbAdapter) :
  cacheOk (inMemoryCache p) ->
  _db p = Some db ->
  dbError e = None ->
  JS.validTime (nowMs e + ttlMs) = true ->
  stepCall e fromAgentId toAgentId meta ttlMs c p t = (c', p', t') ->
  cases e e' c o p t ->
  cacheOk (inMemoryCache p') /\ _db p' = Some db
  /\ cases e e' c' o p' t'
  /\ (rec t' = false -> t' = t).
Proof.
  intros Ok D Er V H Cases.
  destruct (stepCall_inv e fromAgentId toAgentId meta ttlMs c c' p p' t t' db
              Ok D Er V H) as [K [A [B C]]].
  fold key in A. destruct Cases as [[R [Pc [Po [G [F F']]]]]|[R [[Wc Po]|[Wo Pc]]]].
  - destruct (K (or_introl Pc)) as [Ok' D'].
    split; [exact Ok'|split; [exact D'|]].
    destruct (A R G F Pc) as [[-> [Pc' G']]|[-> [Wc' ->]]].
    + split; [|reflexivity]. left. repeat split; assumption.
    + split.
      * right. split; [apply recorded_after_insert|]. left. split; [exact Wc'|now left].
      * intro R'. unfold rec in R'. rewrite recorded_after_insert in R'. discriminate.
  - destruct (K (or_intror (or_introl Wc))) as [Ok' D'].
    split; [exact Ok'|split; [exact D'|]].
    destruct (C Wc) as [-> Wc']. split; [|reflexivity].
    right. split; [exact R|]. left. now split.
  - assert (Kc : pending e fromAgentId toAgentId meta ttlMs c
                 \/ winner e fromAgentId toAgentId meta ttlMs c
                 \/ loser fromAgentId toAgentId meta c).
    { destruct Pc as [Pc|Pc]; [now left|right; now right]. }
    destruct (K Kc) as [Ok' D'].
    split; [exact Ok'|split; [exact D'|]].
    destruct (B R Pc) as [-> Pc']. split; [|reflexivity].
    right. split; [exact R|]. right. now split.
Qed.

Lemma raceCases_swap (e e' : Env) (c o : CallState) (p p' : Process) (t : Table) :
  cacheGet key (inMemoryCache p') = None \/ rec t = true ->
  cases e e' c o p t -> cases e' e o c p' t.
Proof.
  intros G [[R [Pc [Po [_ [F F']]]]]|[R [X|X]]].
  - left. destruct G as [G|G]; [|unfold rec in *; cbv beta in *; congruence].
    repeat split; assumption.
  - right. split; [exact R|]. now right.
  - right. split; [exact R|]. now left.
Qed.

Hypothesis answers1 : dbError e1 = None.
Hypothesis answers2 : dbError e2 = None.
Hypothesis valid1 : JS.validTime (nowMs e1 + ttlMs) = true.
Hypothesis valid2 : JS.validTime (nowMs e2 + ttlMs) = true.

Lemma raceInv_step (w : Who) (s : System) :
  inv s ->
  inv (step shared e1 e2 fromAgentId toAgentId meta ttlMs w s).
Proof.
  intros [Ok1 [D1 [Ok2 [D2 [Cases G2]]]]]. destruct w; cbn [step].
  - destruct (stepCall e1 _ _ _ _ _ _ _) as [[c p] t] eqn:H.
    destruct (raceCases_step e1 e2 _ _ _ _ _ _ _ db1 Ok1 D1 answers1 valid1 H Cases)
      as [Ok' [D' [Cases' T]]].
    unfold inv, raceInv. cbn [proc1 proc2 table call1 call2].
    split; [exact Ok'|]. split; [exact D'|]. split; [exact Ok2|]. split; [exact D2|].
    split; [exact Cases'|].
    intro R. pose proof (T R) as ->. now apply G2.
  - destruct shared.
    + destruct (stepCall e2 _ _ _ _ _ _ _) as [[c p] t] eqn:H.
      assert (Sw : cases e2 e1 (call2 s) (call1 s) (proc1 s) (table s)).
      { apply (raceCases_swap e1 e2 _ _ (proc1 s)); [|exact Cases].
        destruct Cases as [[_ [_ [_ [G _]]]]|[R _]]; [now left|now right]. }
      destruct (raceCases_step e2 e1 _ _ _ _ _ _ _ db1 Ok1 D1 answers2 valid2 H Sw)
        as [Ok' [D' [Cases' T]]].
      unfold inv, raceInv. cbn [proc1 proc2 table call1 call2].
      split; [exact Ok'|]. split; [exact D'|]. split; [exact Ok2|]. split; [exact D2|].
      split.
      * apply (raceCases_swap e2 e1 _ _ p); [|exact Cases'].
        destruct Cases' as [[_ [_ [_ [G _]]]]|[R _]]; [now left|now right].
      * intro R. pose proof (T R) as ->. now apply G2.
    + destruct (stepCall e2 _ _ _ _ _ _ _) as [[c p] t] eqn:H.
      assert (Sw : cases e2 e1 (call2 s) (call1 s) (proc2 s) (table s)).
      { apply (raceCases_swap e1 e2 _ _ (proc1 s)); [|exact Cases].
        destruct (rec (table s)) eqn:R; [now right|left; now apply G2]. }
      destruct (raceCases_step e2 e1 _ _ _ _ _ _ _ db2 Ok2 D2 answers2 valid2 H Sw)
        as [Ok' [D' [Cases' T]]].
      unfold inv, raceInv. cbn [proc1 proc2 table call1 call2].
      split; [exact Ok1|]. split; [exact D1|]. split; [exact Ok'|]. split; [exact D'|].
      split.
      * apply (raceCases_swap e2 e1 _ _ p); [|exact Cases'].
        destruct (rec t) eqn:R; [now right|left].
        pose proof (T eq_refl) as ->.
        destruct Cases as [[_ [_ [_ [G _]]]]|[R' _]]; [exact G|].
        unfold rec in *. cbv beta in *. congruence.
      * intros R. destruct Cases' as [[_ [_ [_ [G _]]]]|[R' _]]; [exact G|].
        unfold rec in *. cbv beta in *. congruence.
Qed.

Lemma raceInv_run (schedule : list Who) (s : System) :
  inv s ->
  inv (run shared e1 e2 fromAgentId toAgentId meta ttlMs schedule s).
Proof.
  unfold run. revert s. induction schedule as [|w rest IH]; intros s I; [exact I|].
  cbn [fold_left]. apply IH. now apply raceInv_step.
Qed.

(** Every turn takes the call that moves one step further, and leaves
    the other call where it is. *)
Lemma run_phase (schedule : list Who) (s : System) :
  let s' := run shared e1 e2 fromAgentId toAgentId meta ttlMs schedule s in
  (Nat.min 3 (phase (call1 s) + turns First schedule) <= phase (call1 s'))%nat
  /\ (Nat.min 3 (phase (call2 s) + turns Second schedule) <= phase (call2 s'))%nat.
Proof.
  cbn zeta. unfold run. revert s.
  induction schedule as [|w rest IH]; intro s; cbn [fold_left].
  - unfold turns. cbn [filter List.length]. lia.
  - specialize (IH (step shared e1 e2 fromAgentId toAgentId meta ttlMs w s)).
    destruct IH as [IH1 IH2]. destruct w; cbn [step] in *.
    + destruct (stepCall e1 _ _ _ _ _ _ _) as [[c p] t] eqn:H.
      apply stepCall_phase in H. cbn [call1 call2] in *.
      unfold turns in *. cbn [filter List.length] in *. lia.
    + destruct shared;
        destruct (stepCall e2 _ _ _ _ _ _ _) as [[c p] t] eqn:H;
        apply stepCall_phase in H; cbn [call1 call2] in *;
        unfold turns in *; cbn [filter List.length] in *; lia.
Qed.

End RaceInvariant.

Lemma phase_done (c : CallState) : (3 <= phase c)%nat -> exists out, c = Done out.
Proof. destruct c; cbn; intro H; try lia. eauto. Qed.

(** C10: two calls in flight at once, in one process or in two.  With
    no record of the fingerprint in any tier when they start and the
    database answering both, however their steps interleave, one call
    returns a non-duplicate and the other a duplicate. *)
Theorem C10_race_has_one_winner
    (shared : bool) (e1 e2 : Env) (fromAgentId toAgentId : jsstring)
    (meta : DedupMeta) (ttlMs : Z) (p1 p2 : Process) (t : Table)
    (db1 db2 : DbAdapter) (schedule : list Who) :
  cacheOk (inMemoryCache p1) -> cacheOk (inMemoryCache p2) ->
  _db p1 = Some db1 -> _db p2 = Some db2 ->
  recorded fromAgentId toAgentId meta t = false ->
  cacheGet (buildDedupKey fromAgentId toAgentId meta) (inMemoryCache p1) = None ->
  cacheGet (buildDedupKey fromAgentId toAgentId meta) (inMemoryCache p2) = None ->
  dbError e1 = None -> dbError e2 = None ->
  freshId e1 t -> freshId e2 t ->
  JS.validTime (nowMs e1 + ttlMs) = true -> JS.validTime (nowMs e2 + ttlMs) = true ->
  (3 <= turns First schedule)%nat -> (3 <= turns Second schedule)%nat ->
  exists out1 out2,
    let final := run shared e1 e2 fromAgentId toAgentId meta ttlMs schedule
                   (mkSystem p1 p2 t NotStarted NotStarted) in
    call1 final = Done out1 /\ call2 final = Done out2
    /\ ((out1 = newOutcome /\ isDuplicateOutcome out2)
        \/ (isDuplicateOutcome out1 /\ out2 = newOutcome)).
Proof.
  intros Ok1 Ok2 D1 D2 R G1 G2 A1 A2 F1 F2 V1 V2 T1 T2.
  set (s0 := mkSystem p1 p2 t NotStarted NotStarted).
  assert (I0 : raceInv e1 e2 fromAgentId toAgentId meta ttlMs db1 db2 s0).
  { unfold raceInv, s0. cbn [proc1 proc2 table call1 call2].
    split; [exact Ok1|]. split; [exact D1|]. split; [exact Ok2|]. split; [exact D2|].
    split; [|intros _; exact G2]. left.
    split; [exact R|]. split; [now left|]. split; [now left|]. now repeat split. }
  pose proof (raceInv_run shared e1 e2 fromAgentId toAgentId meta ttlMs db1 db2
                A1 A2 V1 V2 schedule s0 I0) as I.
  pose proof (run_phase shared e1 e2 fromAgentId toAgentId meta ttlMs schedule s0) as P.
  cbn zeta in P. destruct P as [P1 P2]. cbn [s0 call1 call2 phase] in P1, P2.
  set (final := run shared e1 e2 fromAgentId toAgentId meta ttlMs schedule s0) in *.
  destruct (phase_done (call1 final)) as [out1 C1]; [lia|].
  destruct (phase_done (call2 final)) as [out2 C2]; [lia|].
  exists out1, out2. cbn zeta. fold s0. fold final.
  split; [exact C1|]. split; [exact C2|].
  destruct I as [_ [_ [_ [_ [Cases _]]]]]. rewrite C1, C2 in Cases.
  destruct Cases as [[_ [[X|X] _]]|[_ [[[W|W] [[X|X]|[X|[o [X Du]]]]]
                                     |[[W|W] [[X|X]|[X|[o [X Du]]]]]]]];
    try discriminate.
  - left. injection W as ->. injection X as ->. now split.
  - right. injection W as ->. injection X as ->. now split.
Qed.

Lemma C10_race_has_one_winner_witness :
  exists out1 out2,
    let final := run true envT envOther alice bob meta0 ROUTING_DEDUP_TTL_MS
                   [First; Second; Second; First; Second; First]
                   (mkSystem started started [] NotStarted NotStarted) in
    call1 final = Done out1 /\ call2 final = Done out2
    /\ ((out1 = newOutcome /\ isDuplicateOutcome out2)
        \/ (isDuplicateOutcome out1 /\ out2 = newOutcome)).
Proof.
  apply (C10_race_has_one_winner true envT envOther alice bob meta0 ROUTING_DEDUP_TTL_MS
           started started [] Adapter Adapter
           [First; Second; Second; First; Second; First]);
    try apply cacheOk_nil; try reflexivity; try (vm_compute; reflexivity);
    vm_compute; lia.
Defined.

(* ------------------------------------------------------------------ *)
(** ** The stopped-agent guard *)
(* ------------------------------------------------------------------ *)

Import StoppedAgentGuard.

Lemma updatesOf_app (l l' : list Call) : updatesOf (l ++ l') = updatesOf l ++ updatesOf l'.
Proof. apply flat_map_app. Qed.

Lemma In_updatesOf (a s : jsstring) (calls : list Call) :
  In (CallUpdateStatus a s) calls <-> In (a, s) (updatesOf calls).
Proof.
  unfold updatesOf. rewrite in_flat_map. split.
  - intro H. exists (CallUpdateStatus a s). split; [exact H|now left].
  - intros [c [H I]]. destruct c; cbn in I; try contradiction.
    destruct I as [I|[]]. now injection I as -> ->.
Qed.

(** Dispatch exclusion: [filterDispatchableAgents] keeps exactly the
    agents whose status is not stopped, in their order, and writes a
    line to the console exactly when it removed one. *)
Theorem filterDispatchable_excludes_stopped (agents : list AgentLight) :
  let '(kept, line) := filterDispatchableAgents agents in
  (forall a, In a kept <-> In a agents /\ status a <> Stopped)
  /\ kept = filter (fun a => negb (isStopped (status a))) agents
  /\ (line = None <-> stoppedAgents agents = [])
  /\ (line = None -> kept = agents).
Proof.
  unfold filterDispatchableAgents, stoppedAgents.
  set (f := fun a => isStopped (status a)).
  pose proof (filter_length f agents) as L.
  assert (Fe : filter f agents = [] -> filter (fun a => negb (f a)) agents = agents).
  { intro E. induction agents as [|a l IH]; [reflexivity|]. cbn [filter] in *.
    destruct (f a); [discriminate|]. cbn [negb]. f_equal. apply IH; [|exact E].
    apply filter_length. }
  split; [|split; [reflexivity|split]].
  - intro a. rewrite filter_In. unfold f.
    destruct (status a); cbn; intuition (discriminate || congruence).
  - destruct (0 <? _)%nat eqn:Z.
    + split; [discriminate|]. intro E. rewrite E in L. cbn [List.length] in L.
      apply Nat.ltb_lt in Z. unfold f in *. cbv beta in *. lia.
    + split; [|reflexivity]. intros _. apply Nat.ltb_ge in Z.
      destruct (filter f agents); [reflexivity|]. cbn [List.length] in L.
      unfold f in *. cbv beta in *. lia.
  - destruct (0 <? _)%nat eqn:Z; [discriminate|]. intros _. apply Fe.
    apply Nat.ltb_ge in Z. destruct (filter f agents); [reflexivity|].
    cbn [List.length] in L. unfold f in *. cbv beta in *. lia.
Qed.

Lemma filterDispatchable_excludes_stopped_witness :
  fst (filterDispatchableAgents [ann; bo; cy; di]) = [bo; cy; di]
  /\ snd (filterDispatchableAgents [ann; bo; cy; di]) <> None.
Proof.
  generalize (filterDispatchable_excludes_stopped [ann; bo; cy; di]).
  destruct (filterDispatchableAgents [ann; bo; cy; di]) as [kept line].
  intros [_ [K [L _]]]. split; [exact K|].
  intro N. apply L in N. discriminate.
Defined.

Section ReconcileProof.

Variable World : Type.
Variable updateAgentStatus : jsstring -> jsstring -> Async World unit.
Variable insertActivity : Activity -> Async World unit.
Variable consoleLog : jsstring -> World -> World.

Let loop :=
  reconcileLoop (World * list Call)
    (fun a s => noted (CallUpdateStatus a s) (updateAgentStatus a s))
    (fun act => noted (CallInsertActivity act) (insertActivity act))
    (fun line => unnoted (consoleLog line)).

(** The loop asks for a status update for the thinking and executing
    agents it reaches, in order, each time with ["idle"], and for no
    other; when it returns it has reached them all, and the two lists
    hold their ids and those of the stopped agents. *)
Lemma reconcileLoop_calls (agents : list AgentLight) :
  forall result wt out wt',
    loop agents result wt = (out, wt') ->
    exists reached rest,
      staleAgents agents = reached ++ rest
      /\ updatesOf (snd wt') = updatesOf (snd wt) ++ map toIdle reached
      /\ forall res, out = Returned res ->
           rest = []
           /\ reset res = reset result ++ map id (staleAgents agents)
           /\ skipped res = skipped result ++ map id (stoppedAgents agents).
Proof.
  unfold loop, staleAgents, stoppedAgents.
  induction agents as [|agent rest IH]; intros result wt out wt' H.
  - cbn in H. injection H as <- <-. exists [], []. cbn. rewrite !app_nil_r.
    repeat split. all: injection H as <-; reflexivity.
  - cbn [reconcileLoop] in H. cbn [filter].
    destruct (isStopped (status agent)) eqn:St.
    + assert (Sl : isStale (status agent) = false) by (destruct (status agent); easy).
      rewrite Sl. unfold bind, log, unnoted in H. cbn [fst snd] in H.
      apply IH in H. cbn [snd reset skipped] in H.
      destruct H as [reached [rest' [E [U R]]]]. exists reached, rest'.
      split; [exact E|]. split; [exact U|]. intros res Hres.
      destruct (R res Hres) as [-> [Rs Sk]]. split; [reflexivity|].
      split; [exact Rs|]. rewrite Sk. cbn [map]. now rewrite <- app_assoc.
    + destruct (isStale (status agent)) eqn:Sl; cbn [negb] in H.
      * unfold bind at 1 in H. unfold noted at 1 in H.
        destruct (updateAgentStatus (id agent) (JS.lit "idle") (fst wt)) as [o1 w1].
        assert (U1 : updatesOf (snd wt ++ [CallUpdateStatus (id agent) (JS.lit "idle")])
                     = updatesOf (snd wt) ++ map toIdle [agent]).
        { now rewrite updatesOf_app. }
        destruct o1 as [[]|m|].
        -- unfold bind at 1 in H. unfold noted at 1 in H. cbn [fst snd] in H.
           destruct (insertActivity (reconcileActivity agent) w1) as [o2 w2].
           destruct o2 as [[]|m|].
           ++ apply IH in H. cbn [snd reset skipped] in H.
              destruct H as [reached [rest' [E [U R]]]].
              exists (agent :: reached), rest'. split; [cbn; now rewrite E|].
              split.
              ** rewrite U, updatesOf_app, U1.
                 change (updatesOf [CallInsertActivity (reconcileActivity agent)])
                   with (@nil (jsstring * jsstring)).
                 rewrite app_nil_r. cbn [map]. now rewrite <- app_assoc.
              ** intros res Hres. destruct (R res Hres) as [-> [Rs Sk]].
                 split; [reflexivity|]. split; [|exact Sk].
                 rewrite Rs. cbn [map]. now rewrite <- app_assoc.
           ++ apply pair_equal_spec in H. destruct H as [<- <-]. exists [agent], (filter (fun a => isStale (status a)) rest).
              split; [reflexivity|]. cbn [snd]. split.
              ** rewrite updatesOf_app, U1.
                 change (updatesOf [CallInsertActivity (reconcileActivity agent)])
                   with (@nil (jsstring * jsstring)).
                 now rewrite app_nil_r.
              ** intros res Hres. discriminate.
           ++ apply pair_equal_spec in H. destruct H as [<- <-]. exists [agent], (filter (fun a => isStale (status a)) rest).
              split; [reflexivity|]. cbn [snd]. split.
              ** rewrite updatesOf_app, U1.
                 change (updatesOf [CallInsertActivity (reconcileActivity agent)])
                   with (@nil (jsstring * jsstring)).
                 now rewrite app_nil_r.
              ** intros res Hres. discriminate.
        -- apply pair_equal_spec in H. destruct H as [<- <-]. exists [agent], (filter (fun a => isStale (status a)) rest).
           split; [reflexivity|]. cbn [snd]. split; [exact U1|].
           intros res Hres. discriminate.
        -- apply pair_equal_spec in H. destruct H as [<- <-]. exists [agent], (filter (fun a => isStale (status a)) rest).
           split; [reflexivity|]. cbn [snd]. split; [exact U1|].
           intros res Hres. discriminate.
      * apply IH in H. exact H.
Qed.

End ReconcileProof.

Lemma NoDup_map_eq {A B : Type} (f : A -> B) (l : list A) (x y : A) :
  NoDup (map f l) -> In x l -> In y l -> f x = f y -> x = y.
Proof.
  induction l as [|z l IH]; [contradiction|]. cbn [map]. intros ND Hx Hy E.
  inversion ND as [|? ? N ND']; subst.
  destruct Hx as [->|Hx], Hy as [->|Hy]; [reflexivity| | |now apply IH].
  - exfalso. apply N. rewrite E. now apply in_map.
  - exfalso. apply N. rewrite <- E. now apply in_map.
Qed.

Lemma stopped_not_stale (agents : list AgentLight) (a : AgentLight) :
  NoDup (map id agents) -> In a agents -> status a = Stopped ->
  ~ In (id a) (map id (staleAgents agents)).
Proof.
  intros ND Ha St H. apply in_map_iff in H. destruct H as [b [E Hb]].
  apply filter_In in Hb. destruct Hb as [Hb Sl].
  assert (b = a) by now apply (NoDup_map_eq id agents).
  subst b. rewrite St in Sl. discriminate.
Qed.

Lemma reconcileOutcome_loop (agents reached rest : list AgentLight)
    (out : Outcome ReconcileResult) (calls : list Call) :
  staleAgents agents = reached ++ rest ->
  updatesOf calls = map toIdle reached ->
  (forall res, out = Returned res ->
     rest = []
     /\ reset res = map id (staleAgents agents)
     /\ skipped res = map id (stoppedAgents agents)) ->
  reconcileOutcome agents out calls.
Proof.
  intros E U R.
  assert (NoUpd : NoDup (map id agents) ->
    forall a s, In a agents -> status a = Stopped ->
    ~ In (CallUpdateStatus (id a) s) calls).
  { intros ND a s Ha St H. apply In_updatesOf in H. rewrite U in H.
    apply in_map_iff in H. destruct H as [b [Eb Hb]]. injection Eb as Eb _.
    apply (stopped_not_stale agents a ND Ha St). rewrite <- Eb. apply in_map.
    rewrite E. apply in_or_app. now left. }
  split; [now exists reached, rest|]. split; [exact NoUpd|].
  intros res Hres. destruct (R res Hres) as [-> [Rs Sk]].
  rewrite app_nil_r in E. rewrite <- E in U.
  split; [exact Sk|]. split; [exact Rs|]. split; [exact U|]. split.
  - intros a Ha St. split.
    + rewrite Sk. apply in_map. apply filter_In. split; [exact Ha|]. now rewrite St.
    + intro ND. rewrite Rs. now apply stopped_not_stale.
  - intros a Ha St.
    assert (Hs : In a (staleAgents agents)).
    { apply filter_In. split; [exact Ha|]. destruct St as [-> | ->]; reflexivity. }
    split.
    + rewrite Rs. now apply in_map.
    + apply In_updatesOf. rewrite U. change (id a, JS.lit "idle") with (toIdle a).
      now apply in_map.
Qed.

(** C7: whatever the callbacks do, a run of [safeReconcileOnStartup]
    asks for status updates only for thinking and executing agents, each
    to ["idle"], so for no stopped agent; and when it returns, [skipped]
    holds the id of every stopped agent, [reset] the id of every
    thinking or executing agent, each after its update to ["idle"], and
    the id of no stopped agent. *)
Theorem C7_reconcile_leaves_stopped_agents
    (World : Type)
    (updateAgentStatus : jsstring -> jsstring -> Async World unit)
    (insertActivity : Activity -> Async World unit)
    (consoleLog : jsstring -> World -> World)
    (agents : list AgentLight) (w : World) :
  let '(out, (_, calls)) :=
    watchedReconcile World updateAgentStatus insertActivity consoleLog agents (w, []) in
  (exists reached rest,
     staleAgents agents = reached ++ rest /\ updatesOf calls = map toIdle reached)
  /\ (NoDup (map id agents) ->
      forall a s, In a agents -> status a = Stopped ->
      ~ In (CallUpdateStatus (id a) s) calls)
  /\ forall res, out = Returned res ->
       skipped res = map id (stoppedAgents agents)
       /\ reset res = map id (staleAgents agents)
       /\ updatesOf calls = map toIdle (staleAgents agents)
       /\ (forall a, In a agents -> status a = Stopped ->
           In (id a) (skipped res)
           /\ (NoDup (map id agents) -> ~ In (id a) (reset res)))
       /\ (forall a, In a agents -> status a = Thinking \/ status a = Executing ->
           In (id a) (reset res)
           /\ In (CallUpdateStatus (id a) (JS.lit "idle")) calls).
Proof.
  unfold watchedReconcile, safeReconcileOnStartup, bind.
  destruct (reconcileLoop _ _ _ _ agents (mkReconcile [] []) (w, [])) as [o1 wt1] eqn:L.
  apply reconcileLoop_calls in L. cbn [snd reset skipped app] in L.
  destruct L as [reached [rest [E [U R]]]]. cbn [updatesOf flat_map app] in U.
  pose proof (reconcileOutcome_loop agents reached rest o1 (snd wt1) E U R) as C.
  destruct wt1 as [w1 calls]. cbn [snd] in C.
  destruct o1 as [res|m|]; [|exact C|exact C].
  destruct (0 <? List.length (skipped res))%nat; exact C.
Qed.

Lemma C7_reconcile_leaves_stopped_agents_witness :
  exists res calls,
    watchedReconcile Writes writeStatus dropActivity dropLine [ann; bo; cy; di] ([], [])
    = (Returned res, ([(id di, JS.lit "idle"); (id bo, JS.lit "idle")], calls))
    /\ skipped res = [id ann]
    /\ reset res = [id bo; id di]
    /\ updatesOf calls = [toIdle bo; toIdle di]
    /\ ~ In (id ann) (reset res).
Proof.
  pose proof (C7_reconcile_leaves_stopped_agents Writes writeStatus dropActivity dropLine
                [ann; bo; cy; di] []) as H.
  destruct (watchedReconcile Writes writeStatus dropActivity dropLine
              [ann; bo; cy; di] ([], [])) as [out [w calls]] eqn:E.
  vm_compute in E. injection E as <- <- <-.
  destruct H as [_ [_ H]]. destruct (H _ eq_refl) as [Sk [Rs [U [St _]]]].
  eexists. eexists. split; [reflexivity|]. split; [exact Sk|]. split; [exact Rs|].
  split; [exact U|].
  apply (St ann); [now left|reflexivity|].
  vm_compute. repeat constructor; cbn; intuition discriminate.
Defined.

(** C8: [guardedStartAgent] first fetches the agent.  It then calls the
    start operation, once, with the id it was given, and ends as that
    call ends, exactly when an agent was found whose status is not
    stopped; for a stopped agent it throws, without a start call, a
    message that names the agent and says that stopped agents must be
    restarted manually; and when no agent was found it throws at once. *)
Theorem C8_guarded_start
    (World : Type)
    (getAgent : jsstring -> Async World (option AgentLight))
    (startAgent : jsstring -> Async World unit)
    (agentId : jsstring) (w : World) :
  let '(out, (w', calls)) := watchedStart World getAgent startAgent agentId (w, []) in
  (forall agent w1,
     getAgent agentId w = (Returned (Some agent), w1) -> status agent <> Stopped ->
     (out, w') = startAgent agentId w1
     /\ calls = [CallGetAgent agentId; CallStartAgent agentId])
  /\ (forall agent w1,
        getAgent agentId w = (Returned (Some agent), w1) -> status agent = Stopped ->
        out = Threw (refusedMessage agent agentId)
        /\ w' = w1 /\ calls = [CallGetAgent agentId]
        /\ occursIn (name agent) (refusedMessage agent agentId)
        /\ occursIn agentId (refusedMessage agent agentId)
        /\ occursIn (JS.lit "Stopped agents must be manually restarted")
                    (refusedMessage agent agentId))
  /\ (forall w1,
        getAgent agentId w = (Returned None, w1) ->
        out = Threw (notFoundMessage agentId)
        /\ w' = w1 /\ calls = [CallGetAgent agentId])
  /\ (startsOf calls = [agentId]
      <-> exists agent w1,
            getAgent agentId w = (Returned (Some agent), w1) /\ status agent <> Stopped)
  /\ (startsOf calls <> [agentId] -> startsOf calls = []).
Proof.
  unfold watchedStart, guardedStartAgent, bind, noted, throw. cbn [fst snd app].
  destruct (getAgent agentId w) as [o w1] eqn:G.
  destruct o as [[agent|]|m|].
  - destruct (isStopped (status agent)) eqn:St.
    + assert (S : status agent = Stopped) by (destruct (status agent); easy).
      split; [|split; [|split; [|split]]].
      * intros a w2 E N. injection E as <- <-. contradiction.
      * intros a w2 E _. injection E as <- <-.
        split; [reflexivity|]. split; [reflexivity|]. split; [reflexivity|].
        unfold refusedMessage, occursIn. split; [|split].
        -- eexists. eexists. reflexivity.
        -- exists (JS.lit "guardedStartAgent: refusing to start stopped agent "
                   ++ name agent ++ JS.lit "("). eexists.
           rewrite <- !app_assoc. reflexivity.
        -- exists (JS.lit "guardedStartAgent: refusing to start stopped agent "
                   ++ name agent ++ JS.lit "(" ++ agentId ++ JS.lit "). ").
           exists (JS.lit ". This prevents watchdog from "
                   ++ JS.lit "auto-recovering deliberately retired agents (e.g. VzKdJ89cpXOcS7EiC_n99).").
           rewrite <- !app_assoc. reflexivity.
      * intros w2 E. discriminate.
      * cbn. split; [discriminate|]. intros [a [w2 [E N]]]. injection E as <- <-.
        contradiction.
      * reflexivity.
    + assert (S : status agent <> Stopped) by (intro S; rewrite S in St; discriminate).
      cbn [fst snd app]. destruct (startAgent agentId w1) as [o2 w2] eqn:E2.
      split; [|split; [|split; [|split]]].
      * intros a w3 E N. injection E as <- <-. rewrite E2. now split.
      * intros a w3 E N. injection E as <- <-. contradiction.
      * intros w3 E. discriminate.
      * cbn. split; [|reflexivity]. intros _. now exists agent, w1.
      * cbn. congruence.
  - split; [|split; [|split; [|split]]]; try discriminate.
    + intros w2 E. injection E as <-. now repeat split.
    + cbn. split; [discriminate|]. intros [a [w2 [E _]]]. discriminate.
    + reflexivity.
  - split; [|split; [|split; [|split]]]; try discriminate.
    + cbn. split; [discriminate|]. intros [a [w2 [E _]]]. discriminate.
    + reflexivity.
  - split; [|split; [|split; [|split]]]; try discriminate.
    + cbn. split; [discriminate|]. intros [a [w2 [E _]]]. discriminate.
    + reflexivity.
Qed.

Lemma C8_guarded_start_witness :
  watchedStart Running lookupAgent markStarted (id ann) (([ann; bo], []), [])
  = (Threw (refusedMessage ann (id ann)), (([ann; bo], []), [CallGetAgent (id ann)]))
  /\ watchedStart Running lookupAgent markStarted (id bo) (([ann; bo], []), [])
     = (Returned tt,
        (([ann; bo], [id bo]), [CallGetAgent (id bo); CallStartAgent (id bo)])).
Proof.
  split.
  - generalize (C8_guarded_start Running lookupAgent markStarted (id ann) ([ann; bo], [])).
    match goal with
    | |- (let '(_, _) := ?run in _) -> _ => destruct run as [out [w calls]]
    end.
    intros [_ [H _]].
    destruct (H ann ([ann; bo], []) eq_refl eq_refl) as [-> [-> [-> _]]]. reflexivity.
  - generalize (C8_guarded_start Running lookupAgent markStarted (id bo) ([ann; bo], [])).
    match goal with
    | |- (let '(_, _) := ?run in _) -> _ => destruct run as [out [w calls]]
    end.
    intros [H _].
    destruct (H bo ([ann; bo], []) eq_refl) as [E ->]; [discriminate|].
    injection E as -> ->. reflexivity.
Defined.

(* ------------------------------------------------------------------ *)
(** ** Fingerprints and white space *)
(* ------------------------------------------------------------------ *)

Import MessageDedup.




(* ------------------------------------------------------------------ *)
(** ** More of the dedup store *)
(* ------------------------------------------------------------------ *)

Section DedupStore.

Import PersistentDedup.

(** [getDb] is called outside every [try] block.  In a process with no
    adapter registered, [loadStartupDedupGuard] and [pruneExpiredDedup]
    throw and change nothing, and a [checkAndRecordDedup] that misses
    the fast tier throws after its sweep: it does not fail open, and
    what the database would have answered plays no part. *)
Theorem operations_without_adapter (e : Env) (p : Process) (t : Table) :
  _db p = None ->
  (forall windowMs, loadStartupDedupGuard e windowMs p t = (Threw notRegistered, p))
  /\ pruneExpiredDedup e p t = (Threw notRegistered, p, t)
  /\ (forall fromAgentId toAgentId meta ttlMs c,
        evictExpired (nowMs e) (inMemoryCache p) = Some c ->
        l1Miss e fromAgentId toAgentId meta ttlMs c ->
        checkAndRecordDedup e fromAgentId toAgentId meta ttlMs p t
        = (Threw notRegistered, withCache p c, t)).
Proof.
  intro D. split; [|split].
  - intro windowMs. unfold loadStartupDedupGuard. now rewrite D.
  - unfold pruneExpiredDedup. now rewrite D.
  - intros fromAgentId toAgentId meta ttlMs c E M.
    unfold checkAndRecordDedup, checkStart. rewrite E. cbn [withCache _db]. rewrite D.
    destruct (cacheGet _ c) as [seenAt|] eqn:G; [|reflexivity].
    specialize (M _ G). apply Z.leb_gt in M. now rewrite M.
Qed.

Lemma operations_without_adapter_witness :
  loadStartupDedupGuard envT ROUTING_DEDUP_TTL_MS bare [liveRow] = (Threw notRegistered, bare)
  /\ pruneExpiredDedup envT bare [liveRow] = (Threw notRegistered, bare, [liveRow])
  /\ checkAndRecordDedup envDown alice bob meta0 ROUTING_DEDUP_TTL_MS bare [liveRow]
     = (Threw notRegistered, bare, [liveRow]).
Proof.
  destruct (operations_without_adapter envT bare [liveRow] eq_refl) as [L [P _]].
  destruct (operations_without_adapter envDown bare [liveRow] eq_refl) as [_ [_ C]].
  split; [apply L|]. split; [exact P|].
  apply (C alice bob meta0 ROUTING_DEDUP_TTL_MS []); [reflexivity|].
  intros seenAt H. discriminate.
Defined.

Lemma NoDup_map_filter {A B : Type} (f : A -> B) (k : A -> bool) (l : list A) :
  NoDup (map f l) -> NoDup (map f (filter k l)).
Proof.
  induction l as [|x l IH]; [constructor|]. cbn [map]. intro ND.
  inversion ND as [|? ? N ND']; subst. cbn [filter]. destruct (k x); [|now apply IH].
  cbn [map]. constructor; [|now apply IH].
  intro H. apply N. apply in_map_iff in H. destruct H as [y [E Hin]].
  apply filter_In in Hin. apply in_map_iff. exists y. tauto.
Qed.

Lemma cacheGet_filter_keeps (f : jsstring * Z -> bool) (key : jsstring) (v : Z) (c : Cache) :
  NoDup (map fst c) -> cacheGet key c = Some v -> f (key, v) = true ->
  cacheGet key (filter f c) = Some v.
Proof.
  intros ND G F. apply In_cacheGet; [now apply NoDup_map_filter|].
  apply filter_In. split; [now apply cacheGet_In|exact F].
Qed.

(** A sweep of a cache within the limit keeps every entry no older
    than 72 hours. *)
Lemma evictExpired_keeps (nowMs : Z) (key : jsstring) (v : Z) (c : Cache) :
  NoDup (map fst c) ->
  Z.of_nat (List.length c) <= ROUTING_DEDUP_MAX_KEYS ->
  cacheGet key c = Some v ->
  nowMs - v <= ROUTING_DEDUP_TTL_MS ->
  exists c', evictExpired nowMs c = Some c' /\ cacheGet key c' = Some v.
Proof.
  intros ND B G L. unfold evictExpired.
  set (f := fun kv : jsstring * Z => negb (ROUTING_DEDUP_TTL_MS <? nowMs - snd kv)).
  exists (filter f c). split.
  - apply evictOldest_within. pose proof (filter_length_le f c). lia.
  - apply cacheGet_filter_keeps; [exact ND|exact G|].
    unfold f. cbn [snd]. apply Z.ltb_ge in L. now rewrite L.
Qed.

(** A fast-tier hit reads and does not write.  When the key is in a
    fast tier that is within its limit, seen no longer ago than [ttlMs]
    and than the 72 hours of the sweep, the call returns a duplicate
    with the L1 reason, and the entry keeps the time it was first seen:
    hits do not extend the window.  The table and the console are left
    as they were, and neither the adapter nor the database is used. *)
Theorem fast_tier_hit_is_read_only
    (e : Env) (fromAgentId toAgentId : jsstring) (meta : DedupMeta) (ttlMs : Z)
    (p : Process) (t : Table) (seenAt : Z) :
  cacheOk (inMemoryCache p) ->
  Z.of_nat (List.length (inMemoryCache p)) <= ROUTING_DEDUP_MAX_KEYS ->
  cacheGet (buildDedupKey fromAgentId toAgentId meta) (inMemoryCache p) = Some seenAt ->
  nowMs e - seenAt <= ttlMs ->
  nowMs e - seenAt <= ROUTING_DEDUP_TTL_MS ->
  exists p',
    checkAndRecordDedup e fromAgentId toAgentId meta ttlMs p t
    = (Returned (mkResult true (Some (l1Reason (nowMs e) seenAt))), p', t)
    /\ cacheGet (buildDedupKey fromAgentId toAgentId meta) (inMemoryCache p') = Some seenAt
    /\ console p' = console p
    /\ _db p' = _db p.
Proof.
  intros Ok B G L L72.
  destruct (evictExpired_keeps (nowMs e) _ seenAt _ (proj1 Ok) B G L72) as [c [E Gc]].
  exists (withCache p c). split; [|now repeat split].
  now apply check_l1_hit.
Qed.

Lemma fast_tier_hit_is_read_only_witness :
  exists p',
    checkAndRecordDedup envSoonDown alice bob meta0 ROUTING_DEDUP_TTL_MS
      (mkProcess None [(key0, timeT)] []) []
    = (Returned (mkResult true (Some (l1Reason (timeT + 1000) timeT))), p', [])
    /\ cacheGet key0 (inMemoryCache p') = Some timeT
    /\ console p' = []
    /\ _db p' = None.
Proof.
  apply (fast_tier_hit_is_read_only envSoonDown alice bob meta0 ROUTING_DEDUP_TTL_MS
           (mkProcess None [(key0, timeT)] []) [] timeT).
  - split; [repeat constructor; intros []|repeat constructor].
  - vm_compute. discriminate.
  - vm_compute. reflexivity.
  - vm_compute. discriminate.
  - vm_compute. discriminate.
Defined.

(** The key of the fast tier tells task ids and sequence numbers
    apart, the unique index does not.  Once a message is recorded, a
    message of the same sender, recipient and content hash under
    another task id or sequence number, whose key is new to the fast
    tier, meets the row of the first in the database and is returned as
    a duplicate; the table keeps the one row. *)
Theorem same_hash_other_task_is_duplicate
    (e1 e2 : Env) (fromAgentId toAgentId : jsstring) (meta meta' : DedupMeta)
    (ttlMs : Z) (p : Process) (t : Table) (db : DbAdapter) :
  cacheOk (inMemoryCache p) ->
  _db p = Some db ->
  recorded fromAgentId toAgentId meta t = false ->
  cacheGet (buildDedupKey fromAgentId toAgentId meta) (inMemoryCache p) = None ->
  cacheGet (buildDedupKey fromAgentId toAgentId meta') (inMemoryCache p) = None ->
  dbError e1 = None -> freshId e1 t -> JS.validTime (nowMs e1 + ttlMs) = true ->
  dbError e2 = None -> JS.validTime (nowMs e2 + ttlMs) = true ->
  eventHash meta' = eventHash meta ->
  buildDedupKey fromAgentId toAgentId meta' <> buildDedupKey fromAgentId toAgentId meta ->
  let '(out1, p1, t1) := checkAndRecordDedup e1 fromAgentId toAgentId meta ttlMs p t in
  let '(out2, p2, t2) := checkAndRecordDedup e2 fromAgentId toAgentId meta' ttlMs p1 t1 in
  out1 = Returned (mkResult false None)
  /\ t1 = t ++ [newRow e1 fromAgentId toAgentId meta ttlMs]
  /\ out2 = Returned (mkResult true (Some conflictReason))
  /\ t2 = t1.
Proof.
  intros Ok D R G G' Er1 Fr V1 Er2 V2 H N.
  destruct (evictExpired_ends (nowMs e1) _ Ok) as [c1 E1].
  pose proof (evictExpired_ok _ _ _ Ok E1) as Ok1.
  rewrite (check_l1_miss e1 fromAgentId toAgentId meta ttlMs p t c1 db E1);
    [|intros s Hs; rewrite (evictExpired_miss _ _ _ _ Ok E1 G) in Hs; discriminate
     |exact D|exact V1].
  rewrite insert_fresh; [|exact Er1|exact R|exact Fr].
  cbn [checkResume List.length Nat.eqb].
  set (p1 := withCache (withCache p c1) _).
  assert (Okp1 : cacheOk (inMemoryCache p1)).
  { apply cacheOk_set; [apply buildDedupKey_truthy|exact Ok1]. }
  destruct (evictExpired_ends (nowMs e2) _ Okp1) as [c2 E2].
  assert (G1 : cacheGet (buildDedupKey fromAgentId toAgentId meta') (inMemoryCache p1) = None).
  { unfold p1. cbn [withCache inMemoryCache]. rewrite cacheGet_set_other by exact N.
    exact (evictExpired_miss _ _ _ _ Ok E1 G'). }
  rewrite (check_l1_miss e2 fromAgentId toAgentId meta' ttlMs p1 _ c2 db E2);
    [|intros s Hs; rewrite (evictExpired_miss _ _ _ _ Okp1 E2 G1) in Hs; discriminate
     |exact D|exact V2].
  rewrite insert_conflict; [|exact Er2|].
  - cbn. repeat split.
  - unfold recorded. rewrite H.
    apply (recorded_after_insert e1 fromAgentId toAgentId meta ttlMs t).
Qed.

Lemma same_hash_other_task_is_duplicate_witness :
  let '(out1, p1, t1) :=
    checkAndRecordDedup envT alice bob (metaTask "t1") ROUTING_DEDUP_TTL_MS started [] in
  let '(out2, p2, t2) :=
    checkAndRecordDedup envSoon alice bob (metaTask "t2") ROUTING_DEDUP_TTL_MS p1 t1 in
  out1 = Returned (mkResult false None)
  /\ t1 = [] ++ [newRow envT alice bob (metaTask "t1") ROUTING_DEDUP_TTL_MS]
  /\ out2 = Returned (mkResult true (Some conflictReason))
  /\ t2 = t1.
Proof.
  apply (same_hash_other_task_is_duplicate envT envSoon alice bob
           (metaTask "t1") (metaTask "t2") ROUTING_DEDUP_TTL_MS started [] Adapter);
    try reflexivity; try apply cacheOk_nil.
  vm_compute. discriminate.
Defined.

Lemma split_at_first (c : N) (a a' b b' : jsstring) :
  free c a -> free c a' -> a ++ c :: b = a' ++ c :: b' -> a = a' /\ b = b'.
Proof.
  unfold free. revert a'. induction a as [|x a IH]; intros [|y a'] F F' H; cbn [app] in H.
  - injection H as ->. now split.
  - injection H as <- _. exfalso. apply F'. now left.
  - injection H as -> _. exfalso. apply F. now left.
  - injection H as -> H. destruct (IH a') as [-> ->]; try assumption.
    + intro I. apply F. now right.
    + intro I. apply F'. now right.
    + now split.
Qed.

Lemma snoc_cons {A : Type} (a : list A) (x : A) (b : list A) :
  a ++ x :: b = (a ++ [x]) ++ b.
Proof. now rewrite <- app_assoc. Qed.

(** Keys do not collide across routes.  When the senders hold no [>]
    and the recipients, task ids and content hashes no [|], two equal
    keys have the same sender, recipient and content hash, and the same
    task id and sequence number up to the default: an absent one and
    the string ["none"] give the same key. *)
Theorem buildDedupKey_injective
    (fromAgentId fromAgentId' toAgentId toAgentId' : jsstring) (meta meta' : DedupMeta) :
  free greaterThan fromAgentId -> free greaterThan fromAgentId' ->
  free verticalBar toAgentId -> free verticalBar toAgentId' ->
  free verticalBar (JS.nullish (taskId meta) (JS.lit "none")) ->
  free verticalBar (JS.nullish (taskId meta') (JS.lit "none")) ->
  free verticalBar (eventHash meta) -> free verticalBar (eventHash meta') ->
  buildDedupKey fromAgentId toAgentId meta = buildDedupKey fromAgentId' toAgentId' meta' ->
  fromAgentId = fromAgentId' /\ toAgentId = toAgentId'
  /\ JS.nullish (taskId meta) (JS.lit "none") = JS.nullish (taskId meta') (JS.lit "none")
  /\ eventHash meta = eventHash meta'
  /\ JS.nullish (seq meta) (JS.lit "none") = JS.nullish (seq meta') (JS.lit "none").
Proof.
  intros F F' T T' K K' H H' E. unfold buildDedupKey in E.
  set (task := JS.nullish (taskId meta) (JS.lit "none")) in *.
  set (task' := JS.nullish (taskId meta') (JS.lit "none")) in *.
  set (sq := JS.nullish (seq meta) (JS.lit "none")) in *.
  set (sq' := JS.nullish (seq meta') (JS.lit "none")) in *.
  change (JS.lit "->") with ([45%N] ++ [greaterThan]) in E.
  change (JS.lit "|task:") with (verticalBar :: JS.lit "task:") in E.
  change (JS.lit "|hash:") with (verticalBar :: JS.lit "hash:") in E.
  change (JS.lit "|seq:") with (verticalBar :: JS.lit "seq:") in E.
  rewrite <- !app_assoc in E. cbn [app] in E.
  rewrite (snoc_cons fromAgentId), (snoc_cons fromAgentId') in E.
  apply split_at_first in E.
  2,3: unfold free in *; intro I; apply in_app_or in I; destruct I as [I|[I|[]]];
       [tauto|discriminate].
  destruct E as [E1 E]. apply app_inj_tail in E1. destruct E1 as [-> _].
  apply split_at_first in E; [|exact T|exact T'].
  destruct E as [-> E].
  change (JS.lit "task:" ++ task ++ verticalBar :: JS.lit "hash:" ++ eventHash meta
            ++ verticalBar :: JS.lit "seq:" ++ sq
          = JS.lit "task:" ++ task' ++ verticalBar :: JS.lit "hash:" ++ eventHash meta'
            ++ verticalBar :: JS.lit "seq:" ++ sq') in E.
  apply app_inv_head in E.
  apply split_at_first in E; [|exact K|exact K'].
  destruct E as [Et E]. apply app_inv_head in E.
  apply split_at_first in E; [|exact H|exact H'].
  destruct E as [Eh E]. apply app_inv_head in E.
  now repeat split.
Qed.

Lemma free_check (c : N) (s : jsstring) :
  forallb (fun x => negb (x =? c)%N) s = true -> free c s.
Proof.
  intros H I. rewrite forallb_forall in H. specialize (H c I).
  now rewrite N.eqb_refl in H.
Qed.

Lemma buildDedupKey_injective_witness :
  buildDedupKey alice bob meta0 = buildDedupKey alice bob metaNamedNone
  /\ JS.nullish (taskId meta0) (JS.lit "none")
     = JS.nullish (taskId metaNamedNone) (JS.lit "none").
Proof.
  assert (E : buildDedupKey alice bob meta0 = buildDedupKey alice bob metaNamedNone)
    by reflexivity.
  split; [exact E|].
  apply (buildDedupKey_injective alice alice bob bob meta0 metaNamedNone);
    try (apply free_check; vm_compute; reflexivity).
  exact E.
Defined.

Lemma filter_filter_implied {A : Type} (g k : A -> bool) (l : list A) :
  (forall x, g x = true -> k x = true) -> filter g (filter k l) = filter g l.
Proof.
  intro H. induction l as [|x l IH]; [reflexivity|]. cbn [filter].
  destruct (k x) eqn:K; cbn [filter]; destruct (g x) eqn:G; try now rewrite IH.
  apply H in G. congruence.
Qed.

Lemma length_filter_neg {A : Type} (f : A -> bool) (l : list A) :
  List.length (filter f l)
  = (List.length l - List.length (filter (fun x => negb (f x)) l))%nat.
Proof. pose proof (filter_length f l). lia. Qed.

(** Pruning with a working database returns the number of rows it
    deleted, keeps exactly the rows with [expires_at >= NOW()], in
    their order, and leaves the process as it was.  What the startup
    guard reads at that database time or later is the same before and
    after, and a second prune at that database time or earlier deletes
    nothing. *)
Theorem prune_keeps_what_the_guard_reads (e : Env) (p : Process) (t : Table) (db : DbAdapter) :
  _db p = Some db -> dbError e = None ->
  let '(out, p1, t1) := pruneExpiredDedup e p t in
  out = Returned (List.length t - List.length t1)%nat
  /\ p1 = p
  /\ (forall r, In r t1 <-> In r t /\ dbNow e <= expires_at r)
  /\ (forall eGuard windowMs, dbNow e <= dbNow eGuard ->
        loadStartupDedupGuard eGuard windowMs p1 t1
        = loadStartupDedupGuard eGuard windowMs p t)
  /\ (forall e', dbError e' = None -> dbNow e' <= dbNow e ->
        pruneExpiredDedup e' p1 t1 = (Returned 0%nat, p1, t1)).
Proof.
  intros D Er. unfold pruneExpiredDedup. rewrite D, Er.
  split; [|split; [reflexivity|split; [|split]]].
  - f_equal. apply length_filter_neg.
  - intro r. rewrite filter_In.
    destruct (Z.ltb_spec (expires_at r) (dbNow e)); cbn [negb]; intuition (lia || discriminate).
  - intros eGuard windowMs L. unfold loadStartupDedupGuard, selectLiveRows.
    rewrite filter_filter_implied; [reflexivity|].
    intros r H. apply andb_prop in H. destruct H as [H _]. apply Z.ltb_lt in H.
    apply negb_true_iff. apply Z.ltb_ge. lia.
  - intros e' Er' L. rewrite D, Er'.
    assert (K : forall r, negb (expires_at r <? dbNow e) = true ->
                          negb (expires_at r <? dbNow e') = true).
    { intros r H. apply negb_true_iff in H. apply Z.ltb_ge in H.
      apply negb_true_iff. apply Z.ltb_ge. lia. }
    rewrite (filter_keeps_all (fun r => negb (expires_at r <? dbNow e'))).
    + rewrite length_filter_neg.
      rewrite (filter_keeps_all (fun r => negb (expires_at r <? dbNow e'))).
      * now rewrite Nat.sub_diag.
      * apply Forall_forall. intros r H. apply filter_In in H. now apply K.
    + apply Forall_forall. intros r H. apply filter_In in H. now apply K.
Qed.

Lemma prune_keeps_what_the_guard_reads_witness :
  let '(out, p1, t1) := pruneExpiredDedup envT started [expiredRow; liveRow] in
  out = Returned 1%nat /\ t1 = [liveRow]
  /\ loadStartupDedupGuard envSoon ROUTING_DEDUP_TTL_MS p1 t1
     = loadStartupDedupGuard envSoon ROUTING_DEDUP_TTL_MS started [expiredRow; liveRow]
  /\ pruneExpiredDedup envT p1 t1 = (Returned 0%nat, p1, t1).
Proof.
  generalize (prune_keeps_what_the_guard_reads envT started [expiredRow; liveRow] Adapter
                eq_refl eq_refl).
  destruct (pruneExpiredDedup envT started [expiredRow; liveRow]) as [[out p1] t1] eqn:E.
  intros [O [P [_ [G R]]]].
  vm_compute in E. injection E as <- <- <-.
  split; [reflexivity|]. split; [reflexivity|]. split.
  - apply G. vm_compute. discriminate.
  - apply R; [reflexivity|]. vm_compute. discriminate.
Defined.

Lemma existsb_false_not_In {A B : Type} (proj : A -> B) (test : A -> bool) (y : B) (l : list A) :
  (forall x, proj x = y -> test x = true) ->
  existsb test l = false -> ~ In y (map proj l).
Proof.
  intros T E I. apply in_map_iff in I. destruct I as [x [P Hin]].
  assert (X : existsb test l = true) by (apply existsb_exists; exists x; auto).
  congruence.
Qed.

Lemma NoDup_snoc {A : Type} (l : list A) (x : A) :
  NoDup l -> ~ In x l -> NoDup (l ++ [x]).
Proof.
  intros ND N. apply NoDup_app; [exact ND|repeat constructor; intros []|].
  intros a Ha [<-|[]]. contradiction.
Qed.

Lemma insert_keeps_constraints (dbError : option jsstring) (row : DedupRow) (t : Table) :
  tableOk t ->
  let '(q, t') := insertOnConflictDoNothing dbError row t in
  tableOk t'
  /\ ((t' = t /\ q <> QueryRows [PersistentDedup.id row])
      \/ (t' = t ++ [row] /\ q = QueryRows [PersistentDedup.id row]
          /\ existsb (sameRoute (from_agent_id row) (to_agent_id row) (content_hash row)) t
             = false)).
Proof.
  intros [Ids Routes]. unfold insertOnConflictDoNothing.
  destruct dbError as [m|]; [split; [now split|left; split; [reflexivity|discriminate]]|].
  destruct (existsb (sameRoute _ _ _) t) eqn:R;
    [split; [now split|left; split; [reflexivity|discriminate]]|].
  destruct (existsb (fun r => JS.eqb (PersistentDedup.id r) (PersistentDedup.id row)) t) eqn:I;
    [split; [now split|left; split; [reflexivity|discriminate]]|].
  split; [|right; now repeat split].
  split; rewrite map_app; cbn [map]; apply NoDup_snoc; try assumption.
  - apply (existsb_false_not_In PersistentDedup.id
             (fun r => JS.eqb (PersistentDedup.id r) (PersistentDedup.id row))); [|exact I].
    intros x <-. apply eqb_refl.
  - apply (existsb_false_not_In route
             (sameRoute (from_agent_id row) (to_agent_id row) (content_hash row))); [|exact R].
    intros x E. unfold route in E. injection E as E1 E2 E3. unfold sameRoute.
    now rewrite E1, E2, E3, !eqb_refl.
Qed.

Lemma checkStart_querying (e : Env) (fromAgentId toAgentId : jsstring) (meta : DedupMeta)
    (ttlMs : Z) (p p1 : Process) (k : jsstring) (r : DedupRow) :
  checkStart e fromAgentId toAgentId meta ttlMs p = (Querying k r, p1) ->
  k = buildDedupKey fromAgentId toAgentId meta
  /\ r = newRow e fromAgentId toAgentId meta ttlMs.
Proof.
  unfold checkStart. destruct (evictExpired _ _) as [c|]; [|discriminate].
  cbn [withCache _db].
  assert (M : match _db p with
              | None => (Finished (Threw notRegistered), withCache p c)
              | Some _ =>
                  if JS.validTime (nowMs e + ttlMs)
                  then (Querying (buildDedupKey fromAgentId toAgentId meta)
                          (newRow e fromAgentId toAgentId meta ttlMs), withCache p c)
                  else (Finished (Threw (JS.lit "Invalid time value")), withCache p c)
              end = (Querying k r, p1) ->
              k = buildDedupKey fromAgentId toAgentId meta
              /\ r = newRow e fromAgentId toAgentId meta ttlMs).
  { destruct (_db p); [|discriminate]. destruct (JS.validTime _); [|discriminate].
    intro H. injection H as <- <- _. now split. }
  destruct (cacheGet _ c) as [seenAt|]; [|exact M].
  destruct (nowMs e - seenAt <=? ttlMs); [discriminate|exact M].
Qed.

(** The operations keep the constraints of schema.sql.  On a table in
    which ids and (sender, recipient, content hash) triples are unique,
    [checkAndRecordDedup] leaves such a table: either the table it was
    given, or that table with the one new row at its end, and then the
    result is a non-duplicate and no row for the triple existed.
    [pruneExpiredDedup] leaves such a table too, made of rows it was
    given. *)
Theorem table_constraints_kept (e : Env) (p : Process) (t : Table) :
  tableOk t ->
  (forall fromAgentId toAgentId meta ttlMs,
     let '(out, _, t') := checkAndRecordDedup e fromAgentId toAgentId meta ttlMs p t in
     tableOk t'
     /\ (t' = t
         \/ (t' = t ++ [newRow e fromAgentId toAgentId meta ttlMs]
             /\ out = Returned (mkResult false None)
             /\ recorded fromAgentId toAgentId meta t = false)))
  /\ (let '(_, _, t') := pruneExpiredDedup e p t in
      tableOk t' /\ incl t' t).
Proof.
  intro Ok. split.
  - intros fromAgentId toAgentId meta ttlMs. unfold checkAndRecordDedup.
    destruct (checkStart e fromAgentId toAgentId meta ttlMs p) as [[out|k r] p1] eqn:S;
      [split; [exact Ok|now left]|].
    apply checkStart_querying in S. destruct S as [-> ->].
    pose proof (insert_keeps_constraints (dbError e)
                  (newRow e fromAgentId toAgentId meta ttlMs) t Ok) as I.
    destruct (insertOnConflictDoNothing _ _ t) as [q t'].
    destruct I as [Ok' [[-> _]|[-> [-> R]]]].
    + destruct (checkResume _ _ q p1). split; [exact Ok'|now left].
    + cbn [checkResume List.length Nat.eqb]. split; [exact Ok'|right]. now repeat split.
  - unfold pruneExpiredDedup. destruct (_db p); [|split; [exact Ok|apply incl_refl]].
    destruct (dbError e); [split; [exact Ok|apply incl_refl]|].
    split; [|apply incl_filter].
    destruct Ok as [Ids Routes]. split; now apply NoDup_map_filter.
Qed.

Lemma table_constraints_kept_witness :
  tableOk (snd (checkAndRecordDedup envT alice bob meta0 ROUTING_DEDUP_TTL_MS started [liveRow]))
  /\ tableOk (snd (pruneExpiredDedup envT started [liveRow])).
Proof.
  assert (Ok : tableOk [liveRow]) by (split; repeat constructor; intros []).
  destruct (table_constraints_kept envT started [liveRow] Ok) as [C P]. split.
  - specialize (C alice bob meta0 ROUTING_DEDUP_TTL_MS).
    destruct (checkAndRecordDedup envT alice bob meta0 ROUTING_DEDUP_TTL_MS started [liveRow])
      as [[out p'] t']. apply C.
  - destruct (pruneExpiredDedup envT started [liveRow]) as [[out p'] t']. apply P.
Defined.

Lemma hexWord_format (w : N) :
  List.length (Sha256.hexWord w) = 8%nat
  /\ Forall (fun c => isHexDigit c = true) (Sha256.hexWord w).
Proof.
  unfold Sha256.hexWord. split; [now rewrite length_map|].
  apply Forall_forall. intros c H. apply in_map_iff in H. destruct H as [i [<- _]].
  cbv beta. unfold Sha256.hexDigit, isHexDigit.
  set (d := ((w / 16 ^ N.of_nat i) mod 16)%N).
  assert (L : (d < 16)%N) by (apply N.mod_lt; discriminate).
  destruct (N.ltb_spec d 10).
  - apply orb_true_iff. left. apply andb_true_iff. split; apply N.leb_le; lia.
  - apply orb_true_iff. right. apply andb_true_iff. split; apply N.leb_le; lia.
Qed.

Lemma sha256Hex_format (s : jsstring) :
  List.length (Sha256.sha256Hex s) = 64%nat
  /\ Forall (fun c => isHexDigit c = true) (Sha256.sha256Hex s).
Proof.
  unfold Sha256.sha256Hex, Sha256.digestWords. cbv zeta. cbn [flat_map].
  split.
  - rewrite !length_app. rewrite !(proj1 (hexWord_format _)). reflexivity.
  - repeat (apply Forall_app; split); try apply hexWord_format. constructor.
Qed.

(** [hashContent] returns 32 and [computeMessageHash] 64 lower-case
    hexadecimal digits, whatever the content; so a content hash made by
    [hashContent] never holds the separator [|] of the key. *)
Theorem hashes_are_hexadecimal (toAgentId content : jsstring) :
  List.length (hashContent content) = 32%nat
  /\ Forall (fun c => isHexDigit c = true) (hashContent content)
  /\ List.length (MessageDedup.computeMessageHash toAgentId content) = 64%nat
  /\ Forall (fun c => isHexDigit c = true)
            (MessageDedup.computeMessageHash toAgentId content)
  /\ free verticalBar (hashContent content).
Proof.
  destruct (sha256Hex_format content) as [L F].
  assert (F32 : Forall (fun c => isHexDigit c = true) (hashContent content)).
  { unfold hashContent. apply Forall_forall. intros c H.
    rewrite Forall_forall in F. apply F. rewrite <- (firstn_skipn 32). apply in_or_app. now left. }
  split; [unfold hashContent; rewrite length_firstn, L; reflexivity|].
  split; [exact F32|]. unfold MessageDedup.computeMessageHash.
  split; [apply sha256Hex_format|]. split; [apply sha256Hex_format|].
  intro I. rewrite Forall_forall in F32. apply F32 in I. discriminate.
Qed.

Lemma selectLiveRows_eq (dbNow windowStart : Z) (t : Table) :
  selectLiveRows dbNow windowStart t
  = map selected (firstn (Z.to_nat 20000)
                    (orderByDesc seen_at (filter (liveAt dbNow windowStart) t))).
Proof. reflexivity. Qed.

Lemma In_firstn {A : Type} (n : nat) (l : list A) (x : A) :
  In x (firstn n l) -> In x l.
Proof. intro H. rewrite <- (firstn_skipn n l). apply in_or_app. now left. Qed.

Lemma In_selectLiveRows (dbNow windowStart : Z) (t : Table) (row : GuardRow) :
  In row (selectLiveRows dbNow windowStart t) ->
  exists r, In r t /\ liveAt dbNow windowStart r = true /\ row = selected r.
Proof.
  rewrite selectLiveRows_eq. intro H. apply in_map_iff in H. destruct H as [r [<- H]].
  exists r. apply In_firstn, In_orderByDesc, filter_In in H. tauto.
Qed.

Lemma selectLiveRows_In (dbNow windowStart : Z) (t : Table) (r : DedupRow) :
  In r t -> liveAt dbNow windowStart r = true ->
  (List.length (filter (liveAt dbNow windowStart) t) <= Z.to_nat 20000)%nat ->
  In (selected r) (selectLiveRows dbNow windowStart t).
Proof.
  intros H L B. rewrite selectLiveRows_eq. apply in_map.
  rewrite firstn_all2 by now rewrite length_orderByDesc.
  apply In_orderByDesc, filter_In. now split.
Qed.

(** What the fast tier holds for a key once the guard has gone through
    the rows: the [seen_at_ms] of a row with that key, when there is
    one. *)
Lemma warmFromRows_get (key : jsstring) (rows : list GuardRow) :
  forall c,
    (exists row, In row rows /\ guardKey row = key
                 /\ cacheGet key (warmFromRows rows c) = Some (seen_at_ms row))
    \/ ((forall row, In row rows -> guardKey row <> key)
        /\ cacheGet key (warmFromRows rows c) = cacheGet key c).
Proof.
  unfold warmFromRows. induction rows as [|r rows IH]; intro c; cbn [fold_left].
  - right. split; [intros row []|reflexivity].
  - destruct (IH (cacheSet (guardKey r) (seen_at_ms r) c)) as [[row [I [K G]]]|[N G]].
    + left. exists row. split; [now right|now split].
    + destruct (JS.eqb (guardKey r) key) eqn:E.
      * apply eqb_eq in E. left. exists r. split; [now left|]. split; [exact E|].
        rewrite G, <- E. apply cacheGet_set_same.
      * apply eqb_neq in E. right. split.
        -- intros row [<-|I]; [exact E|now apply N].
        -- rewrite G. apply cacheGet_set_other. intro X. apply E. now symmetry.
Qed.

Lemma truthyOrNull_same (x : option jsstring) :
  x <> Some [] -> JS.truthyOrNull x = x.
Proof. destruct x as [[|c s]|]; [intro H; now destruct H|reflexivity|reflexivity]. Qed.

(** The startup guard makes the fast tier answer on its own.  In a
    process that starts with an empty fast tier, after
    [loadStartupDedupGuard] has read a table with at most 10,000 live
    rows in the window, one of them the row of a message (its task id
    and sequence number absent or non-empty), a [checkAndRecordDedup]
    for that message returns a duplicate from the fast tier: for every
    state of the table and of the database at that time, the rows with
    its key having been seen within [ttlMs] and 72 hours. *)
Theorem startup_guard_restores_fast_tier
    (e0 e : Env) (fromAgentId toAgentId : jsstring) (meta : DedupMeta)
    (ttlMs windowMs : Z) (p : Process) (t t' : Table) (db : DbAdapter) (r : DedupRow) :
  _db p = Some db ->
  inMemoryCache p = [] ->
  dbError e0 = None ->
  JS.validTime (nowMs e0 - windowMs) = true ->
  In r t ->
  selected r = mkGuardRow fromAgentId toAgentId (eventHash meta) (taskId meta) (seq meta)
                          (seen_at r) ->
  taskId meta <> Some [] -> seq meta <> Some [] ->
  liveAt (dbNow e0) (nowMs e0 - windowMs) r = true ->
  Z.of_nat (List.length (filter (liveAt (dbNow e0) (nowMs e0 - windowMs)) t))
    <= ROUTING_DEDUP_MAX_KEYS ->
  (forall r', In r' t ->
     guardKey (selected r') = buildDedupKey fromAgentId toAgentId meta ->
     nowMs e - seen_at r' <= ttlMs /\ nowMs e - seen_at r' <= ROUTING_DEDUP_TTL_MS) ->
  let '(out0, p1) := loadStartupDedupGuard e0 windowMs p t in
  out0 = Returned tt
  /\ exists seenAt p2,
       checkAndRecordDedup e fromAgentId toAgentId meta ttlMs p1 t'
       = (Returned (mkResult true (Some (l1Reason (nowMs e) seenAt))), p2, t').
Proof.
  intros D C Er V I S Tk Sq L B W. unfold loadStartupDedupGuard. rewrite D, V, Er, C.
  split; [reflexivity|].
  set (rows := selectLiveRows (dbNow e0) (nowMs e0 - windowMs) t).
  set (key := buildDedupKey fromAgentId toAgentId meta) in *.
  assert (K : guardKey (selected r) = key).
  { rewrite S. unfold guardKey. cbn [g_from_agent_id g_to_agent_id g_content_hash g_task_id g_seq].
    now rewrite !truthyOrNull_same. }
  assert (Hr : In (selected r) rows).
  { apply selectLiveRows_In; [exact I|exact L|]. unfold ROUTING_DEDUP_MAX_KEYS in B. lia. }
  destruct (warmFromRows_get key rows []) as [[row [Hrow [Krow G]]]|[N _]];
    [|exfalso; exact (N _ Hr K)].
  apply In_selectLiveRows in Hrow. destruct Hrow as [r' [I' [_ ->]]].
  destruct (W r' I' Krow) as [Lt L72]. cbn [selected seen_at_ms] in G.
  assert (Ok : cacheOk (warmFromRows rows [])) by (apply warmFromRows_ok, cacheOk_nil).
  assert (Len : Z.of_nat (List.length (warmFromRows rows [])) <= ROUTING_DEDUP_MAX_KEYS).
  { pose proof (length_warmFromRows rows []) as X. cbn [List.length] in X.
    assert (Y : (List.length rows <= List.length
                   (filter (liveAt (dbNow e0) (nowMs e0 - windowMs)) t))%nat).
    { unfold rows. rewrite selectLiveRows_eq, length_map, length_firstn, length_orderByDesc.
      lia. }
    lia. }
  destruct (evictExpired_keeps (nowMs e) key (seen_at r') _ (proj1 Ok) Len G L72)
    as [c [E Gc]].
  exists (seen_at r'). eexists.
  apply check_l1_hit; [exact E|exact Gc|exact Lt].
Qed.

Lemma startup_guard_restores_fast_tier_witness :
  let '(out0, p1) := loadStartupDedupGuard envT ROUTING_DEDUP_TTL_MS started [liveRow] in
  out0 = Returned tt
  /\ exists seenAt p2,
       checkAndRecordDedup envSoonDown alice bob meta0 ROUTING_DEDUP_TTL_MS p1 []
       = (Returned (mkResult true (Some (l1Reason (nowMs envSoonDown) seenAt))), p2, []).
Proof.
  apply (startup_guard_restores_fast_tier envT envSoonDown alice bob meta0
           ROUTING_DEDUP_TTL_MS ROUTING_DEDUP_TTL_MS started [liveRow] [] Adapter liveRow);
    [reflexivity|reflexivity|reflexivity|reflexivity|now left|reflexivity
    |discriminate|discriminate|reflexivity| | ].
  - change (Z.of_nat 1 <= ROUTING_DEDUP_MAX_KEYS). unfold ROUTING_DEDUP_MAX_KEYS. lia.
  - intros r' [<-|[]] _. change (6000 <= ROUTING_DEDUP_TTL_MS /\ 6000 <= ROUTING_DEDUP_TTL_MS).
    unfold ROUTING_DEDUP_TTL_MS. lia.
Defined.

Lemma insertDesc_sorted {A : Type} (key : A -> Z) (x : A) (l : list A) :
  StronglySorted (descending key) l -> StronglySorted (descending key) (insertDesc key x l).
Proof.
  induction 1 as [|y r S IH F]; cbn [insertDesc]; [repeat constructor|].
  destruct (Z.leb_spec (key y) (key x)).
  - constructor; [now constructor|]. constructor; [exact H|].
    rewrite Forall_forall in *. intros z Hz. specialize (F z Hz). unfold descending in *. lia.
  - constructor; [exact IH|]. apply Forall_forall. intros z Hz.
    apply In_insertDesc in Hz. destruct Hz as [->|Hz].
    + unfold descending. lia.
    + rewrite Forall_forall in F. now apply F.
Qed.

Lemma orderByDesc_sorted {A : Type} (key : A -> Z) (l : list A) :
  StronglySorted (descending key) (orderByDesc key l).
Proof.
  unfold orderByDesc. induction l as [|x l IH]; cbn [fold_right]; [constructor|].
  now apply insertDesc_sorted.
Qed.









End DedupStore.

(* ------------------------------------------------------------------ *)
(** ** More of message-dedup.ts *)
(* ------------------------------------------------------------------ *)

Section MessageWindow.

Import MessageDedup.

(** The normalized content is the words of the content with one space
    between them; normalizing it again changes nothing, so a content
    and its normal form have the same [computeMessageHash]. *)
Theorem normalize_idempotent (toAgentId content : jsstring) :
  normalize content = joinWords (words content)
  /\ normalize (normalize content) = normalize content
  /\ computeMessageHash toAgentId (normalize content)
     = computeMessageHash toAgentId content.
Proof.
  assert (I : normalize (normalize content) = normalize content).
  { rewrite !normalize_words. rewrite words_joinWords; [reflexivity|].
    apply wordsFrom_words. constructor. }
  split; [apply normalize_words|]. split; [exact I|].
  unfold computeMessageHash. now rewrite I.
Qed.

(** [isDuplicateMessage] returns true only when the database answered
    and holds a message with the fingerprint of the content that was
    delivered to the same agent, with the role ["user"], within the 72
    hours before the call; it then writes no warning.  Messages to
    other agents, with other roles or older than that never make a
    message a duplicate, nor does a failing database. *)
Theorem duplicate_needs_matching_message
    (nowMs : Z) (dbError : option jsstring) (messages : list MessageRow)
    (toAgentId content : jsstring) :
  fst (isDuplicateMessage nowMs dbError messages toAgentId content) = true ->
  dbError = None
  /\ snd (isDuplicateMessage nowMs dbError messages toAgentId content) = []
  /\ exists row,
       In row messages
       /\ agent_id row = toAgentId
       /\ MessageDedup.role row = JS.lit "user"
       /\ nowMs - DEDUP_TTL_MS <= created_at row
       /\ computeMessageHash toAgentId (MessageDedup.content row)
          = computeMessageHash toAgentId content.
Proof.
  unfold isDuplicateMessage. destruct dbError as [m|]; [discriminate|].
  destruct (JS.validTime _); [|discriminate]. cbn [fst snd]. intro H.
  split; [reflexivity|]. split; [reflexivity|].
  unfold anyRowMatches in H. apply existsb_exists in H. destruct H as [c [Hin Hc]].
  unfold selectRecentUserMessages in Hin. apply in_map_iff in Hin.
  destruct Hin as [row [<- Hin]]. apply In_firstn, In_orderByDesc, filter_In in Hin.
  destruct Hin as [Hin W]. apply andb_prop in W. destruct W as [W T].
  apply andb_prop in W. destruct W as [A R].
  exists row. split; [exact Hin|]. split; [now apply eqb_eq|]. split; [now apply eqb_eq|].
  split; [now apply Z.leb_le|now apply eqb_eq].
Qed.

Lemma duplicate_needs_matching_message_witness :
  exists row,
    In row [firstDelivery]
    /\ agent_id row = bob
    /\ computeMessageHash bob (MessageDedup.content row) = computeMessageHash bob helloPlain.
Proof.
  assert (D : fst (isDuplicateMessage timeT None [firstDelivery] bob helloPlain) = true)
    by (vm_compute; reflexivity).
  destruct (duplicate_needs_matching_message timeT None [firstDelivery] bob helloPlain D)
    as [_ [_ [row [I [A [_ [_ H]]]]]]].
  exists row. now repeat split.
Defined.

Lemma length_filter_insertDesc {A : Type} (key : A -> Z) (f : A -> bool) (x : A) (l : list A) :
  List.length (filter f (insertDesc key x l)) = List.length (filter f (x :: l)).
Proof.
  induction l as [|y l IH]; [reflexivity|]. cbn [insertDesc].
  destruct (key y <=? key x); [reflexivity|]. cbn [filter] in *.
  destruct (f y), (f x); cbn [List.length] in *; lia.
Qed.

Lemma length_filter_orderByDesc {A : Type} (key : A -> Z) (f : A -> bool) (l : list A) :
  List.length (filter f (orderByDesc key l)) = List.length (filter f l).
Proof.
  unfold orderByDesc. induction l as [|x l IH]; [reflexivity|]. cbn [fold_right].
  rewrite length_filter_insertDesc. cbn [filter]. destruct (f x); cbn [List.length]; lia.
Qed.

Lemma sorted_tail {A : Type} (R : A -> A -> Prop) (l1 l2 : list A) :
  StronglySorted R (l1 ++ l2) -> StronglySorted R l2.
Proof.
  induction l1 as [|x l1 IH]; cbn [app]; intro S; [exact S|].
  inversion S; subst. now apply IH.
Qed.

(** In a list in descending order, the elements with a larger key than
    [x] all come before [x]. *)
Lemma larger_come_first {A : Type} (key : A -> Z) (l1 l2 : list A) (x : A) :
  StronglySorted (descending key) (l1 ++ x :: l2) ->
  (List.length (filter (fun y => (key x <? key y)%Z) (l1 ++ x :: l2)) <= List.length l1)%nat.
Proof.
  intro S. apply sorted_tail in S. inversion S as [|? ? _ F]; subst.
  rewrite filter_app, length_app. cbn [filter]. rewrite Z.ltb_irrefl.
  pose proof (filter_length_le (fun y => key x <? key y) l1) as L1.
  assert (E : filter (fun y => key x <? key y) l2 = []).
  { clear L1 S. induction F as [|y l2 Hy F IH]; [reflexivity|]. cbn [filter].
    unfold descending in Hy. destruct (Z.ltb_spec (key x) (key y)); [lia|exact IH]. }
  rewrite E. cbn [List.length]. lia.
Qed.

(** The query reads the 200 most recent messages of the window.  When
    every message of the window that has the fingerprint of the content
    has at least 200 messages of the window created after it, the
    content is not reported as a duplicate. *)
Theorem duplicate_beyond_limit_is_missed
    (nowMs : Z) (messages : list MessageRow) (toAgentId content : jsstring) :
  JS.validTime (nowMs - DEDUP_TTL_MS) = true ->
  (forall row,
     In row messages ->
     inWindow toAgentId (nowMs - DEDUP_TTL_MS) row = true ->
     sameHash toAgentId content row = true ->
     (200 <= List.length
               (filter (newerThan row)
                  (filter (inWindow toAgentId (nowMs - DEDUP_TTL_MS)) messages)))%nat) ->
  isDuplicateMessage nowMs None messages toAgentId content = (false, []).
Proof.
  intros V H. unfold isDuplicateMessage. rewrite V. f_equal.
  apply not_true_is_false. intro D.
  unfold anyRowMatches in D. apply existsb_exists in D. destruct D as [c [Hin Hc]].
  unfold selectRecentUserMessages in Hin.
  fold (inWindow toAgentId (nowMs - DEDUP_TTL_MS)) in Hin.
  set (window := filter (inWindow toAgentId (nowMs - DEDUP_TTL_MS)) messages) in *.
  apply in_map_iff in Hin. destruct Hin as [row [<- Hin]].
  pose proof Hin as Hw. apply In_firstn, In_orderByDesc in Hw.
  unfold window in Hw. apply filter_In in Hw. destruct Hw as [Hm Hw].
  specialize (H row Hm Hw Hc). fold window in H.
  apply in_split in Hin. destruct Hin as [l1 [l2 E]].
  pose proof (orderByDesc_sorted created_at window) as S.
  assert (Q : orderByDesc created_at window
              = l1 ++ row :: (l2 ++ skipn 200 (orderByDesc created_at window))).
  { rewrite <- (firstn_skipn 200 (orderByDesc created_at window)) at 1.
    rewrite E, <- app_assoc. reflexivity. }
  rewrite Q in S. apply larger_come_first in S. rewrite <- Q in S.
  rewrite length_filter_orderByDesc in S.
  assert (L : (List.length (l1 ++ row :: l2) <= 200)%nat).
  { rewrite <- E. apply firstn_le_length. }
  rewrite length_app in L. cbn [List.length] in L.
  change (fun y => created_at row <? created_at y) with (newerThan row) in S. lia.
Qed.

Lemma duplicate_beyond_limit_is_missed_witness :
  In (mkMessageRow bob (JS.lit "user") helloPlain (timeT - 60000)) busyInbox
  /\ isDuplicateMessage timeT None busyInbox bob helloPlain = (false, []).
Proof.
  split; [now left|].
  apply duplicate_beyond_limit_is_missed; [reflexivity|].
  intros row [<-|Hin] _ Hs.
  - apply Nat.leb_le. vm_compute. reflexivity.
  - unfold busyInbox in Hin. apply in_map_iff in Hin. destruct Hin as [i [<- _]].
    unfold sameHash in Hs. cbn [MessageDedup.content ping] in Hs.
    vm_compute in Hs. discriminate.
Defined.

End MessageWindow.

(* ------------------------------------------------------------------ *)
(** ** All that a reconcile does *)
(* ------------------------------------------------------------------ *)

Section ReconcileTrace.

Import StoppedAgentGuard.

Section TracedLoop.

Variable World : Type.
Variable updateAgentStatus : jsstring -> jsstring -> Async World unit.
Variable insertActivity : Activity -> Async World unit.
Variable consoleLog : jsstring -> World -> World.

Let loop :=
  reconcileLoop (World * list Event)
    (fun a s => emit (Updated a s) (updateAgentStatus a s))
    (fun act => emit (Inserted act) (insertActivity act))
    (emitLine consoleLog).

Lemma tracedLoop_prefix (agents : list AgentLight) :
  forall result wt out wt',
    loop agents result wt = (out, wt') ->
    exists done rest,
      flat_map stepsFor agents = done ++ rest
      /\ snd wt' = snd wt ++ done
      /\ (forall res, out = Returned res ->
            rest = []
            /\ res = mkReconcile (reset result ++ map id (staleAgents agents))
                                 (skipped result ++ map id (stoppedAgents agents)))
      /\ ((forall res, out <> Returned res) ->
            exists pre ev, done = pre ++ [ev] /\ isCall ev).
Proof.
  unfold loop, staleAgents, stoppedAgents.
  induction agents as [|agent agents IH]; intros result wt out wt' H.
  - cbn in H. injection H as <- <-. exists [], []. cbn. rewrite !app_nil_r.
    repeat split.
    + injection H as <-. now destruct result.
    + intro N. exfalso. exact (N _ eq_refl).
  - cbn [reconcileLoop] in H. cbn [filter flat_map]. unfold stepsFor at 1.
    destruct (isStopped (status agent)) eqn:St.
    + assert (Sl : isStale (status agent) = false) by (destruct (status agent); easy).
      rewrite Sl. unfold bind, log, emitLine in H. cbn [fst snd] in H.
      apply IH in H. cbn [snd reset skipped] in H.
      destruct H as [done [rest [E [U [R F]]]]].
      exists (Logged (skipLine agent) :: done), rest.
      split; [cbn; now rewrite E|]. split; [rewrite U; now rewrite <- app_assoc|].
      split.
      * intros res Hres. destruct (R res Hres) as [-> ->]. split; [reflexivity|].
        cbn [map]. now rewrite <- app_assoc.
      * intro N. destruct (F N) as [pre [ev [-> C]]].
        exists (Logged (skipLine agent) :: pre), ev. now split.
    + destruct (isStale (status agent)) eqn:Sl; cbn [negb] in H.
      * unfold bind at 1 in H. unfold emit at 1 in H.
        destruct (updateAgentStatus (id agent) (JS.lit "idle") (fst wt)) as [o1 w1].
        destruct o1 as [[]|m|].
        -- unfold bind at 1 in H. unfold emit at 1 in H. cbn [fst snd] in H.
           destruct (insertActivity (reconcileActivity agent) w1) as [o2 w2].
           destruct o2 as [[]|m|].
           ++ apply IH in H. cbn [snd reset skipped] in H.
              destruct H as [done [rest [E [U [R F]]]]].
              exists (Updated (id agent) (JS.lit "idle")
                        :: Inserted (reconcileActivity agent) :: done), rest.
              split; [cbn; now rewrite E|].
              split; [rewrite U; now rewrite <- !app_assoc|]. split.
              ** intros res Hres. destruct (R res Hres) as [-> ->]. split; [reflexivity|].
                 cbn [map]. now rewrite <- app_assoc.
              ** intro N. destruct (F N) as [pre [ev [-> C]]].
                 exists (Updated (id agent) (JS.lit "idle")
                           :: Inserted (reconcileActivity agent) :: pre), ev. now split.
           ++ apply pair_equal_spec in H. destruct H as [<- <-].
              exists [Updated (id agent) (JS.lit "idle"); Inserted (reconcileActivity agent)],
                     (flat_map stepsFor agents).
              split; [reflexivity|]. cbn [snd]. split; [now rewrite <- app_assoc|].
              split; [intros res Hres; discriminate|]. intros _.
              exists [Updated (id agent) (JS.lit "idle")], (Inserted (reconcileActivity agent)).
              now split.
           ++ apply pair_equal_spec in H. destruct H as [<- <-].
              exists [Updated (id agent) (JS.lit "idle"); Inserted (reconcileActivity agent)],
                     (flat_map stepsFor agents).
              split; [reflexivity|]. cbn [snd]. split; [now rewrite <- app_assoc|].
              split; [intros res Hres; discriminate|]. intros _.
              exists [Updated (id agent) (JS.lit "idle")], (Inserted (reconcileActivity agent)).
              now split.
        -- apply pair_equal_spec in H. destruct H as [<- <-].
           exists [Updated (id agent) (JS.lit "idle")],
                  (Inserted (reconcileActivity agent) :: flat_map stepsFor agents).
           split; [reflexivity|]. cbn [snd]. split; [reflexivity|].
           split; [intros res Hres; discriminate|]. intros _.
           exists [], (Updated (id agent) (JS.lit "idle")). now split.
        -- apply pair_equal_spec in H. destruct H as [<- <-].
           exists [Updated (id agent) (JS.lit "idle")],
                  (Inserted (reconcileActivity agent) :: flat_map stepsFor agents).
           split; [reflexivity|]. cbn [snd]. split; [reflexivity|].
           split; [intros res Hres; discriminate|]. intros _.
           exists [], (Updated (id agent) (JS.lit "idle")). now split.
      * apply IH in H. exact H.
Qed.

Hypothesis updates : forall a s w, exists w', updateAgentStatus a s w = (Returned tt, w').
Hypothesis inserts : forall act w, exists w', insertActivity act w = (Returned tt, w').

Lemma tracedLoop_returns (agents : list AgentLight) :
  forall result wt, exists res wt', loop agents result wt = (Returned res, wt').
Proof.
  unfold loop. induction agents as [|agent agents IH]; intros result wt.
  - eexists. eexists. reflexivity.
  - cbn [reconcileLoop]. destruct (isStopped (status agent)).
    + unfold bind, log. apply IH.
    + destruct (isStale (status agent)); cbn [negb]; [|apply IH].
      unfold bind at 1. unfold emit at 1.
      destruct (updates (id agent) (JS.lit "idle") (fst wt)) as [w1 ->].
      unfold bind at 1. unfold emit at 1. cbn [fst snd].
      destruct (inserts (reconcileActivity agent) w1) as [w2 ->]. apply IH.
Qed.

End TracedLoop.

(** Whatever the callbacks do, a run of [safeReconcileOnStartup] does a
    first part of what a run without failure does: for each agent in
    turn one line for a stopped one, a status update to ["idle"] and
    then an activity record for a thinking or executing one, nothing
    for others, and at the end one line when an agent was stopped.  It
    returns only after all of this, and then with the ids of the
    thinking and executing agents in [reset] and those of the stopped
    ones in [skipped]; otherwise the last thing it did is the call of
    a callback, the one that failed, and the agents after that one are
    left as they are. *)
Theorem reconcile_stops_at_first_failure
    (World : Type)
    (updateAgentStatus : jsstring -> jsstring -> Async World unit)
    (insertActivity : Activity -> Async World unit)
    (consoleLog : jsstring -> World -> World)
    (agents : list AgentLight) (w : World) :
  let '(out, (_, events)) :=
    tracedReconcile updateAgentStatus insertActivity consoleLog agents (w, []) in
  (exists rest, fullTrace agents = events ++ rest)
  /\ (forall res, out = Returned res ->
        res = reconciled agents /\ events = fullTrace agents)
  /\ ((forall res, out <> Returned res) ->
        exists pre ev, events = pre ++ [ev] /\ isCall ev).
Proof.
  unfold tracedReconcile, safeReconcileOnStartup, bind.
  destruct (reconcileLoop _ _ _ _ agents (mkReconcile [] []) (w, [])) as [o1 wt1] eqn:L.
  apply tracedLoop_prefix in L. cbn [snd reset skipped app] in L.
  destruct L as [done [rest [E [U [R F]]]]]. destruct wt1 as [w1 events]. cbn [snd] in U.
  subst events. unfold fullTrace. rewrite E.
  destruct o1 as [res|m|].
  - destruct (R res eq_refl) as [-> ->]. fold (reconciled agents). rewrite app_nil_r.
    unfold reconciled at 1. cbn [skipped]. rewrite length_map.
    destruct (0 <? List.length (stoppedAgents agents))%nat.
    + unfold log, emitLine, ret. cbn [fst snd].
      split; [exists []; now rewrite app_nil_r|]. split.
      * intros res Hres. injection Hres as <-. now split.
      * intro N. exfalso. exact (N _ eq_refl).
    + unfold ret. rewrite app_nil_r.
      split; [exists []; now rewrite app_nil_r|]. split.
      * intros res Hres. injection Hres as <-. now split.
      * intro N. exfalso. exact (N _ eq_refl).
  - split; [eexists; now rewrite <- app_assoc|]. split; [discriminate|].
    intros _. apply F. discriminate.
  - split; [eexists; now rewrite <- app_assoc|]. split; [discriminate|].
    intros _. apply F. discriminate.
Qed.

(** With callbacks that return, [safeReconcileOnStartup] returns, and
    what it did is the whole of that, in that order. *)
Theorem reconcile_complete_run
    (World : Type)
    (updateAgentStatus : jsstring -> jsstring -> Async World unit)
    (insertActivity : Activity -> Async World unit)
    (consoleLog : jsstring -> World -> World)
    (agents : list AgentLight) (w : World) :
  (forall a s w, exists w', updateAgentStatus a s w = (Returned tt, w')) ->
  (forall act w, exists w', insertActivity act w = (Returned tt, w')) ->
  exists w',
    tracedReconcile updateAgentStatus insertActivity consoleLog agents (w, [])
    = (Returned (reconciled agents), (w', fullTrace agents)).
Proof.
  intros Hu Hi. unfold tracedReconcile, safeReconcileOnStartup, bind.
  destruct (tracedLoop_returns World updateAgentStatus insertActivity consoleLog Hu Hi
              agents (mkReconcile [] []) (w, [])) as [res [wt1 L]].
  rewrite L. apply tracedLoop_prefix in L. cbn [snd reset skipped app] in L.
  destruct L as [done [rest [E [U [R _]]]]]. destruct (R res eq_refl) as [-> ->].
  destruct wt1 as [w1 events]. cbn [snd] in U. subst events.
  rewrite app_nil_r in E. fold (reconciled agents). unfold fullTrace. rewrite E.
  unfold reconciled at 1. cbn [skipped]. rewrite length_map.
  destruct (0 <? List.length (stoppedAgents agents))%nat.
  - unfold log, emitLine, ret. cbn [fst snd]. eexists. reflexivity.
  - unfold ret. rewrite app_nil_r. eexists. reflexivity.
Qed.

Lemma reconcile_complete_run_witness :
  exists w',
    tracedReconcile writeStatus dropActivity dropLine [ann; bo; cy; di] ([], [])
    = (Returned (mkReconcile [id bo; id di] [id ann]),
       (w',
        [Logged (skipLine ann);
         Updated (id bo) (JS.lit "idle"); Inserted (reconcileActivity bo);
         Updated (id di) (JS.lit "idle"); Inserted (reconcileActivity di);
         Logged (completeLine (mkReconcile [id bo; id di] [id ann]))])).
Proof.
  apply (reconcile_complete_run Writes writeStatus dropActivity dropLine [ann; bo; cy; di] []).
  - intros a s w. eexists. reflexivity.
  - intros act w. eexists. reflexivity.
Defined.

End ReconcileTrace.

(* ------------------------------------------------------------------ *)
(** ** Searching and replacing in strings *)
(* ------------------------------------------------------------------ *)

Lemma startsWith_app (m r : jsstring) : JS.startsWith m (m ++ r) = true.
Proof.
  induction m as [|x m IH]; [reflexivity|]. cbn [app JS.startsWith].
  now rewrite N.eqb_refl.
Qed.

Lemma startsWith_inv (m s : jsstring) :
  JS.startsWith m s = true -> exists r, s = m ++ r.
Proof.
  revert s. induction m as [|x m IH]; intros s H; [now exists s|].
  destruct s as [|y s]; [discriminate|]. cbn [JS.startsWith] in H.
  destruct (N.eqb_spec x y) as [->|]; [|discriminate].
  destruct (IH s H) as [r ->]. now exists r.
Qed.

Lemma indexOf_unfold (m s : jsstring) :
  JS.indexOf m s
  = if JS.startsWith m s then Some 0%nat
    else match s with
         | [] => None
         | _ :: r => option_map S (JS.indexOf m r)
         end.
Proof. destruct s; reflexivity. Qed.

Lemma indexOf_Some (m s : jsstring) (n : nat) :
  JS.indexOf m s = Some n ->
  exists post, s = firstn n s ++ m ++ post /\ List.length (firstn n s) = n
               /\ skipn (n + List.length m) s = post.
Proof.
  revert n. induction s as [|c s IH]; intros n H; rewrite indexOf_unfold in H.
  - destruct (JS.startsWith m []) eqn:S; [|discriminate]. injection H as <-.
    apply startsWith_inv in S. destruct S as [r E]. exists r.
    destruct m; [|discriminate]. cbn in *. now subst r.
  - destruct (JS.startsWith m (c :: s)) eqn:S.
    + injection H as <-. apply startsWith_inv in S. destruct S as [r E]. exists r.
      cbn [firstn app List.length Nat.add]. split; [exact E|]. split; [reflexivity|].
      rewrite E. rewrite skipn_app, skipn_all, Nat.sub_diag. reflexivity.
    + destruct (JS.indexOf m s) as [k|] eqn:I; [|discriminate]. injection H as <-.
      destruct (IH k eq_refl) as [post [E [L K]]]. exists post.
      cbn [firstn app List.length Nat.add skipn]. split; [now rewrite <- E|].
      split; [now rewrite L|exact K].
Qed.

Lemma indexOf_None (m s : jsstring) :
  JS.indexOf m s = None -> ~ occursIn m s.
Proof.
  induction s as [|c s IH]; intro H; rewrite indexOf_unfold in H.
  - destruct (JS.startsWith m []) eqn:S; [discriminate|].
    intros [pre [post E]]. destruct pre; [|discriminate]. destruct m; [discriminate|].
    discriminate.
  - destruct (JS.startsWith m (c :: s)) eqn:S; [discriminate|].
    destruct (JS.indexOf m s) eqn:I; [discriminate|].
    intros [pre [post E]]. destruct pre as [|x pre].
    + cbn [app] in E. rewrite E, startsWith_app in S. discriminate.
    + injection E as _ E. apply IH; [reflexivity|]. now exists pre, post.
Qed.

Lemma includes_occursIn (m s : jsstring) :
  JS.includes m s = true <-> occursIn m s.
Proof.
  unfold JS.includes. destruct (JS.indexOf m s) as [n|] eqn:I.
  - split; [|reflexivity]. intros _. apply indexOf_Some in I.
    destruct I as [post [E _]]. now exists (firstn n s), post.
  - split; [discriminate|]. intro O. now apply indexOf_None in O.
Qed.

Lemma includes_false (m s : jsstring) :
  JS.includes m s = false <-> ~ occursIn m s.
Proof.
  rewrite <- includes_occursIn. destruct (JS.includes m s); split; congruence.
Qed.

Lemma occursIn_trans (a b c : jsstring) : occursIn a b -> occursIn b c -> occursIn a c.
Proof.
  intros [p [q ->]] [p' [q' ->]]. exists (p' ++ p), (q ++ q').
  now rewrite <- !app_assoc.
Qed.

Lemma occursIn_app (a pre post s : jsstring) :
  occursIn a s -> occursIn a (pre ++ s ++ post).
Proof.
  intros [p [q ->]]. exists (pre ++ p), (q ++ post). now rewrite <- !app_assoc.
Qed.

Lemma occursIn_refl (a : jsstring) : occursIn a a.
Proof. exists [], []. now rewrite app_nil_r. Qed.

Lemma getSubstitution_plain (matched before after template : jsstring) :
  plain template = true ->
  JS.getSubstitution matched before after template = template.
Proof.
  induction template as [|c r IH]; [reflexivity|]. cbn [plain JS.getSubstitution].
  destruct (c =? 36)%N; [|intro P; now rewrite IH].
  destruct r as [|d r']; [reflexivity|].
  intro P. apply andb_prop in P. destruct P as [N P]. apply negb_true_iff in N.
  apply orb_false_elim in N. destruct N as [N N4].
  apply orb_false_elim in N. destruct N as [N N3].
  apply orb_false_elim in N. destruct N as [N1 N2].
  rewrite N1, N2, N3, N4. now rewrite IH.
Qed.

(** A replacement with a plain text puts the text in the place of the
    first occurrence. *)
Lemma replace_plain (pattern replacement s : jsstring) :
  plain replacement = true ->
  JS.includes pattern s = true ->
  exists pre post,
    s = pre ++ pattern ++ post
    /\ JS.replace pattern replacement s = pre ++ replacement ++ post.
Proof.
  intros P I. unfold JS.includes in I. unfold JS.replace.
  destruct (JS.indexOf pattern s) as [n|] eqn:X; [|discriminate].
  apply indexOf_Some in X. destruct X as [post [E [_ K]]].
  exists (firstn n s), post. split; [exact E|].
  cbv zeta. now rewrite getSubstitution_plain, K.
Qed.

Section Protocol.

Import SendMessageProtocol.

Lemma heading_in_protocol : occursIn heading SEND_MESSAGE_FAILURE_PROTOCOL.
Proof. apply includes_occursIn. vm_compute. reflexivity. Qed.

Lemma inject_includes (s : jsstring) :
  JS.includes heading (injectSendMessageProtocol s) = true.
Proof.
  unfold injectSendMessageProtocol. fold heading.
  destruct (JS.includes heading s) eqn:I; [exact I|].
  apply includes_occursIn.
  apply (occursIn_trans _ SEND_MESSAGE_FAILURE_PROTOCOL); [apply heading_in_protocol|].
  exists (s ++ nl ++ nl), []. now rewrite app_nil_r, <- !app_assoc.
Qed.

Lemma inject_twice (s : jsstring) :
  injectSendMessageProtocol (injectSendMessageProtocol s) = injectSendMessageProtocol s.
Proof.
  unfold injectSendMessageProtocol at 1. fold heading. now rewrite inject_includes.
Qed.

(** [injectSendMessageProtocol] keeps the prompt and adds to its end at
    most; the result holds the heading, and injecting again changes
    nothing.  The text of the protocol is in the result exactly when it
    was in the prompt or the prompt did not hold the heading: a prompt
    that holds the heading without the rules is left without them. *)
Theorem inject_protocol_once (s : jsstring) :
  JS.includes heading (injectSendMessageProtocol s) = true
  /\ injectSendMessageProtocol (injectSendMessageProtocol s) = injectSendMessageProtocol s
  /\ (exists added, injectSendMessageProtocol s = s ++ added)
  /\ (occursIn SEND_MESSAGE_FAILURE_PROTOCOL (injectSendMessageProtocol s)
      <-> JS.includes heading s = false \/ occursIn SEND_MESSAGE_FAILURE_PROTOCOL s).
Proof.
  split; [apply inject_includes|]. split; [apply inject_twice|].
  unfold injectSendMessageProtocol. fold heading.
  destruct (JS.includes heading s) eqn:I.
  - split; [exists []; now rewrite app_nil_r|]. split; [now right|].
    intros [H|H]; [discriminate|exact H].
  - split; [now eexists|]. split; [now left|]. intros _.
    exists (s ++ nl ++ nl), []. now rewrite app_nil_r, <- !app_assoc.
Qed.

(** For an agent whose role is one of the seven protocol roles the
    composed prompt is the base prompt with the protocol injected, for
    any other role it is the base prompt.  Wrapping a wrapped composer
    gives the same prompt as wrapping once. *)
Theorem compose_injects_for_protocol_roles
    (agent : Agent) (playbook base : jsstring)
    (composeSystemPrompt : jsstring -> jsstring -> Outcome jsstring) :
  composeSystemPrompt (systemPrompt agent) playbook = Returned base ->
  (In (role agent) PROTOCOL_ROLES ->
     composeSystemPromptWithProtocol agent playbook composeSystemPrompt
     = Returned (injectSendMessageProtocol base))
  /\ (~ In (role agent) PROTOCOL_ROLES ->
        composeSystemPromptWithProtocol agent playbook composeSystemPrompt = Returned base)
  /\ composeSystemPromptWithProtocol agent playbook
       (fun prompt book =>
          composeSystemPromptWithProtocol (mkAgent (role agent) prompt) book
            composeSystemPrompt)
     = composeSystemPromptWithProtocol agent playbook composeSystemPrompt.
Proof.
  intro C. unfold composeSystemPromptWithProtocol. cbn [role systemPrompt]. rewrite C.
  destruct (existsb (JS.eqb (role agent)) PROTOCOL_ROLES) eqn:E.
  - split; [reflexivity|]. split; [|now rewrite inject_twice].
    intro N. exfalso. apply N. apply existsb_exists in E. destruct E as [r [I Q]].
    apply eqb_eq in Q. now subst r.
  - split; [|split; [reflexivity|reflexivity]].
    intro I. assert (X : existsb (JS.eqb (role agent)) PROTOCOL_ROLES = true).
    { apply existsb_exists. exists (role agent). split; [exact I|apply eqb_refl]. }
    congruence.
Qed.

End Protocol.

Lemma compose_injects_for_protocol_roles_witness :
  SendMessageProtocol.composeSystemPromptWithProtocol devAgent (JS.lit "playbook") joinPrompt
  = Returned (SendMessageProtocol.injectSendMessageProtocol
                (JS.lit "You are Dev." ++ nl ++ JS.lit "playbook")).
Proof.
  destruct (compose_injects_for_protocol_roles devAgent (JS.lit "playbook")
              (JS.lit "You are Dev." ++ nl ++ JS.lit "playbook") joinPrompt eq_refl)
    as [H _].
  apply H. right. left. reflexivity.
Defined.

Section Patches.

Import PatchScript.

Lemma okLine_not_skipLine (name : jsstring) : okLine name <> appliedLine name.
Proof.
  unfold okLine, appliedLine. intro E. apply app_inv_head in E. discriminate.
Qed.

(** A call of [applyPatch] that finds the old string, the new one being
    plain: the first occurrence is replaced. *)
Lemma applyPatch_applies (name oldStr newStr : jsstring) (st : Script) :
  plain newStr = true ->
  JS.includes oldStr (src st) = true ->
  exists pre post,
    src st = pre ++ oldStr ++ post
    /\ applyPatch name oldStr newStr st
       = Continues (mkScript (pre ++ newStr ++ post) (appliedCount st + 1)
                             (output st ++ [(Stdout, okLine name)])).
Proof.
  intros P I. destruct (replace_plain oldStr newStr (src st) P I) as [pre [post [E R]]].
  exists pre, post. split; [exact E|]. unfold applyPatch. rewrite I. cbn [negb].
  unfold write. cbn [src appliedCount output]. now rewrite R.
Qed.

(** A patch whose new string holds its old string is never reported as
    applied already: a call either applies it or misses.  So a second
    run applies it a second time: after a call that found the old
    string (the new one being plain), the same call finds it again, in
    the text it has just put in if nowhere else, and changes the source
    again. *)
Theorem patch_that_holds_its_old_string_is_applied_again
    (name oldStr newStr : jsstring) (st : Script) :
  occursIn oldStr newStr ->
  plain newStr = true ->
  JS.includes oldStr (src st) = true ->
  (exists st1 st2,
     applyPatch name oldStr newStr st = Continues st1
     /\ applyPatch name oldStr newStr st1 = Continues st2
     /\ appliedCount st2 = appliedCount st + 2
     /\ output st2 = output st ++ [(Stdout, okLine name); (Stdout, okLine name)]
     /\ Z.of_nat (List.length (src st2))
        = Z.of_nat (List.length (src st))
          + 2 * (Z.of_nat (List.length newStr) - Z.of_nat (List.length oldStr)))
  /\ forall st',
       applyPatch name oldStr newStr st'
       <> Continues (write Stdout (appliedLine name) st').
Proof.
  intros O P I. split.
  - destruct (applyPatch_applies name oldStr newStr st P I) as [pre [post [E A]]].
    set (st1 := mkScript (pre ++ newStr ++ post) (appliedCount st + 1)
                         (output st ++ [(Stdout, okLine name)])) in *.
    assert (I1 : JS.includes oldStr (src st1) = true).
    { apply includes_occursIn. cbn [st1 src]. now apply occursIn_app. }
    destruct (applyPatch_applies name oldStr newStr st1 P I1) as [pre1 [post1 [E1 A1]]].
    eexists. eexists. split; [exact A|]. split; [exact A1|].
    cbn [appliedCount output src st1]. split; [lia|]. split; [now rewrite <- app_assoc|].
    cbn [st1 src] in E1. apply (f_equal (@List.length N)) in E1.
    rewrite E. rewrite !length_app in *. lia.
  - intros st' H. unfold applyPatch in H.
    destruct (JS.includes oldStr (src st')) eqn:I'; cbn [negb] in H.
    + injection H as _ _ H. apply app_inv_head in H. injection H as H.
      now apply okLine_not_skipLine in H.
    + destruct (JS.includes newStr (src st')) eqn:N'; [|discriminate].
      apply includes_occursIn in N'. apply includes_false in I'. apply I'.
      now apply (occursIn_trans _ newStr).
Qed.

Lemma patch_that_holds_its_old_string_is_applied_again_witness :
  exists st1 st2,
    applyPatch name4 old4 new4 declared = Continues st1
    /\ applyPatch name4 old4 new4 st1 = Continues st2
    /\ appliedCount st2 = 2
    /\ src st2 = JS.lit "var x;" ++ nl ++ JS.lit "async " ++ new4 ++ nl ++ JS.lit "}".
Proof.
  destruct (patch_that_holds_its_old_string_is_applied_again name4 old4 new4 declared)
    as [[st1 [st2 [A1 [A2 [C _]]]]] _].
  - exists (JS.lit "async "), []. now rewrite app_nil_r.
  - reflexivity.
  - vm_compute. reflexivity.
  - exists st1, st2. split; [exact A1|]. split; [exact A2|]. split; [exact C|].
    vm_compute in A1. injection A1 as <-. vm_compute in A2. injection A2 as <-.
    reflexivity.
Defined.

(** When the old string is gone after a patch was applied (the new
    string being plain), the source holds the new string, and the same
    call made again changes nothing and reports so. *)
Theorem patch_is_skipped_once_its_old_string_is_gone
    (name oldStr newStr : jsstring) (st : Script) :
  plain newStr = true ->
  JS.includes oldStr (src st) = true ->
  exists st1,
    applyPatch name oldStr newStr st = Continues st1
    /\ appliedCount st1 = appliedCount st + 1
    /\ occursIn newStr (src st1)
    /\ (JS.includes oldStr (src st1) = false ->
        applyPatch name oldStr newStr st1
        = Continues (write Stdout (appliedLine name) st1)).
Proof.
  intros P I. destruct (applyPatch_applies name oldStr newStr st P I) as [pre [post [E A]]].
  eexists. split; [exact A|]. cbn [appliedCount src]. split; [reflexivity|].
  assert (O : occursIn newStr (pre ++ newStr ++ post)) by now exists pre, post.
  split; [exact O|]. intro G. unfold applyPatch. cbn [src]. rewrite G. cbn [negb].
  apply includes_occursIn in O. now rewrite O.
Qed.

Lemma patch_is_skipped_once_its_old_string_is_gone_witness :
  exists st1,
    applyPatch name6 old6 new6 calling = Continues st1
    /\ src st1 = JS.lit "{" ++ nl ++ new6 ++ nl ++ JS.lit "}"
    /\ applyPatch name6 old6 new6 st1
       = Continues (write Stdout (appliedLine name6) st1).
Proof.
  destruct (patch_is_skipped_once_its_old_string_is_gone name6 old6 new6 calling)
    as [st1 [A [_ [_ S]]]].
  - reflexivity.
  - vm_compute. reflexivity.
  - exists st1. split; [exact A|]. vm_compute in A. injection A as <-.
    split; [reflexivity|]. apply S. vm_compute. reflexivity.
Defined.

(** A call that returns applied the patch or found it applied. *)
Lemma applyPatch_step (name oldStr newStr : jsstring) (st st' : Script) :
  plain newStr = true ->
  (List.length oldStr <? List.length newStr)%nat = true ->
  applyPatch name oldStr newStr st = Continues st' ->
  (JS.includes oldStr (src st) = false /\ JS.includes newStr (src st) = true
   /\ st' = write Stdout (appliedLine name) st)
  \/ (appliedCount st' = appliedCount st + 1
      /\ (List.length (src st) < List.length (src st'))%nat
      /\ output st' = output st ++ [(Stdout, okLine name)]).
Proof.
  intros P L A. apply Nat.ltb_lt in L.
  destruct (JS.includes oldStr (src st)) eqn:I.
  - right. destruct (applyPatch_applies name oldStr newStr st P I) as [pre [post [E A']]].
    rewrite A' in A. injection A as <-. cbn [appliedCount src output].
    split; [reflexivity|]. split; [|reflexivity]. rewrite E, !length_app. lia.
  - left. unfold applyPatch in A. rewrite I in A. cbn [negb] in A.
    destruct (JS.includes newStr (src st)); [|discriminate].
    injection A as <-. now split.
Qed.

Lemma applyPatch_mono (name oldStr newStr : jsstring) (st st' : Script) :
  plain newStr = true ->
  (List.length oldStr <? List.length newStr)%nat = true ->
  applyPatch name oldStr newStr st = Continues st' ->
  appliedCount st <= appliedCount st' <= appliedCount st + 1
  /\ (List.length (src st) <= List.length (src st'))%nat
  /\ exists line, output st' = output st ++ [(Stdout, line)].
Proof.
  intros P L A. destruct (applyPatch_step _ _ _ _ _ P L A) as [[_ [_ ->]]|[C [G O]]].
  - unfold write. cbn [appliedCount src output]. split; [lia|]. split; [lia|].
    now eexists.
  - split; [lia|]. split; [lia|]. eexists. exact O.
Qed.

(** A patch whose new string holds the old one is applied by every call
    that returns. *)
Lemma applyPatch_holding (name oldStr newStr : jsstring) (st st' : Script) :
  occursIn oldStr newStr ->
  plain newStr = true ->
  (List.length oldStr <? List.length newStr)%nat = true ->
  applyPatch name oldStr newStr st = Continues st' ->
  appliedCount st' = appliedCount st + 1
  /\ (List.length (src st) < List.length (src st'))%nat
  /\ output st' = output st ++ [(Stdout, okLine name)].
Proof.
  intros O P L A. destruct (applyPatch_step _ _ _ _ _ P L A) as [[I [N _]]|H]; [|exact H].
  exfalso. apply includes_false in I. apply I. apply includes_occursIn in N.
  now apply (occursIn_trans _ newStr).
Qed.

Lemma old2_in_new2 : occursIn old2 new2.
Proof.
  exists [], (skipn (List.length old2) new2). reflexivity.
Qed.

Lemma old4_in_new4 : occursIn old4 new4.
Proof.
  exists (JS.lit "async "), []. now rewrite app_nil_r.
Qed.

(** What a run that reaches [writeFileSync] has done. *)
Lemma patched_complete (file : jsstring) (st : Script) :
  patched file = Continues st ->
  2 <= appliedCount st <= 6
  /\ (List.length file < List.length (src st))%nat
  /\ In (Stdout, okLine name2) (output st)
  /\ In (Stdout, okLine name4) (output st).
Proof.
  unfold patched. intro H.
  destruct (applyPatch name1 old1 new1 (mkScript file 0 [])) as [st1|] eqn:A1;
    [|discriminate]. cbn [andThen] in H.
  destruct (applyPatch name2 old2 new2 st1) as [st2|] eqn:A2; [|discriminate].
  cbn [andThen] in H.
  destruct (applyPatch name3 old3 new3 st2) as [st3|] eqn:A3; [|discriminate].
  cbn [andThen] in H.
  destruct (applyPatch name4 old4 new4 st3) as [st4|] eqn:A4; [|discriminate].
  cbn [andThen] in H.
  destruct (applyPatch name5 old5 new5 st4) as [st5|] eqn:A5; [|discriminate].
  cbn [andThen] in H.
  apply (applyPatch_mono name1 old1 new1 _ _ eq_refl eq_refl) in A1.
  apply (applyPatch_holding name2 old2 new2 _ _ old2_in_new2 eq_refl eq_refl) in A2.
  apply (applyPatch_mono name3 old3 new3 _ _ eq_refl eq_refl) in A3.
  apply (applyPatch_holding name4 old4 new4 _ _ old4_in_new4 eq_refl eq_refl) in A4.
  apply (applyPatch_mono name5 old5 new5 _ _ eq_refl eq_refl) in A5.
  apply (applyPatch_mono name6 old6 new6 _ _ eq_refl eq_refl) in H.
  cbn [appliedCount src output] in A1.
  destruct A1 as [C1 [G1 _]], A2 as [C2 [G2 O2]], A3 as [C3 [G3 [l3 O3]]],
           A4 as [C4 [G4 O4]], A5 as [C5 [G5 [l5 O5]]], H as [C6 [G6 [l6 O6]]].
  split; [lia|]. split; [lia|].
  rewrite O6, O5, O4, O3, O2. rewrite !in_app_iff. cbn [In]. tauto.
Qed.

(** A call that exits has written its miss, and a run that exits has
    written the miss of one of its patches last. *)
Lemma applyPatch_exit (name oldStr newStr : jsstring) (st st' : Script) (code : Z) :
  applyPatch name oldStr newStr st = Exits code st' ->
  code = 1 /\ st' = write Stderr (missLine name) st.
Proof.
  unfold applyPatch. destruct (negb (JS.includes oldStr (src st))); [|discriminate].
  destruct (JS.includes newStr (src st)); [discriminate|].
  intro A. injection A as <- <-. now split.
Qed.

Lemma patched_exit (file : jsstring) (st : Script) (code : Z) :
  patched file = Exits code st ->
  code = 1
  /\ exists name rest,
       In name [name1; name2; name3; name4; name5; name6]
       /\ output st = rest ++ [(Stderr, missLine name)].
Proof.
  assert (F : forall name oldStr newStr s,
             applyPatch name oldStr newStr s = Exits code st ->
             In name [name1; name2; name3; name4; name5; name6] ->
             code = 1
             /\ exists name rest,
                  In name [name1; name2; name3; name4; name5; name6]
                  /\ output st = rest ++ [(Stderr, missLine name)]).
  { intros name oldStr newStr s A I. apply applyPatch_exit in A. destruct A as [-> ->].
    split; [reflexivity|]. exists name, (output s). split; [exact I|reflexivity]. }
  unfold patched. intro H.
  destruct (applyPatch name1 old1 new1 (mkScript file 0 [])) as [st1|c1 s1] eqn:A1;
    cbn [andThen] in H;
    [|injection H as -> ->; apply (F _ _ _ _ A1); cbn; tauto].
  destruct (applyPatch name2 old2 new2 st1) as [st2|c2 s2] eqn:A2;
    cbn [andThen] in H;
    [|injection H as -> ->; apply (F _ _ _ _ A2); cbn; tauto].
  destruct (applyPatch name3 old3 new3 st2) as [st3|c3 s3] eqn:A3;
    cbn [andThen] in H;
    [|injection H as -> ->; apply (F _ _ _ _ A3); cbn; tauto].
  destruct (applyPatch name4 old4 new4 st3) as [st4|c4 s4] eqn:A4;
    cbn [andThen] in H;
    [|injection H as -> ->; apply (F _ _ _ _ A4); cbn; tauto].
  destruct (applyPatch name5 old5 new5 st4) as [st5|c5 s5] eqn:A5;
    cbn [andThen] in H;
    [|injection H as -> ->; apply (F _ _ _ _ A5); cbn; tauto].
  apply (F _ _ _ _ H); cbn; tauto.
Qed.

(** The script writes the target file only after all six patches have
    been applied or found applied already.  It ends with exit code 1
    and the file as it was, its last line on the console being the miss
    of one of the patches; or with exit code 0 and a longer file,
    between two and six patches newly applied, the second and the
    fourth among them, and the count in the last line.  No run leaves
    the file as it was and reports success. *)
Theorem main_writes_all_or_nothing (file : jsstring) :
  let '(file', out, code) := main file in
  (code = 1 /\ file' = file
   /\ exists name rest,
        In name [name1; name2; name3; name4; name5; name6]
        /\ out = rest ++ [(Stderr, missLine name)])
  \/ (code = 0
      /\ exists st,
           patched file = Continues st
           /\ file' = src st
           /\ (List.length file < List.length file')%nat
           /\ 2 <= appliedCount st <= 6
           /\ In (Stdout, okLine name2) out
           /\ In (Stdout, okLine name4) out
           /\ exists lines, out = lines ++ [(Stdout, doneLine st)]).
Proof.
  unfold main. destruct (patched file) as [st|code st] eqn:H.
  - right. split; [reflexivity|]. exists st. split; [reflexivity|].
    destruct (patched_complete file st H) as [C [G [I2 I4]]].
    unfold write. cbn [output]. rewrite !in_app_iff.
    split; [reflexivity|]. split; [exact G|]. split; [exact C|].
    split; [now left|]. split; [now left|]. now eexists.
  - left. destruct (patched_exit file st code H) as [-> R].
    split; [reflexivity|]. split; [reflexivity|exact R].
Qed.

(** The script is not safe to run again.  After a run that wrote the
    file, a second run on what it wrote applies the second and the
    fourth patch once more when it reaches them: it stops with exit
    code 1 and leaves the file, or writes a file that is longer again
    and reports at least two new patches. *)
Theorem second_run_is_not_a_no_op (file : jsstring) (st : Script) :
  patched file = Continues st ->
  main file = (src st, output st ++ [(Stdout, doneLine st)], 0)
  /\ let '(file2, out2, code2) := main (src st) in
     (code2 = 1 /\ file2 = src st)
     \/ (code2 = 0
         /\ (List.length (src st) < List.length file2)%nat
         /\ In (Stdout, okLine name2) out2
         /\ In (Stdout, okLine name4) out2
         /\ exists st2,
              patched (src st) = Continues st2
              /\ 2 <= appliedCount st2
              /\ file2 = src st2).
Proof.
  intro H. split; [unfold main; now rewrite H|].
  unfold main. destruct (patched (src st)) as [st2|code st2] eqn:H2.
  - right. destruct (patched_complete (src st) st2 H2) as [C [G [I2 I4]]].
    unfold write. cbn [output]. rewrite !in_app_iff.
    split; [reflexivity|]. split; [exact G|]. split; [now left|]. split; [now left|].
    exists st2. split; [reflexivity|]. split; [lia|reflexivity].
  - left. split; [|reflexivity].
    now destruct (patched_exit (src st) st2 code H2).
Qed.

Lemma second_run_is_not_a_no_op_witness :
  exists st,
    patched unpatched = Continues st
    /\ appliedCount st = 6
    /\ exists file2 out2,
         main (src st) = (file2, out2, 0)
         /\ (List.length (src st) < List.length file2)%nat
         /\ In (Stdout, okLine name2) out2.
Proof.
  destruct (patched unpatched) as [st|code st] eqn:H; [|vm_compute in H; discriminate].
  exists st. split; [reflexivity|].
  pose proof (second_run_is_not_a_no_op unpatched st H) as [_ R].
  assert (E : st = match patched unpatched with Continues s => s | Exits _ s => s end)
    by now rewrite H.
  vm_compute in E. subst st. split; [reflexivity|].
  destruct (main _) as [[file2 out2] code2] eqn:M.
  assert (C : code2 = 0).
  { apply (f_equal snd) in M. cbn [snd] in M. vm_compute in M. now symmetry. }
  destruct R as [[X _]|[_ [G [I2 _]]]]; [congruence|].
  exists file2, out2. subst code2. split; [reflexivity|]. split; [exact G|exact I2].
Defined.

End Patches.
